(** * CastleApp: frame-resource ring, dirty propagation and the water feed

    A shallow embedding of the per-frame logic of [CastleApp.cpp]
    (GAME3111 assignment 2): the circular array of frame resources with its
    fence handshake ([CastleApp::Update], [CastleApp::Draw]), the
    dirty-count driven constant-buffer updates ([UpdateObjectCBs],
    [UpdateMaterialCBs], [UpdateMainPassCB]) and the water update
    ([UpdateWater]); and of the start-up that leads to it
    ([Initialize] with [BuildMaterials], [BuildCastleGeometry],
    [BuildWaterGeometry], [BuildTreeSpritesGeometry], [BuildRenderItems]
    and [BuildFrameResources]).

    C++ [float] is IEEE-754 binary32, taken from the Standard Library's
    [SpecFloat] at precision 24 and [emax] 128.  [UINT64] counters are
    integers modulo [2^64], [UINT] values integers modulo [2^32].  A
    dereference of a null pointer, a write outside a buffer or a vector
    and an overflow of [int] arithmetic are undefined in the source and
    are [None] here.

    The headers the file includes are not part of the sources.  What the
    frame logic needs of them is stated where it is used: the DirectXMath
    functions and the [Waves] class as interfaces, [ObjectConstants] and
    the constructor of [FrameResource] as small models, and the wave
    simulation itself as the module [WaveField].

    The definitions come first; the properties follow, starting with the
    facts on rounding in binary32 that the scroll of the water texture
    rests on. *)

From Stdlib Require Import ZArith Lia Bool SpecFloat.
From stdpp Require Import base option list strings gmap.

Open Scope Z_scope.
Set Warnings "-clear-no-such-hyp".

(** ** binary32 arithmetic *)

Module F32.

Definition prec : Z := 24.
Definition emax : Z := 128.

Definition float : Type := spec_float.

Definition add : float -> float -> float := SFadd prec emax.
Definition sub : float -> float -> float := SFsub prec emax.
Definition mul : float -> float -> float := SFmul prec emax.
Definition div : float -> float -> float := SFdiv prec emax.
Definition ltb : float -> float -> bool := SFltb.
Definition leb : float -> float -> bool := SFleb.
(** [a >= b] of C++ is [b <= a]; both are false on a NaN. *)
Definition geb (a b : float) : bool := SFleb b a.
Definition eqb : float -> float -> bool := SFeqb.

(** [(float)n] for an integer [n]. *)
Definition of_Z (n : Z) : float := binary_normalize prec emax n 0 false.

(** A decimal literal [p/q] with [p], [q] exactly representable: the
    compiler rounds the decimal to nearest, and so does one division. *)
Definition lit (p q : Z) : float := div (of_Z p) (of_Z q).

Definition zero : float := S754_zero false.
Definition one : float := of_Z 1.

Definition is_finite (x : float) : bool :=
    match x with
    | S754_zero _ | S754_finite _ _ _ => true
    | S754_infinity _ | S754_nan => false
    end.

(** A value of the format: canonical mantissa and exponent in range. *)
Definition valid (x : float) : bool := valid_binary prec emax x.

#[global] Instance float_eq_dec : EqDecision float.
Proof. solve_decision. Defined.

End F32.

Abbreviation float := F32.float.

(** The literals of the source. *)
Definition f0_1 : float := F32.lit 1 10.     (* 0.1f *)
Definition f0_02 : float := F32.lit 2 100.   (* 0.02f *)
Definition f0_5 : float := F32.lit 1 2.      (* 0.5f *)
Definition f1_0 : float := F32.one.          (* 1.0f *)

(** ** DirectXMath storage types *)

Record XMFLOAT2 := mkF2 { f2x : float; f2y : float }.
Record XMFLOAT3 := mkF3 { f3x : float; f3y : float; f3z : float }.
Record XMFLOAT4 := mkF4 { f4x : float; f4y : float; f4z : float; f4w : float }.
Record XMFLOAT4X4 := mkM { row0 : XMFLOAT4; row1 : XMFLOAT4; row2 : XMFLOAT4; row3 : XMFLOAT4 }.

#[global] Instance XMFLOAT2_eq_dec : EqDecision XMFLOAT2.
Proof. solve_decision. Defined.
#[global] Instance XMFLOAT3_eq_dec : EqDecision XMFLOAT3.
Proof. solve_decision. Defined.
#[global] Instance XMFLOAT4_eq_dec : EqDecision XMFLOAT4.
Proof. solve_decision. Defined.
#[global] Instance XMFLOAT4X4_eq_dec : EqDecision XMFLOAT4X4.
Proof. solve_decision. Defined.

Definition f4_get (v : XMFLOAT4) (j : Z) : float :=
  if j =? 0 then f4x v else if j =? 1 then f4y v else if j =? 2 then f4z v else f4w v.

Definition f4_set (v : XMFLOAT4) (j : Z) (a : float) : XMFLOAT4 :=
  if j =? 0 then mkF4 a (f4y v) (f4z v) (f4w v)
  else if j =? 1 then mkF4 (f4x v) a (f4z v) (f4w v)
  else if j =? 2 then mkF4 (f4x v) (f4y v) a (f4w v)
  else mkF4 (f4x v) (f4y v) (f4z v) a.

(** [M(i, j)]: row [i], column [j], both in [0, 4). *)
Definition mat_get (M : XMFLOAT4X4) (i j : Z) : float :=
  f4_get (if i =? 0 then row0 M else if i =? 1 then row1 M
          else if i =? 2 then row2 M else row3 M) j.

Definition mat_set (M : XMFLOAT4X4) (i j : Z) (a : float) : XMFLOAT4X4 :=
  if i =? 0 then mkM (f4_set (row0 M) j a) (row1 M) (row2 M) (row3 M)
  else if i =? 1 then mkM (row0 M) (f4_set (row1 M) j a) (row2 M) (row3 M)
  else if i =? 2 then mkM (row0 M) (row1 M) (f4_set (row2 M) j a) (row3 M)
  else mkM (row0 M) (row1 M) (row2 M) (f4_set (row3 M) j a).

(** [MathHelper::Identity4x4]. *)
Definition Identity4x4 : XMFLOAT4X4 :=
  let o := f1_0 in let z := F32.zero in
  mkM (mkF4 o z z z) (mkF4 z o z z) (mkF4 z z o z) (mkF4 z z z o).

(** [XMMatrixTranspose]: rows become columns; no arithmetic is involved. *)
Definition XMMatrixTranspose (M : XMFLOAT4X4) : XMFLOAT4X4 :=
  mkM (mkF4 (f4x (row0 M)) (f4x (row1 M)) (f4x (row2 M)) (f4x (row3 M)))
      (mkF4 (f4y (row0 M)) (f4y (row1 M)) (f4y (row2 M)) (f4y (row3 M)))
      (mkF4 (f4z (row0 M)) (f4z (row1 M)) (f4z (row2 M)) (f4z (row3 M)))
      (mkF4 (f4w (row0 M)) (f4w (row1 M)) (f4w (row2 M)) (f4w (row3 M))).

(** [XMMatrixScaling sx sy sz]: the diagonal matrix. *)
Definition XMMatrixScaling (sx sy sz : float) : XMFLOAT4X4 :=
  let o := f1_0 in let z := F32.zero in
  mkM (mkF4 sx z z z) (mkF4 z sy z z) (mkF4 z z sz z) (mkF4 z z z o).

(** The remaining DirectXMath and C library functions the frame code calls
    are external to the repository; they are an interface here. *)
Class DirectXMath := {
  XMMatrixMultiply : XMFLOAT4X4 -> XMFLOAT4X4 -> XMFLOAT4X4;
  XMMatrixDeterminant : XMFLOAT4X4 -> XMFLOAT4;
  XMMatrixInverse : XMFLOAT4 -> XMFLOAT4X4 -> XMFLOAT4X4;
  XMMatrixLookAtLH : XMFLOAT4 -> XMFLOAT4 -> XMFLOAT4 -> XMFLOAT4X4;
  sinf : float -> float;
  cosf : float -> float
}.

(** ** GPU-visible data (FrameResource.h, d3dUtil.h, UploadBuffer.h)

    These headers are not among the sources; the records carry the members
    [CastleApp.cpp] reads and writes. *)

Definition ID3D12Resource : Type := nat.

Record Vertex := mkVertex { Pos : XMFLOAT3; Normal : XMFLOAT3; TexC : XMFLOAT2 }.

(** Modelled from the spec: [ObjectConstants] is declared in FrameResource.h,
    which is missing.  The source stores its [World] member; the data model
    of the spec gives an object a world transform and a texture transform,
    so the block has a [TexTransform] member too. *)
Record ObjectConstants := mkObjectConstants {
  oc_World : XMFLOAT4X4;
  oc_TexTransform : XMFLOAT4X4
}.

(** [ObjectConstants objConstants;] : both members start as the identity,
    as the transforms of [RenderItem] do. *)
Definition ObjectConstants_default : ObjectConstants :=
  mkObjectConstants Identity4x4 Identity4x4.

Record MaterialConstants := mkMaterialConstants {
  mc_DiffuseAlbedo : XMFLOAT4;
  mc_FresnelR0 : XMFLOAT3;
  mc_Roughness : float;
  mc_MatTransform : XMFLOAT4X4
}.

Record Light := mkLight {
  Strength : XMFLOAT3;
  FalloffStart : float;
  Direction : XMFLOAT3;
  FalloffEnd : float;
  Position : XMFLOAT3;
  SpotPower : float
}.

Record PassConstants := mkPassConstants {
  View : XMFLOAT4X4;
  InvView : XMFLOAT4X4;
  Proj : XMFLOAT4X4;
  InvProj : XMFLOAT4X4;
  ViewProj : XMFLOAT4X4;
  InvViewProj : XMFLOAT4X4;
  EyePosW : XMFLOAT3;
  RenderTargetSize : XMFLOAT2;
  InvRenderTargetSize : XMFLOAT2;
  NearZ : float;
  FarZ : float;
  TotalTime : float;
  DeltaTime : float;
  AmbientLight : XMFLOAT4;
  Lights : list Light
}.

#[global] Instance Vertex_eq_dec : EqDecision Vertex.
Proof. solve_decision. Defined.
#[global] Instance ObjectConstants_eq_dec : EqDecision ObjectConstants.
Proof. solve_decision. Defined.
#[global] Instance MaterialConstants_eq_dec : EqDecision MaterialConstants.
Proof. solve_decision. Defined.

(** [UploadBuffer<T>]: a mapped GPU resource holding an array of [T]. *)
Record UploadBuffer (T : Type) := mkUploadBuffer {
  Resource : ID3D12Resource;
  mMappedData : list T
}.
Arguments mkUploadBuffer {T} _ _.
Arguments Resource {T} _.
Arguments mMappedData {T} _.

(** [CopyData(int elementIndex, const T& data)]: a [memcpy] into element
    [elementIndex] of the mapping; outside the mapping it is undefined. *)
Definition CopyData {T} (ub : UploadBuffer T) (elementIndex : Z) (data : T)
  : option (UploadBuffer T) :=
  if bool_decide (0 <= elementIndex < Z.of_nat (length (mMappedData ub)))
  then Some (mkUploadBuffer (Resource ub)
               (<[Z.to_nat elementIndex := data]> (mMappedData ub)))
  else None.

(** A sequence of [CopyData] calls, in order. *)
Fixpoint CopyData_all {T} (ub : UploadBuffer T) (ws : list (Z * T))
  : option (UploadBuffer T) :=
  match ws with
  | [] => Some ub
  | (i, d) :: ws' => ub' ← CopyData ub i d; CopyData_all ub' ws'
  end.

(** Element [i] of the mapping, as the GPU reads it. *)
Definition ub_read {T} (ub : UploadBuffer T) (i : Z) : option T :=
  if bool_decide (0 <= i) then mMappedData ub !! Z.to_nat i else None.

Record FrameResource := mkFrameResource {
  PassCB : UploadBuffer PassConstants;
  ObjectCB : UploadBuffer ObjectConstants;
  MaterialCB : UploadBuffer MaterialConstants;
  WavesVB : UploadBuffer Vertex;
  (** Fence value to mark commands up to this fence point ([UINT64]). *)
  Fence : Z
}.

Definition set_Fence (f : Z) (fr : FrameResource) : FrameResource :=
  mkFrameResource (PassCB fr) (ObjectCB fr) (MaterialCB fr) (WavesVB fr) f.
Definition set_PassCB (b : UploadBuffer PassConstants) (fr : FrameResource) : FrameResource :=
  mkFrameResource b (ObjectCB fr) (MaterialCB fr) (WavesVB fr) (Fence fr).
Definition set_ObjectCB (b : UploadBuffer ObjectConstants) (fr : FrameResource) : FrameResource :=
  mkFrameResource (PassCB fr) b (MaterialCB fr) (WavesVB fr) (Fence fr).
Definition set_MaterialCB (b : UploadBuffer MaterialConstants) (fr : FrameResource) : FrameResource :=
  mkFrameResource (PassCB fr) (ObjectCB fr) b (WavesVB fr) (Fence fr).
Definition set_WavesVB (b : UploadBuffer Vertex) (fr : FrameResource) : FrameResource :=
  mkFrameResource (PassCB fr) (ObjectCB fr) (MaterialCB fr) b (Fence fr).

(** ** Scene data *)

Definition gNumFrameResources : Z := 3.

Definition UINT64_MAX : Z := 2 ^ 64 - 1.

(** A [UINT] passed for an [int] parameter. *)
Definition int_of_UINT (u : Z) : Z := if u <? 2 ^ 31 then u else u - 2 ^ 32.

Record RenderItem := mkRenderItem {
  World : XMFLOAT4X4;
  TexTransform : XMFLOAT4X4;
  ri_NumFramesDirty : Z;
  ObjCBIndex : Z;
  Mat : option string;
  Geo : option string;
  IndexCount : Z;
  StartIndexLocation : Z;
  BaseVertexLocation : Z
}.

(** [RenderItem() = default]: the member initialisers of the struct. *)
Definition RenderItem_default : RenderItem :=
  mkRenderItem Identity4x4 Identity4x4 gNumFrameResources (2 ^ 32 - 1) None None 0 0 0.

Definition ri_set_NumFramesDirty (n : Z) (e : RenderItem) : RenderItem :=
  mkRenderItem (World e) (TexTransform e) n (ObjCBIndex e) (Mat e) (Geo e)
    (IndexCount e) (StartIndexLocation e) (BaseVertexLocation e).

Record Material := mkMaterial {
  MatCBIndex : Z;
  DiffuseSrvHeapIndex : Z;
  mat_NumFramesDirty : Z;
  DiffuseAlbedo : XMFLOAT4;
  FresnelR0 : XMFLOAT3;
  Roughness : float;
  MatTransform : XMFLOAT4X4
}.

Definition mat_set_NumFramesDirty (n : Z) (m : Material) : Material :=
  mkMaterial (MatCBIndex m) (DiffuseSrvHeapIndex m) n (DiffuseAlbedo m)
    (FresnelR0 m) (Roughness m) (MatTransform m).
Definition mat_set_MatTransform (M : XMFLOAT4X4) (m : Material) : Material :=
  mkMaterial (MatCBIndex m) (DiffuseSrvHeapIndex m) (mat_NumFramesDirty m)
    (DiffuseAlbedo m) (FresnelR0 m) (Roughness m) M.

Record MeshGeometry := mkMeshGeometry {
  (** [ComPtr<ID3D12Resource>]: [None] is the null pointer. *)
  VertexBufferGPU : option ID3D12Resource
}.

Record GameTimer := mkGameTimer { gt_TotalTime : float; gt_DeltaTime : float }.

(** [Waves] (Waves.h) is not among the sources; the frame code uses it
    through these members only.  The vertex count of a wave grid is fixed
    at construction. *)
Class WavesAPI (Waves : Type) := {
  Waves_Update : Waves -> float -> Waves;
  Waves_Position : Waves -> Z -> XMFLOAT3;
  Waves_Normal : Waves -> Z -> XMFLOAT3;
  Waves_VertexCount : Waves -> Z;
  Waves_Width : Waves -> float;
  Waves_Depth : Waves -> float;
  Waves_VertexCount_Update :
    forall w dt, Waves_VertexCount (Waves_Update w dt) = Waves_VertexCount w
}.

(** ** The application state

    The members of [CastleApp] (and of its base [D3DApp]) that the frame code
    touches.  A pointer into a container is the index or key of the element
    it points to, so that a write through it is seen by every holder:
    [mCurrFrameResource] indexes [mFrameResources], [mWavesRitem] indexes
    [mAllRitems], and [RenderItem::Geo] names an entry of [mGeometries]. *)

Record CastleApp (Waves : Type) := mkCastleApp {
  mFrameResources : list FrameResource;
  mCurrFrameResource : option nat;
  mCurrFrameResourceIndex : Z;
  mCurrentFence : Z;
  mGeometries : gmap string MeshGeometry;
  mMaterials : list (string * Material);
  mAllRitems : list RenderItem;
  mWaves : Waves;
  mWavesRitem : option nat;
  mMainPassCB : PassConstants;
  mIsWireframe : bool;
  mEyePos : XMFLOAT3;
  mView : XMFLOAT4X4;
  mProj : XMFLOAT4X4;
  mTheta : float;
  mPhi : float;
  mRadius : float;
  mClientWidth : Z;
  mClientHeight : Z
}.
Arguments mFrameResources {Waves} _.
Arguments mCurrFrameResource {Waves} _.
Arguments mCurrFrameResourceIndex {Waves} _.
Arguments mCurrentFence {Waves} _.
Arguments mGeometries {Waves} _.
Arguments mMaterials {Waves} _.
Arguments mAllRitems {Waves} _.
Arguments mWaves {Waves} _.
Arguments mWavesRitem {Waves} _.
Arguments mMainPassCB {Waves} _.
Arguments mIsWireframe {Waves} _.
Arguments mEyePos {Waves} _.
Arguments mView {Waves} _.
Arguments mProj {Waves} _.
Arguments mTheta {Waves} _.
Arguments mPhi {Waves} _.
Arguments mRadius {Waves} _.
Arguments mClientWidth {Waves} _.
Arguments mClientHeight {Waves} _.
Arguments mkCastleApp {Waves}.

Definition set_mFrameResources {Waves} (v : list FrameResource) (s : CastleApp Waves) : CastleApp Waves :=
  mkCastleApp v (mCurrFrameResource s) (mCurrFrameResourceIndex s) (mCurrentFence s) (mGeometries s) (mMaterials s) (mAllRitems s) (mWaves s) (mWavesRitem s) (mMainPassCB s) (mIsWireframe s) (mEyePos s) (mView s) (mProj s) (mTheta s) (mPhi s) (mRadius s) (mClientWidth s) (mClientHeight s).
Definition set_mCurrFrameResource {Waves} (v : option nat) (s : CastleApp Waves) : CastleApp Waves :=
  mkCastleApp (mFrameResources s) v (mCurrFrameResourceIndex s) (mCurrentFence s) (mGeometries s) (mMaterials s) (mAllRitems s) (mWaves s) (mWavesRitem s) (mMainPassCB s) (mIsWireframe s) (mEyePos s) (mView s) (mProj s) (mTheta s) (mPhi s) (mRadius s) (mClientWidth s) (mClientHeight s).
Definition set_mCurrFrameResourceIndex {Waves} (v : Z) (s : CastleApp Waves) : CastleApp Waves :=
  mkCastleApp (mFrameResources s) (mCurrFrameResource s) v (mCurrentFence s) (mGeometries s) (mMaterials s) (mAllRitems s) (mWaves s) (mWavesRitem s) (mMainPassCB s) (mIsWireframe s) (mEyePos s) (mView s) (mProj s) (mTheta s) (mPhi s) (mRadius s) (mClientWidth s) (mClientHeight s).
Definition set_mCurrentFence {Waves} (v : Z) (s : CastleApp Waves) : CastleApp Waves :=
  mkCastleApp (mFrameResources s) (mCurrFrameResource s) (mCurrFrameResourceIndex s) v (mGeometries s) (mMaterials s) (mAllRitems s) (mWaves s) (mWavesRitem s) (mMainPassCB s) (mIsWireframe s) (mEyePos s) (mView s) (mProj s) (mTheta s) (mPhi s) (mRadius s) (mClientWidth s) (mClientHeight s).
Definition set_mGeometries {Waves} (v : gmap string MeshGeometry) (s : CastleApp Waves) : CastleApp Waves :=
  mkCastleApp (mFrameResources s) (mCurrFrameResource s) (mCurrFrameResourceIndex s) (mCurrentFence s) v (mMaterials s) (mAllRitems s) (mWaves s) (mWavesRitem s) (mMainPassCB s) (mIsWireframe s) (mEyePos s) (mView s) (mProj s) (mTheta s) (mPhi s) (mRadius s) (mClientWidth s) (mClientHeight s).
Definition set_mMaterials {Waves} (v : list (string * Material)) (s : CastleApp Waves) : CastleApp Waves :=
  mkCastleApp (mFrameResources s) (mCurrFrameResource s) (mCurrFrameResourceIndex s) (mCurrentFence s) (mGeometries s) v (mAllRitems s) (mWaves s) (mWavesRitem s) (mMainPassCB s) (mIsWireframe s) (mEyePos s) (mView s) (mProj s) (mTheta s) (mPhi s) (mRadius s) (mClientWidth s) (mClientHeight s).
Definition set_mAllRitems {Waves} (v : list RenderItem) (s : CastleApp Waves) : CastleApp Waves :=
  mkCastleApp (mFrameResources s) (mCurrFrameResource s) (mCurrFrameResourceIndex s) (mCurrentFence s) (mGeometries s) (mMaterials s) v (mWaves s) (mWavesRitem s) (mMainPassCB s) (mIsWireframe s) (mEyePos s) (mView s) (mProj s) (mTheta s) (mPhi s) (mRadius s) (mClientWidth s) (mClientHeight s).
Definition set_mWaves {Waves} (v : Waves) (s : CastleApp Waves) : CastleApp Waves :=
  mkCastleApp (mFrameResources s) (mCurrFrameResource s) (mCurrFrameResourceIndex s) (mCurrentFence s) (mGeometries s) (mMaterials s) (mAllRitems s) v (mWavesRitem s) (mMainPassCB s) (mIsWireframe s) (mEyePos s) (mView s) (mProj s) (mTheta s) (mPhi s) (mRadius s) (mClientWidth s) (mClientHeight s).
Definition set_mMainPassCB {Waves} (v : PassConstants) (s : CastleApp Waves) : CastleApp Waves :=
  mkCastleApp (mFrameResources s) (mCurrFrameResource s) (mCurrFrameResourceIndex s) (mCurrentFence s) (mGeometries s) (mMaterials s) (mAllRitems s) (mWaves s) (mWavesRitem s) v (mIsWireframe s) (mEyePos s) (mView s) (mProj s) (mTheta s) (mPhi s) (mRadius s) (mClientWidth s) (mClientHeight s).
Definition set_mIsWireframe {Waves} (v : bool) (s : CastleApp Waves) : CastleApp Waves :=
  mkCastleApp (mFrameResources s) (mCurrFrameResource s) (mCurrFrameResourceIndex s) (mCurrentFence s) (mGeometries s) (mMaterials s) (mAllRitems s) (mWaves s) (mWavesRitem s) (mMainPassCB s) v (mEyePos s) (mView s) (mProj s) (mTheta s) (mPhi s) (mRadius s) (mClientWidth s) (mClientHeight s).
Definition set_mEyePos {Waves} (v : XMFLOAT3) (s : CastleApp Waves) : CastleApp Waves :=
  mkCastleApp (mFrameResources s) (mCurrFrameResource s) (mCurrFrameResourceIndex s) (mCurrentFence s) (mGeometries s) (mMaterials s) (mAllRitems s) (mWaves s) (mWavesRitem s) (mMainPassCB s) (mIsWireframe s) v (mView s) (mProj s) (mTheta s) (mPhi s) (mRadius s) (mClientWidth s) (mClientHeight s).
Definition set_mView {Waves} (v : XMFLOAT4X4) (s : CastleApp Waves) : CastleApp Waves :=
  mkCastleApp (mFrameResources s) (mCurrFrameResource s) (mCurrFrameResourceIndex s) (mCurrentFence s) (mGeometries s) (mMaterials s) (mAllRitems s) (mWaves s) (mWavesRitem s) (mMainPassCB s) (mIsWireframe s) (mEyePos s) v (mProj s) (mTheta s) (mPhi s) (mRadius s) (mClientWidth s) (mClientHeight s).

(** ** Dirty-count propagation

    [UpdateObjectCBs] and [UpdateMaterialCBs] are the same loop over two
    containers: for each element whose [NumFramesDirty] is positive, build
    its constants, [CopyData] them at the index of the element, and
    decrement [NumFramesDirty]. *)

Section Propagate.

Context {E T : Type}.
Variable NumFramesDirty : E -> Z.
Variable set_NumFramesDirty : Z -> E -> E.
Variable CBIndex : E -> Z.
Variable constants : E -> T.

Fixpoint propagate (cb : UploadBuffer T) (es : list E)
  : option (UploadBuffer T * list E) :=
  match es with
  | [] => Some (cb, [])
  | e :: es' =>
      if 0 <? NumFramesDirty e then
        cb1 ← CopyData cb (CBIndex e) (constants e);
        r ← propagate cb1 es';
        Some (r.1, set_NumFramesDirty (NumFramesDirty e - 1) e :: r.2)
      else
        r ← propagate cb es';
        Some (r.1, e :: r.2)
  end.

(** What one pass does to one element, and the [CopyData] call it issues
    for it, if any. *)
Definition pass_elem (e : E) : E :=
  if 0 <? NumFramesDirty e then set_NumFramesDirty (NumFramesDirty e - 1) e else e.

Definition pass_write (e : E) : option (Z * T) :=
  if 0 <? NumFramesDirty e then Some (CBIndex e, constants e) else None.

End Propagate.

(** The constants built for a render item (lines 430-433): only [World] is
    stored into the default-constructed block. *)
Definition objConstants (e : RenderItem) : ObjectConstants :=
  mkObjectConstants (XMMatrixTranspose (World e))
                    (oc_TexTransform ObjectConstants_default).

(** The constants built for a material (lines 497-503). *)
Definition matConstants (mat : Material) : MaterialConstants :=
  mkMaterialConstants (DiffuseAlbedo mat) (FresnelR0 mat) (Roughness mat)
                      (XMMatrixTranspose (MatTransform mat)).

Definition UpdateObjectCBs_loop :=
  propagate ri_NumFramesDirty ri_set_NumFramesDirty
            (fun e => int_of_UINT (ObjCBIndex e)) objConstants.

Definition mat_entry_set_dirty (n : Z) (e : string * Material) : string * Material :=
  (e.1, mat_set_NumFramesDirty n e.2).

Definition UpdateMaterialCBs_loop :=
  propagate (fun e : string * Material => mat_NumFramesDirty e.2) mat_entry_set_dirty
            (fun e => MatCBIndex e.2) (fun e => matConstants e.2).

(** [std::unordered_map] as the sequence of its entries in iteration order,
    keys distinct. *)
Fixpoint alist_lookup {V} (k : string) (l : list (string * V)) : option V :=
  match l with
  | [] => None
  | (k', v) :: l' => if decide (k = k') then Some v else alist_lookup k l'
  end.

Fixpoint alist_set {V} (k : string) (v : V) (l : list (string * V)) : list (string * V) :=
  match l with
  | [] => []
  | (k', v') :: l' => if decide (k = k') then (k', v) :: l' else (k', v') :: alist_set k v l'
  end.

Section Frame.

Context `{DX : DirectXMath} {Waves : Type} `{WA : WavesAPI Waves}.

#[local] Abbreviation App := (CastleApp Waves).

(** [*mCurrFrameResource]. *)
Definition curr (s : App) : option FrameResource :=
  i ← mCurrFrameResource s; mFrameResources s !! i.

(** A write through [mCurrFrameResource]. *)
Definition set_curr (fr : FrameResource) (s : App) : option App :=
  i ← mCurrFrameResource s;
  _ ← mFrameResources s !! i;
  Some (set_mFrameResources (<[i := fr]> (mFrameResources s)) s).

(** Lines 397-403; [key1] is what [GetAsyncKeyState('1')] returns. *)
Definition OnKeyboardInput (key1 : Z) (s : App) : App :=
  set_mIsWireframe (negb (Z.land key1 32768 =? 0)) s.

(** Lines 405-419. *)
Definition UpdateCamera (s : App) : App :=
  let x := F32.mul (F32.mul (mRadius s) (sinf (mPhi s))) (cosf (mTheta s)) in
  let z := F32.mul (F32.mul (mRadius s) (sinf (mPhi s))) (sinf (mTheta s)) in
  let y := F32.mul (mRadius s) (cosf (mPhi s)) in
  let pos := mkF4 x y z f1_0 in
  let target := mkF4 F32.zero F32.zero F32.zero F32.zero in
  let up := mkF4 F32.zero f1_0 F32.zero F32.zero in
  set_mView (XMMatrixLookAtLH pos target up) (set_mEyePos (mkF3 x y z) s).

(** Lines 263-265: cycle through the circular frame resource array.
    [%] of C++ truncates, as [Z.rem] does. *)
Definition cycle (s : App) : option App :=
  let i := Z.rem (mCurrFrameResourceIndex s + 1) gNumFrameResources in
  if bool_decide (0 <= i < Z.of_nat (length (mFrameResources s)))
  then Some (set_mCurrFrameResource (Some (Z.to_nat i))
               (set_mCurrFrameResourceIndex i s))
  else None.

(** Line 269: has the GPU not yet finished the commands of the current
    frame resource?  [completed] is [mFence->GetCompletedValue()]. *)
Definition must_wait (completed : Z) (s : App) : option bool :=
  fr ← curr s;
  Some (negb (Fence fr =? 0) && (completed <? Fence fr)).

(** Lines 555-568: the vertices written into the dynamic vertex buffer. *)
Definition wave_vertex (w : Waves) (i : Z) : Vertex :=
  let pos := Waves_Position w i in
  mkVertex pos (Waves_Normal w i)
    (mkF2 (F32.add f0_5 (F32.div (f3x pos) (Waves_Width w)))
          (F32.sub f0_5 (F32.div (f3z pos) (Waves_Depth w)))).

Definition wave_writes (w : Waves) : list (Z * Vertex) :=
  (fun i => (i, wave_vertex w i)) <$> seqZ 0 (Waves_VertexCount w).

(** Lines 518-531: scroll one texture offset. *)
Definition scroll (t rate dt : float) : float :=
  let t1 := F32.add t (F32.mul rate dt) in
  if F32.geb t1 f1_0 then F32.sub t1 f1_0 else t1.

Definition scroll_water (dt : float) (M : XMFLOAT4X4) : XMFLOAT4X4 :=
  let tu := scroll (mat_get M 3 0) f0_1 dt in
  let tv := scroll (mat_get M 3 1) f0_02 dt in
  mat_set (mat_set M 3 0 tu) 3 1 tv.

(** Lines 513-572. *)
Definition UpdateWater (gt : GameTimer) (s : App) : option App :=
  waterMat ← alist_lookup "water" (mMaterials s);
  let waterMat' :=
    mat_set_NumFramesDirty gNumFrameResources
      (mat_set_MatTransform (scroll_water (gt_DeltaTime gt) (MatTransform waterMat))
         waterMat) in
  let s1 := set_mMaterials (alist_set "water" waterMat' (mMaterials s)) s in
  let s2 := set_mWaves (Waves_Update (mWaves s1) (gt_DeltaTime gt)) s1 in
  fr ← curr s2;
  currWavesVB ← CopyData_all (WavesVB fr) (wave_writes (mWaves s2));
  s3 ← set_curr (set_WavesVB currWavesVB fr) s2;
  r ← mWavesRitem s3;
  item ← mAllRitems s3 !! r;
  g ← Geo item;
  _ ← mGeometries s3 !! g;
  Some (set_mGeometries
          (<[g := mkMeshGeometry (Some (Resource currWavesVB))]> (mGeometries s3)) s3).

(** Lines 421-441. *)
Definition UpdateObjectCBs (s : App) : option App :=
  fr ← curr s;
  r ← UpdateObjectCBs_loop (ObjectCB fr) (mAllRitems s);
  set_curr (set_ObjectCB r.1 fr) (set_mAllRitems r.2 s).

(** Lines 487-511. *)
Definition UpdateMaterialCBs (s : App) : option App :=
  fr ← curr s;
  r ← UpdateMaterialCBs_loop (MaterialCB fr) (mMaterials s);
  set_curr (set_MaterialCB r.1 fr) (set_mMaterials r.2 s).

Definition light_set_Direction (d : XMFLOAT3) (l : Light) : Light :=
  mkLight (Strength l) (FalloffStart l) d (FalloffEnd l) (Position l) (SpotPower l).
Definition light_set_Strength (v : XMFLOAT3) (l : Light) : Light :=
  mkLight v (FalloffStart l) (Direction l) (FalloffEnd l) (Position l) (SpotPower l).
Definition light_set_Position (v : XMFLOAT3) (l : Light) : Light :=
  mkLight (Strength l) (FalloffStart l) (Direction l) (FalloffEnd l) v (SpotPower l).
Definition light_set_Falloff (a b : float) (l : Light) : Light :=
  mkLight (Strength l) a (Direction l) b (Position l) (SpotPower l).

Definition f3 (x y z : float) : XMFLOAT3 := mkF3 x y z.

(** Lines 467-472: the three directional lights. *)
Definition fixed_lights (ls : list Light) : list Light :=
  let d := F32.lit 57735 100000 in
  let nd := F32.lit (-57735) 100000 in
  let ls := alter (light_set_Direction (f3 d nd d)) 0%nat ls in
  let ls := alter (light_set_Strength (f3 (F32.lit 5 10) (F32.lit 5 10) (F32.lit 5 10))) 0%nat ls in
  let ls := alter (light_set_Direction (f3 nd nd d)) 1%nat ls in
  let ls := alter (light_set_Strength (f3 (F32.lit 3 10) (F32.lit 3 10) (F32.lit 3 10))) 1%nat ls in
  let ls := alter (light_set_Direction (f3 F32.zero (F32.lit (-707) 1000) (F32.lit (-707) 1000))) 2%nat ls in
  alter (light_set_Strength (f3 (F32.lit 15 100) (F32.lit 15 100) (F32.lit 15 100))) 2%nat ls.

(** Lines 474-481: the four point lights at the towers, [k = i + 3]. *)
Definition tower_light (dx dz : float) (l : Light) : Light :=
  light_set_Falloff f1_0 (F32.of_Z 5)
    (light_set_Strength (f3 (F32.lit 1 10) (F32.lit 1 10) (F32.lit 38 10))
       (light_set_Position (f3 dx (F32.lit 55 10) dz) l)).

Definition tower_lights (ls : list Light) : list Light :=
  let p := F32.of_Z 7 in
  let n := F32.of_Z (-7) in
  let ls := alter (tower_light p p) 3%nat ls in
  let ls := alter (tower_light p n) 4%nat ls in
  let ls := alter (tower_light n p) 5%nat ls in
  alter (tower_light n n) 6%nat ls.

(** Lines 445-481: the pass block of this frame.  The members the function
    does not assign keep the value they have in [mMainPassCB]. *)
Definition main_pass (gt : GameTimer) (s : App) : PassConstants :=
  let view := mView s in
  let proj := mProj s in
  let viewProj := XMMatrixMultiply view proj in
  let invView := XMMatrixInverse (XMMatrixDeterminant view) view in
  let invProj := XMMatrixInverse (XMMatrixDeterminant proj) proj in
  let invViewProj := XMMatrixInverse (XMMatrixDeterminant viewProj) viewProj in
  mkPassConstants
    (XMMatrixTranspose view) (XMMatrixTranspose invView)
    (XMMatrixTranspose proj) (XMMatrixTranspose invProj)
    (XMMatrixTranspose viewProj) (XMMatrixTranspose invViewProj)
    (mEyePos s)
    (mkF2 (F32.of_Z (mClientWidth s)) (F32.of_Z (mClientHeight s)))
    (mkF2 (F32.div f1_0 (F32.of_Z (mClientWidth s)))
          (F32.div f1_0 (F32.of_Z (mClientHeight s))))
    f1_0 (F32.of_Z 1000)
    (gt_TotalTime gt) (gt_DeltaTime gt)
    (mkF4 (F32.lit 25 100) (F32.lit 25 100) (F32.lit 35 100) f1_0)
    (tower_lights (fixed_lights (Lights (mMainPassCB s)))).

(** Lines 443-485. *)
Definition UpdateMainPassCB (gt : GameTimer) (s : App) : option App :=
  let s1 := set_mMainPassCB (main_pass gt s) s in
  fr ← curr s1;
  currPassCB ← CopyData (PassCB fr) 0 (mMainPassCB s1);
  set_curr (set_PassCB currPassCB fr) s1.

(** [CastleApp::Update], up to the fence test (lines 260-265). *)
Definition Update_front (key1 : Z) (s : App) : option App :=
  cycle (UpdateCamera (OnKeyboardInput key1 s)).

(** [CastleApp::Update], after the wait (lines 277-280). *)
Definition Update_back (gt : GameTimer) (s : App) : option App :=
  s1 ← UpdateWater gt s;
  s2 ← UpdateObjectCBs s1;
  s3 ← UpdateMaterialCBs s2;
  UpdateMainPassCB gt s3.

(** [CastleApp::Update].  The wait of lines 271-274 does not change the
    application state; the flag tells whether the branch was entered. *)
Definition Update (gt : GameTimer) (key1 completed : Z) (s : App) : option (bool * App) :=
  s1 ← Update_front key1 s;
  w ← must_wait completed s1;
  s2 ← Update_back gt s1;
  Some (w, s2).

(** [CastleApp::Draw], lines 343-349: [++mCurrentFence] on a [UINT64],
    stored as the fence of the current frame resource and handed to
    [mCommandQueue->Signal].  The recording of the command list above them
    reads the state and leaves it as it is.  The result carries the value
    signalled. *)
Definition Draw (s : App) : option (App * Z) :=
  fr ← curr s;
  let f := (mCurrentFence s + 1) mod 2 ^ 64 in
  let s1 := set_mCurrentFence f s in
  s2 ← set_curr (set_Fence f fr) s1;
  Some (s2, mCurrentFence s2).

(** One iteration of the message loop: [Update] then [Draw]. *)
Definition tick (gt : GameTimer) (key1 completed : Z) (s : App) : option (bool * App * Z) :=
  r ← Update gt key1 completed s;
  d ← Draw r.2;
  Some (r.1, d.1, d.2).

(** A run of the message loop: one [tick] per input, each input being the
    timer, the key state and the completed fence value read by the test of
    line 269.  The result lists, per tick, whether the host had to wait and
    the fence value signalled. *)
Fixpoint run (inputs : list (GameTimer * Z * Z)) (s : App) : option (list (bool * Z) * App) :=
  match inputs with
  | [] => Some ([], s)
  | (gt, key1, completed) :: rest =>
      r ← tick gt key1 completed s;
      q ← run rest r.1.2;
      Some ((r.1.1, r.2) :: q.1, q.2)
  end.

(** ** Host and GPU

    The GPU consumes the command queue asynchronously.  Of the queue only
    the [Signal] commands matter here: [pending] holds the fence values
    queued by [Draw] and not yet reached, and [completed] is the value
    [GetCompletedValue] reports.  [SetEventOnCompletion] with
    [WaitForSingleObject(INFINITE)] suspends the host until [completed]
    has reached the fence value waited for. *)

Inductive HostPc :=
  | Idle                (* between two frames *)
  | Blocked (f : Z)     (* inside the wait of lines 271-274, for fence [f] *)
  | Ready.              (* past the fence test, before [UpdateWater] *)

Record System := mkSystem {
  app : App;
  completed : Z;
  pending : list Z;
  pc : HostPc
}.

Inductive Actor := Host | Gpu.

Inductive step : Actor -> System -> System -> Prop :=
  | step_front key1 a c q a' fr w :
      Update_front key1 a = Some a' ->
      curr a' = Some fr ->
      must_wait c a' = Some w ->
      step Host (mkSystem a c q Idle)
                (mkSystem a' c q (if w then Blocked (Fence fr) else Ready))
  | step_wake a c q f :
      f <= c ->
      step Host (mkSystem a c q (Blocked f)) (mkSystem a c q Ready)
  | step_back gt a c q a1 a2 v :
      Update_back gt a = Some a1 ->
      Draw a1 = Some (a2, v) ->
      step Host (mkSystem a c q Ready) (mkSystem a2 c (q ++ [v]) Idle)
  | step_gpu a c q v p :
      step Gpu (mkSystem a c (v :: q) p) (mkSystem a v q p).

(** [n] frames submitted by the host with no step of the GPU in between. *)
Inductive submissions : nat -> System -> System -> Prop :=
  | submissions_O sys : submissions 0 sys sys
  | submissions_S n sys sys1 sys2 sys3 :
      submissions n sys sys1 ->
      pc sys1 = Idle ->
      step Host sys1 sys2 ->
      pc sys2 = Ready ->
      step Host sys2 sys3 ->
      submissions (S n) sys sys3.

(** ** Well-formed states

    What [Initialize] establishes: [gNumFrameResources] frame resources
    whose buffers have room for every render item, every material, one
    pass block and every wave vertex; a material named water; and a wave
    render item whose geometry is registered. *)

Definition fits (s : App) (fr : FrameResource) : Prop :=
  (1 <= length (mMappedData (PassCB fr)))%nat /\
  Forall (fun e => 0 <= int_of_UINT (ObjCBIndex e)
                   < Z.of_nat (length (mMappedData (ObjectCB fr)))) (mAllRitems s) /\
  Forall (fun e : string * Material => 0 <= MatCBIndex e.2
                   < Z.of_nat (length (mMappedData (MaterialCB fr)))) (mMaterials s) /\
  Waves_VertexCount (mWaves s) <= Z.of_nat (length (mMappedData (WavesVB fr))).

Record WF (s : App) : Prop := mkWF {
  wf_frames : Z.of_nat (length (mFrameResources s)) = gNumFrameResources;
  wf_index : 0 <= mCurrFrameResourceIndex s < gNumFrameResources;
  wf_counter : 0 <= mCurrentFence s <= UINT64_MAX;
  wf_fits : Forall (fits s) (mFrameResources s);
  wf_water : is_Some (alist_lookup "water" (mMaterials s));
  wf_ritem : exists r item g,
      mWavesRitem s = Some r /\ mAllRitems s !! r = Some item /\
      Geo item = Some g /\ is_Some (mGeometries s !! g)
}.

(** In a frame: well-formed, with a frame resource selected. *)
Definition in_frame (s : App) : Prop := WF s /\ is_Some (curr s).

(** The frame resource the next [Update] selects. *)
Definition next_index (s : App) : nat :=
  Z.to_nat (Z.rem (mCurrFrameResourceIndex s + 1) gNumFrameResources).

(** The fence values of the ring, slot by slot. *)
Definition fences (s : App) : list Z := Fence <$> mFrameResources s.

End Frame.

(** [fits] through the sizes of the frame resource only. *)
Definition fits_sizes (objs : list Z) (mats : list (string * Z)) (count : Z)
    (sz : nat * nat * nat * nat) : Prop :=
  (1 <= sz.1.1.1)%nat /\
  Forall (fun i => 0 <= int_of_UINT i < Z.of_nat sz.1.1.2) objs /\
  Forall (fun e : string * Z => 0 <= e.2 < Z.of_nat sz.1.2) mats /\
  count <= Z.of_nat sz.2.

(** ** What a frame leaves in place *)

Section Shape.

Context {Waves : Type} `{WA : WavesAPI Waves}.

Definition sizes (fr : FrameResource) : nat * nat * nat * nat :=
  (length (mMappedData (PassCB fr)), length (mMappedData (ObjectCB fr)),
   length (mMappedData (MaterialCB fr)), length (mMappedData (WavesVB fr))).

(** The buffer sizes and handles, the buffer indices of the scene and the
    registry keys: everything [WF] depends on but the ring cursor. *)
Record same_shape (s s' : CastleApp Waves) : Prop := mk_same_shape {
  sh_sizes : sizes <$> mFrameResources s' = sizes <$> mFrameResources s;
  sh_vb : (fun fr => Resource (WavesVB fr)) <$> mFrameResources s'
          = (fun fr => Resource (WavesVB fr)) <$> mFrameResources s;
  sh_obj : ObjCBIndex <$> mAllRitems s' = ObjCBIndex <$> mAllRitems s;
  sh_geo : Geo <$> mAllRitems s' = Geo <$> mAllRitems s;
  sh_mat : (fun e : string * Material => (e.1, MatCBIndex e.2)) <$> mMaterials s'
           = (fun e : string * Material => (e.1, MatCBIndex e.2)) <$> mMaterials s;
  sh_count : Waves_VertexCount (mWaves s') = Waves_VertexCount (mWaves s);
  sh_ritem : mWavesRitem s' = mWavesRitem s;
  sh_dom : dom (mGeometries s') = dom (mGeometries s)
}.

(** The ring as [Update_back] leaves it: cursor, counter and fences. *)
Record same_ring (s s' : CastleApp Waves) : Prop := mk_same_ring {
  rg_curr : mCurrFrameResource s' = mCurrFrameResource s;
  rg_index : mCurrFrameResourceIndex s' = mCurrFrameResourceIndex s;
  rg_fence : mCurrentFence s' = mCurrentFence s;
  rg_fences : Fence <$> mFrameResources s' = Fence <$> mFrameResources s
}.

End Shape.


(** ** Start-up

    [BuildMaterials] and [BuildFrameResources] as [Initialize] runs them,
    and a small scene to run the frame code on. *)

Definition f4 (x y z w : float) : XMFLOAT4 := mkF4 x y z w.

(** The member initialisers of [Material] (d3dUtil.h): dirty for every frame
    resource, identity transform. *)
Definition new_Material (cbIndex srvIndex : Z) (albedo : XMFLOAT4) (r0 : XMFLOAT3)
    (roughness : float) : Material :=
  mkMaterial cbIndex srvIndex gNumFrameResources albedo r0 roughness Identity4x4.

(** Lines 1549-1632.  The entries are listed in the order of insertion; the
    iteration order of the map is not determined by the source, and no
    property below depends on it. *)
Definition BuildMaterials : list (string * Material) :=
  let white := f4 f1_0 f1_0 f1_0 f1_0 in
  let r001 := mkF3 (F32.lit 1 100) (F32.lit 1 100) (F32.lit 1 100) in
  [ ("grass", new_Material 0 0 white r001 (F32.lit 125 1000));
    ("brick1", new_Material 1 1 white r001 (F32.lit 125 1000));
    ("brick2", new_Material 2 2 white r001 (F32.lit 225 1000));
    ("brick3", new_Material 3 3 white r001 (F32.lit 325 1000));
    ("ice", new_Material 4 4 white r001 (F32.lit 15 1000));
    ("checkboard", new_Material 5 5 white r001 (F32.lit 325 1000));
    ("water", new_Material 6 6 (f4 f1_0 f1_0 f1_0 (F32.lit 5 10))
                (mkF3 (F32.lit 1 10) (F32.lit 1 10) (F32.lit 1 10)) F32.zero);
    ("wood", new_Material 7 7 white r001 (F32.lit 325 1000));
    ("treeSprites", new_Material 8 8 white r001 (F32.lit 125 1000)) ].

Definition zero4x4 : XMFLOAT4X4 :=
  let z := mkF4 F32.zero F32.zero F32.zero F32.zero in mkM z z z z.

Definition zero_Light : Light :=
  let z := mkF3 F32.zero F32.zero F32.zero in
  mkLight z F32.zero z F32.zero z F32.zero.

(** A pass block with [MaxLights = 16] lights, all members zero. *)
Definition zero_PassConstants : PassConstants :=
  mkPassConstants zero4x4 zero4x4 zero4x4 zero4x4 zero4x4 zero4x4
    (mkF3 F32.zero F32.zero F32.zero) (mkF2 F32.zero F32.zero) (mkF2 F32.zero F32.zero)
    F32.zero F32.zero F32.zero F32.zero (mkF4 F32.zero F32.zero F32.zero F32.zero)
    (replicate 16 zero_Light).

(** Modelled from the spec: the constructor of [FrameResource]
    (FrameResource.h and .cpp) is missing.  Per the data model of the spec a
    frame slot owns one buffer of pass blocks, one of object blocks, one of
    material blocks and one dynamic vertex buffer, each a resource of its
    own, and a completion marker that is zero until the slot is first
    retired.  The fresh mappings are filled with zeroed blocks. *)
Definition new_UploadBuffer {T} (r : ID3D12Resource) (elementCount : Z) (fill : T)
  : UploadBuffer T :=
  mkUploadBuffer r (replicate (Z.to_nat elementCount) fill).

Definition new_FrameResource (first : ID3D12Resource)
    (passCount objectCount materialCount waveVertCount : Z) : FrameResource :=
  mkFrameResource
    (new_UploadBuffer first passCount zero_PassConstants)
    (new_UploadBuffer (first + 1)%nat objectCount (mkObjectConstants zero4x4 zero4x4))
    (new_UploadBuffer (first + 2)%nat materialCount
       (mkMaterialConstants (mkF4 F32.zero F32.zero F32.zero F32.zero)
          (mkF3 F32.zero F32.zero F32.zero) F32.zero zero4x4))
    (new_UploadBuffer (first + 3)%nat waveVertCount
       (mkVertex (mkF3 F32.zero F32.zero F32.zero) (mkF3 F32.zero F32.zero F32.zero)
          (mkF2 F32.zero F32.zero)))
    0.

(** Lines 1186-1194. *)
Definition BuildFrameResources {Waves} `{WavesAPI Waves} (s : CastleApp Waves)
  : CastleApp Waves :=
  let fr (i : nat) :=
    new_FrameResource (4 * i)%nat 1 (Z.of_nat (length (mAllRitems s)))
      (Z.of_nat (length (mMaterials s))) (Waves_VertexCount (mWaves s)) in
  set_mFrameResources (mFrameResources s ++ [fr 0%nat; fr 1%nat; fr 2%nat]) s.

(** Lines 1256-1260: the first wall, render item 13 of the scene.  Its world
    matrix is the product of [XMMatrixScaling(13, 3, 1.5)] and
    [XMMatrixTranslation(0, 1, 7)], whose entries involve no rounding. *)
Definition wallRitem1 : RenderItem :=
  let z := F32.zero in
  mkRenderItem
    (mkM (mkF4 (F32.of_Z 13) z z z) (mkF4 z (F32.of_Z 3) z z)
         (mkF4 z z (F32.lit 15 10) z) (mkF4 z f1_0 (F32.of_Z 7) f1_0))
    (XMMatrixScaling (F32.lit 25 10) (F32.lit 5 10) f1_0)
    gNumFrameResources 13 (Some "brick2") (Some "Castle") 36 0 0.

(** A wave field at rest: a fixed vertex stream that [Update] leaves as it
    is.  It stands in for [Waves] where a concrete scene is run. *)
Record StillWaves := mkStillWaves {
  sw_vertices : list (XMFLOAT3 * XMFLOAT3);
  sw_width : float;
  sw_depth : float
}.

Definition sw_nth (w : StillWaves) (i : Z) : XMFLOAT3 * XMFLOAT3 :=
  let z := mkF3 F32.zero F32.zero F32.zero in
  nth (Z.to_nat i) (sw_vertices w) (z, z).

#[global, refine] Instance StillWaves_API : WavesAPI StillWaves := {
  Waves_Update w dt := w;
  Waves_Position w i := (sw_nth w i).1;
  Waves_Normal w i := (sw_nth w i).2;
  Waves_VertexCount w := Z.of_nat (length (sw_vertices w));
  Waves_Width := sw_width;
  Waves_Depth := sw_depth
}.
Proof. reflexivity. Defined.

(** An instance of the external functions for running a concrete scene;
    no property below depends on what these functions compute. *)
#[global] Instance DX_fixed : DirectXMath := {
  XMMatrixMultiply A B := A;
  XMMatrixDeterminant A := row0 A;
  XMMatrixInverse d A := A;
  XMMatrixLookAtLH pos target up := Identity4x4;
  sinf x := x;
  cosf x := x
}.

(** A 2 x 2 grid of spatial step 1, flat. *)
Definition still2x2 : StillWaves :=
  let h := F32.lit 1 2 in
  let nh := F32.lit (-1) 2 in
  let up := mkF3 F32.zero f1_0 F32.zero in
  mkStillWaves
    [ (mkF3 nh F32.zero h, up); (mkF3 h F32.zero h, up);
      (mkF3 nh F32.zero nh, up); (mkF3 h F32.zero nh, up) ]
    f1_0 f1_0.

(** A reduced scene: the grid, one wall and the water, numbered 0 to 2,
    with the materials of [BuildMaterials], as [Initialize] leaves it when
    the submission counter stands at [fence]. *)
Definition small_scene (fence : Z) : CastleApp StillWaves :=
  let grid := mkRenderItem (XMMatrixScaling (F32.of_Z 2) f1_0 (F32.of_Z 2)) Identity4x4
                gNumFrameResources 0 (Some "grass") (Some "Castle") 6 0 0 in
  let wall := mkRenderItem (World wallRitem1) (TexTransform wallRitem1)
                gNumFrameResources 1 (Some "brick2") (Some "Castle") 36 0 0 in
  let water := mkRenderItem Identity4x4 (XMMatrixScaling (F32.of_Z 5) (F32.of_Z 5) f1_0)
                gNumFrameResources 2 (Some "water") (Some "waterGeo") 6 0 0 in
  BuildFrameResources
    (mkCastleApp [] None 0 fence
       (<["Castle" := mkMeshGeometry (Some 100%nat)]>
          (<["waterGeo" := mkMeshGeometry None]> ∅))
       BuildMaterials [grid; wall; water] still2x2 (Some 2%nat)
       zero_PassConstants false (mkF3 F32.zero F32.zero F32.zero)
       Identity4x4 Identity4x4 (F32.lit 15 10) (F32.lit 1 4) (F32.of_Z 30) 800 600).

(** The slot [d] places after the cursor. *)
Definition slot_after {Waves} (s : CastleApp Waves) (d : Z) : nat :=
  Z.to_nat ((mCurrFrameResourceIndex s + d) mod gNumFrameResources).


Section Views.

Context {Waves : Type}.

(** One member of every frame resource, slot by slot. *)
Definition member {B} (f : FrameResource -> B) (s : CastleApp Waves) : list B :=
  f <$> mFrameResources s.

(** [mWavesRitem->Geo->VertexBufferGPU]. *)
Definition water_vb (s : CastleApp Waves) : option ID3D12Resource :=
  r ← mWavesRitem s;
  item ← mAllRitems s !! r;
  g ← Geo item;
  geo ← mGeometries s !! g;
  VertexBufferGPU geo.

(** The wave render item draws from the vertex buffer of the current frame
    resource. *)
Definition water_vb_current (s : CastleApp Waves) : Prop :=
  exists fr, curr s = Some fr /\ water_vb s = Some (Resource (WavesVB fr)).

(** [MatTransform(3, 0)] and [MatTransform(3, 1)] of the water material. *)
Definition water_offsets (s : CastleApp Waves) : option (float * float) :=
  waterMat ← alist_lookup "water" (mMaterials s);
  Some (mat_get (MatTransform waterMat) 3 0, mat_get (MatTransform waterMat) 3 1).

End Views.


(** The small scene inside its first frame: slot 1 selected. *)
Definition small_frame (fence : Z) : CastleApp StillWaves :=
  set_mCurrFrameResource (Some 1%nat) (set_mCurrFrameResourceIndex 1 (small_scene fence)).

(** The timer of a frame of one sixtieth of a second. *)
Definition gt60 (total : Z) : GameTimer := mkGameTimer (F32.lit total 60) (F32.lit 1 60).


(** ** The wave field (Waves.h and Waves.cpp, not among the sources) *)

Module WaveField.

Definition grid : Type := list (list float).

Definition flat (m n : nat) : grid := replicate m (replicate n F32.zero).

(** [g[i][j]]. *)
Definition cell (g : grid) (i j : nat) : float :=
  default F32.zero (g !! i ≫= fun r => r !! j).

(** [g[i][j] += a]. *)
Definition add_cell (i j : nat) (a : float) (g : grid) : grid :=
  alter (alter (fun x => F32.add x a) j) i g.

(** Modelled from the spec: the state of a wave field: row and column
    counts, spatial step and time step, the three coefficients computed
    once, the time accumulated so far, and the grids [previous], [current]
    and [next], each of [RowCount] rows of [ColumnCount] heights.  The
    normals are derived from [current] and no height depends on them; they
    are left out. *)
Record t := mk {
  RowCount : nat;
  ColumnCount : nat;
  SpatialStep : float;
  TimeStep : float;
  K1 : float;
  K2 : float;
  K3 : float;
  Elapsed : float;
  previous : grid;
  current : grid;
  next : grid
}.

Definition set_Elapsed (a : float) (w : t) : t :=
  mk (RowCount w) (ColumnCount w) (SpatialStep w) (TimeStep w) (K1 w) (K2 w) (K3 w)
    a (previous w) (current w) (next w).

Definition set_current (g : grid) (w : t) : t :=
  mk (RowCount w) (ColumnCount w) (SpatialStep w) (TimeStep w) (K1 w) (K2 w) (K3 w)
    (Elapsed w) (previous w) g (next w).

(** Modelled from the spec: construction, with
    [k1 = (d dt - 2) / (d dt + 2)],
    [k2 = (2 dx^2 - 4 c^2 dt^2) / (c^2 dt^2 (d dt + 2))] scaled, and
    [k3 = 2 c^2 dt^2 / (dx^2 (d dt + 2))], and three flat grids.  The scale
    of [k2] is [2 c^2 dt^2 / dx^2], the numerator of [k3] over [dx^2]: it
    makes [k2] the coefficient [(4 - 8 e) / (d dt + 2)], [e = c^2 dt^2 /
    dx^2], of the discretized wave equation, the one with
    [k1 + k2 + 4 k3 = 1], so that a flat field stays flat. *)
Definition create (m n : nat) (dx dt c d : float) : t :=
  let two := F32.of_Z 2 in
  let four := F32.of_Z 4 in
  let ddt := F32.mul d dt in
  let dx2 := F32.mul dx dx in
  let c2dt2 := F32.mul (F32.mul c c) (F32.mul dt dt) in
  let den := F32.add ddt two in
  let scale := F32.div (F32.mul two c2dt2) dx2 in
  mk m n dx dt
    (F32.div (F32.sub ddt two) den)
    (F32.mul
       (F32.div (F32.sub (F32.mul two dx2) (F32.mul four c2dt2)) (F32.mul c2dt2 den))
       scale)
    (F32.div (F32.mul two c2dt2) (F32.mul dx2 den))
    F32.zero (flat m n) (flat m n) (flat m n).

(** Modelled from the spec: [disturb(row, col, magnitude)] adds
    [magnitude] to the cell and half of it, the smaller fraction chosen
    here, to each of the four direct neighbours; it does nothing unless the
    cell is at least one cell away from every border. *)
Definition disturb (row col : nat) (magnitude : float) (w : t) : t :=
  if bool_decide (1 <= row /\ row + 1 < RowCount w /\
                  1 <= col /\ col + 1 < ColumnCount w)%nat
  then
    let half := F32.mul f0_5 magnitude in
    set_current
      (add_cell row (col - 1) half
         (add_cell row (col + 1) half
            (add_cell (row - 1) col half
               (add_cell (row + 1) col half
                  (add_cell row col magnitude (current w)))))) w
  else w.

(** Modelled from the spec: the finite-difference value of [next[i][j]]
    at an interior cell. *)
Definition interior (w : t) (i j : nat) : float :=
  let c := current w in
  F32.add
    (F32.add (F32.mul (K1 w) (cell (previous w) i j)) (F32.mul (K2 w) (cell c i j)))
    (F32.mul (K3 w)
       (F32.add (F32.add (F32.add (cell c (i + 1) j) (cell c (i - 1) j))
                   (cell c i (j + 1)))
          (cell c i (j - 1)))).

Definition clamp (lo hi x : nat) : nat := Nat.max lo (Nat.min hi x).

(** Modelled from the spec: one step.  An interior cell of [next] gets the
    finite-difference value, a border cell the value of its nearest
    interior cell; then the grids rotate, [previous] taking [current],
    [current] taking [next], and the buffer of [previous] becoming the
    scratch grid. *)
Definition step (w : t) : t :=
  let m := RowCount w in
  let n := ColumnCount w in
  let nxt :=
    (fun i => (fun j => interior w (clamp 1 (m - 2) i) (clamp 1 (n - 2) j)) <$> seq 0 n)
      <$> seq 0 m in
  mk m n (SpatialStep w) (TimeStep w) (K1 w) (K2 w) (K3 w) (Elapsed w)
    (current w) nxt (previous w).

(** Modelled from the spec: while the accumulated time is at least the
    time step, one step is done and the time step is taken off.  The loop
    of the spec has no bound; here it runs on [fuel], and [None] is a loop
    that has not ended within it. *)
Fixpoint advance (fuel : nat) (w : t) : option t :=
  match fuel with
  | O => None
  | S fuel' =>
      if F32.geb (Elapsed w) (TimeStep w)
      then advance fuel' (set_Elapsed (F32.sub (Elapsed w) (TimeStep w)) (step w))
      else Some w
  end.

(** Modelled from the spec: [update(elapsed)]. *)
Definition update (fuel : nat) (elapsed : float) (w : t) : option t :=
  advance fuel (set_Elapsed (F32.add (Elapsed w) elapsed) w).

Definition grid_finite (g : grid) : bool := forallb (forallb F32.is_finite) g.

(** Every value of the three grids is finite. *)
Definition all_finite (w : t) : bool :=
  grid_finite (previous w) && grid_finite (current w) && grid_finite (next w).

(** The field of the end-to-end scenario: [m = n = 8], [dx = 1.0],
    [dt = 0.03], [c = 4.0], [damping = 0.2]. *)
Definition scenario : t :=
  create 8 8 f1_0 (F32.lit 3 100) (F32.of_Z 4) (F32.lit 2 10).

(** Every value is finite now and after each of the next [n] steps. *)
Fixpoint finite_for (n : nat) (w : t) : bool :=
  all_finite w &&
  match n with
  | O => true
  | S n' => finite_for n' (step w)
  end.

End WaveField.

(** ** Values of binary32

    The value of a finite float as an integer multiple of [2 ^ b], for a
    base exponent [b] below every exponent at hand, and what rounding to
    nearest gives on such values. *)

Abbreviation fexp32 := (fexp F32.prec F32.emax).

(** The float a rounded mantissa [m1] at exponent [e1] stands for. *)
Definition pack (s : bool) (m1 e1 : Z) : spec_float :=
  if m1 =? 0 then S754_zero s
  else if m1 =? 2 ^ 24 then
    if e1 + 1 <=? 104 then S754_finite s (2 ^ 23) (e1 + 1) else S754_infinity s
  else if e1 <=? 104 then S754_finite s (Z.to_pos m1) e1 else S754_infinity s.

(** [m1] at exponent [e1] is [m] at exponent [e] rounded to nearest in the
    format: [e1] is the exponent the format gives a number of this size,
    and [m1] the quotient of [m] by [2 ^ (e1 - e)] or its successor,
    whichever is nearer. *)
Record rounds (m e e1 m1 : Z) : Prop := mk_rounds {
  rd_exp : e1 = fexp32 (Zdigits2 m + e);
  rd_shift : e <= e1;
  rd_near : (m1 = m / 2 ^ (e1 - e) /\ 2 * (m mod 2 ^ (e1 - e)) <= 2 ^ (e1 - e)) \/
            (m1 = m / 2 ^ (e1 - e) + 1 /\ 2 ^ (e1 - e) <= 2 * (m mod 2 ^ (e1 - e)));
  rd_exact : m mod 2 ^ (e1 - e) = 0 -> m1 = m / 2 ^ (e1 - e);
  rd_quot : 0 <= m / 2 ^ (e1 - e) < 2 ^ 24;
  rd_normal : -149 < e1 -> 2 ^ 23 <= m / 2 ^ (e1 - e)
}.

Definition scaled (b m e : Z) : Z := m * 2 ^ (e - b).

Definition fval (b : Z) (x : spec_float) : Z :=
  match x with
  | S754_finite s m e => scaled b (if s then Z.neg m else Z.pos m) e
  | _ => 0
  end.

(** [z] is the float nearest to the magnitude [v], a multiple of [2 ^ b],
    with sign [s]. *)
Definition is_round (b : Z) (s : bool) (v : Z) (z : spec_float) : Prop :=
  exists m e e1 m1,
    rounds m e e1 m1 /\ 0 < m /\ b <= e /\ scaled b m e = v /\ z = pack s m1 e1.

Definition nonneg (x : spec_float) : bool :=
  match x with
  | S754_zero _ | S754_finite false _ _ => true
  | _ => false
  end.

(** [0 <= x && x < 1] on floats. *)
Definition in_unit (x : float) : bool := F32.leb F32.zero x && F32.ltb x f1_0.

(** ** Summaries of a frame *)

(** The water material as [UpdateWater] leaves it. *)
Definition scrolled (gt : GameTimer) (waterMat : Material) : Material :=
  mat_set_NumFramesDirty gNumFrameResources
    (mat_set_MatTransform (scroll_water (gt_DeltaTime gt) (MatTransform waterMat))
       waterMat).

(** The lights of the pass block, entry by entry. *)
Definition light_of_frame (k : nat) (l : Light) : Light :=
  let d := F32.lit 57735 100000 in
  let nd := F32.lit (-57735) 100000 in
  let p := F32.of_Z 7 in
  let n := F32.of_Z (-7) in
  match k with
  | 0%nat => light_set_Strength (f3 (F32.lit 5 10) (F32.lit 5 10) (F32.lit 5 10))
               (light_set_Direction (f3 d nd d) l)
  | 1%nat => light_set_Strength (f3 (F32.lit 3 10) (F32.lit 3 10) (F32.lit 3 10))
               (light_set_Direction (f3 nd nd d) l)
  | 2%nat => light_set_Strength (f3 (F32.lit 15 100) (F32.lit 15 100) (F32.lit 15 100))
               (light_set_Direction
                  (f3 F32.zero (F32.lit (-707) 1000) (F32.lit (-707) 1000)) l)
  | 3%nat => tower_light p p l
  | 4%nat => tower_light p n l
  | 5%nat => tower_light n p l
  | 6%nat => tower_light n n l
  | _ => l
  end.


(** ** Start-up geometry *)

Definition INT_MIN : Z := - 2 ^ 31.
Definition INT_MAX : Z := 2 ^ 31 - 1.

(** The value of an [int] expression: signed overflow is undefined. *)
Definition int_chk (z : Z) : option Z :=
  if bool_decide (INT_MIN <= z <= INT_MAX) then Some z else None.

(** [v[k] = x] on a [std::vector<std::uint16_t>]: the value is converted to
    16 bits; outside the vector the access is undefined. *)
Definition store16 (v : list Z) (k x : Z) : option (list Z) :=
  if bool_decide (0 <= k < Z.of_nat (length v))
  then Some (<[Z.to_nat k := x mod 2 ^ 16]> v) else None.

(** The body of a loop run for each value of its counter, in order. *)
Fixpoint for_each {S} (body : Z -> S -> option S) (counter : list Z) (s : S) : option S :=
  match counter with
  | [] => Some s
  | i :: rest => s' ← body i s; for_each body rest s'
  end.

(** [for (int i = lo; i < hi; ++i) body]. *)
Definition for_range {S} (lo hi : Z) (body : Z -> S -> option S) (s : S) : option S :=
  for_each body (seqZ lo (hi - lo)) s.

(** [i * n + j] and [(i + 1) * n + j], with [+ 1] where the source adds it. *)
Definition quad_near (n i j : Z) : option Z := r ← int_chk (i * n); int_chk (r + j).
Definition quad_far (n i j : Z) : option Z :=
  i1 ← int_chk (i + 1); r ← int_chk (i1 * n); int_chk (r + j).
Definition plus_one (x : option Z) : option Z := a ← x; int_chk (a + 1).

(** [indices[k + off] = x]. *)
Definition set_index (k off : Z) (x : option Z) (v : list Z) : option (list Z) :=
  a ← x; p ← int_chk (k + off); store16 v p a.

(** Lines 991-999: the two triangles of the quad at row [i], column [j]. *)
Definition water_quad (n i j : Z) (st : Z * list Z) : option (Z * list Z) :=
  let k := st.1 in
  v ← set_index k 0 (quad_near n i j) st.2;
  v ← set_index k 1 (plus_one (quad_near n i j)) v;
  v ← set_index k 2 (quad_far n i j) v;
  v ← set_index k 3 (quad_far n i j) v;
  v ← set_index k 4 (plus_one (quad_near n i j)) v;
  v ← set_index k 5 (plus_one (quad_far n i j)) v;
  k' ← int_chk (k + 6);
  Some (k', v).

(** Lines 981-1002 of [BuildWaterGeometry]: the index list of the wave
    grid, for [triangleCount = mWaves->TriangleCount()],
    [m = mWaves->RowCount()] and [n = mWaves->ColumnCount()].  The
    [assert] of line 982 is compiled out of a release build and is not
    part of the function here. *)
Definition water_indices (triangleCount m n : Z) : option (list Z) :=
  size ← int_chk (3 * triangleCount);
  if bool_decide (0 <= size) then
    m1 ← int_chk (m - 1);
    n1 ← int_chk (n - 1);
    r ← for_range 0 m1
          (fun i st => for_range 0 n1 (fun j st => water_quad n i j st) st)
          (0, replicate (Z.to_nat size) 0);
    Some r.2
  else None.

(** The vertex at corner [t] of the two triangles of quad [(i, j)]. *)
Definition quad_vertex (n i j : Z) (t : Z) : Z :=
  if t =? 0 then i * n + j
  else if t =? 1 then i * n + j + 1
  else if t =? 2 then (i + 1) * n + j
  else if t =? 3 then (i + 1) * n + j
  else if t =? 4 then i * n + j + 1
  else (i + 1) * n + j + 1.

(** Quad [(i', j')] is written before quad [(i, j)]. *)
Definition quad_before (n1 i j i' j' : Z) : Prop :=
  0 <= i' /\ 0 <= j' < n1 /\ (i' < i \/ (i' = i /\ j' < j)).

(** The state of the loops on entry to quad [(i, j)]. *)
Definition quads_done (L n i j : Z) (st : Z * list Z) : Prop :=
  st.1 = 6 * (i * (n - 1) + j) /\
  Z.of_nat (length st.2) = L /\
  forall i' j' t, quad_before (n - 1) i j i' j' -> 0 <= t < 6 ->
    st.2 !! Z.to_nat (6 * (i' * (n - 1) + j') + t) = Some (quad_vertex n i' j' t).

(** ** The castle geometry *)

(** A [UINT]: arithmetic modulo [2^32]. *)
Definition uint (z : Z) : Z := z mod 2 ^ 32.

(** [(UINT)v.size()]. *)
Definition usize {A} (l : list A) : Z := uint (Z.of_nat (length l)).

(** [GeometryGenerator::Vertex] and [GeometryGenerator::MeshData]
    (GeometryGenerator.h is not among the sources): the members
    [BuildCastleGeometry] reads. *)
Record GVertex := mkGVertex {
  gv_Position : XMFLOAT3;
  gv_Normal : XMFLOAT3;
  gv_TangentU : XMFLOAT3;
  gv_TexC : XMFLOAT2
}.

Record MeshData := mkMeshData {
  Vertices : list GVertex;
  Indices32 : list Z
}.

(** [MeshData::GetIndices16]: the indices, each converted to 16 bits. *)
Definition GetIndices16 (m : MeshData) : list Z := (fun x => x mod 2 ^ 16) <$> Indices32 m.

(** [SubmeshGeometry] (d3dUtil.h): two [UINT]s and an [INT]. *)
Record SubmeshGeometry := mkSubmeshGeometry {
  sm_IndexCount : Z;
  sm_StartIndexLocation : Z;
  sm_BaseVertexLocation : Z
}.

(** The meshes that lines 741-753 ask of the geometry generator. *)
Record CastleMeshes := mkCastleMeshes {
  box : MeshData;
  grid : MeshData;
  sphere : MeshData;
  cylinder : MeshData;
  cone : MeshData;
  pyramid1 : MeshData;
  pyramid2 : MeshData;
  squarePyramid : MeshData;
  triangularPrism : MeshData;
  donut : MeshData
}.

(** What [BuildCastleGeometry] leaves in the mesh geometry: the vertex and
    index lists uploaded, and the submesh table. *)
Record CastleGeometry := mkCastleGeometry {
  cg_vertices : list Vertex;
  cg_indices : list Z;
  cg_VertexBufferByteSize : Z;
  cg_IndexBufferByteSize : Z;
  cg_DrawArgs : list (string * SubmeshGeometry)
}.

(** [sizeof(Vertex)]: position and normal of three floats and texture
    coordinates of two, as the input layout of lines 720-725 lays them
    out. *)
Definition sizeof_Vertex : Z := 32.

(** [vertices[k] = ...] on a [std::vector<Vertex>]. *)
Definition store_vertex (v : list Vertex) (k : Z) (x : Vertex) : option (list Vertex) :=
  if bool_decide (0 <= k < Z.of_nat (length v))
  then Some (<[Z.to_nat k := x]> v) else None.

(** One of the copy loops of lines 849-917: vertex [i] of the mesh goes to
    [vertices[k]], and [k] is a [UINT] that moves on with [i]. *)
Definition copy_mesh (mesh : MeshData) (st : Z * list Vertex) : option (Z * list Vertex) :=
  for_range 0 (Z.of_nat (length (Vertices mesh)))
    (fun i st =>
       gv ← Vertices mesh !! Z.to_nat i;
       v ← store_vertex st.2 st.1 (mkVertex (gv_Position gv) (gv_Normal gv) (gv_TexC gv));
       Some (uint (st.1 + 1), v))
    st.

(** [Vertex()]: what the vector of line 845 is filled with. *)
Definition Vertex_default : Vertex :=
  let z := mkF3 F32.zero F32.zero F32.zero in mkVertex z z (mkF2 F32.zero F32.zero).

(** Lines 739-977. *)
Definition BuildCastleGeometry (ms : CastleMeshes) : option CastleGeometry :=
  let boxVertexOffset := 0 in
  let gridVertexOffset := usize (Vertices (box ms)) in
  let sphereVertexOffset := uint (gridVertexOffset + usize (Vertices (grid ms))) in
  let cylinderVertexOffset := uint (sphereVertexOffset + usize (Vertices (sphere ms))) in
  let coneVertexOffset := uint (cylinderVertexOffset + usize (Vertices (cylinder ms))) in
  let pyramid1VertexOffset := uint (coneVertexOffset + usize (Vertices (cone ms))) in
  let pyramid2VertexOffset := uint (pyramid1VertexOffset + usize (Vertices (pyramid1 ms))) in
  let squarePyramidVertexOffset :=
    uint (pyramid2VertexOffset + usize (Vertices (pyramid2 ms))) in
  let triangularPrismVertexOffset :=
    uint (squarePyramidVertexOffset + usize (Vertices (squarePyramid ms))) in
  let donutVertexOffset :=
    uint (triangularPrismVertexOffset + usize (Vertices (triangularPrism ms))) in
  let boxIndexOffset := 0 in
  let gridIndexOffset := usize (Indices32 (box ms)) in
  let sphereIndexOffset := uint (gridIndexOffset + usize (Indices32 (grid ms))) in
  let cylinderIndexOffset := uint (sphereIndexOffset + usize (Indices32 (sphere ms))) in
  let coneIndexOffset := uint (cylinderIndexOffset + usize (Indices32 (cylinder ms))) in
  let pyramid1IndexOffset := uint (coneIndexOffset + usize (Indices32 (cone ms))) in
  let pyramid2IndexOffset := uint (pyramid1IndexOffset + usize (Indices32 (pyramid1 ms))) in
  let squarePyramidIndexOffset :=
    uint (pyramid2IndexOffset + usize (Indices32 (pyramid2 ms))) in
  let triangularPrismIndexOffset :=
    uint (squarePyramidIndexOffset + usize (Indices32 (squarePyramid ms))) in
  let donutIndexOffset :=
    uint (triangularPrismIndexOffset + usize (Indices32 (triangularPrism ms))) in
  let submesh (mesh : MeshData) (indexOffset vertexOffset : Z) :=
    mkSubmeshGeometry (usize (Indices32 mesh)) indexOffset (int_of_UINT vertexOffset) in
  let boxSubmesh := submesh (box ms) boxIndexOffset boxVertexOffset in
  let gridSubmesh := submesh (grid ms) gridIndexOffset gridVertexOffset in
  let sphereSubmesh := submesh (sphere ms) sphereIndexOffset sphereVertexOffset in
  let cylinderSubmesh := submesh (cylinder ms) cylinderIndexOffset cylinderVertexOffset in
  let coneSubmesh := submesh (cone ms) coneIndexOffset coneVertexOffset in
  let pyramid1Submesh := submesh (pyramid1 ms) pyramid1IndexOffset pyramid1VertexOffset in
  let pyramid2Submesh := submesh (pyramid2 ms) pyramid2IndexOffset pyramid2VertexOffset in
  let squarePyramidSubmesh :=
    submesh (squarePyramid ms) squarePyramidIndexOffset squarePyramidVertexOffset in
  let triangularPrismSubmesh :=
    submesh (triangularPrism ms) triangularPrismIndexOffset triangularPrismVertexOffset in
  let donutSubmesh := submesh (donut ms) donutIndexOffset donutVertexOffset in
  let totalVertexCount :=
    (length (Vertices (box ms)) + length (Vertices (grid ms))
     + length (Vertices (sphere ms)) + length (Vertices (cylinder ms))
     + length (Vertices (cone ms)) + length (Vertices (pyramid1 ms))
     + length (Vertices (pyramid2 ms)) + length (Vertices (squarePyramid ms))
     + length (Vertices (triangularPrism ms)) + length (Vertices (donut ms)))%nat in
  st ← copy_mesh (box ms) (0, replicate totalVertexCount Vertex_default);
  st ← copy_mesh (grid ms) st;
  st ← copy_mesh (sphere ms) st;
  st ← copy_mesh (cylinder ms) st;
  st ← copy_mesh (cone ms) st;
  st ← copy_mesh (pyramid1 ms) st;
  st ← copy_mesh (pyramid2 ms) st;
  st ← copy_mesh (squarePyramid ms) st;
  st ← copy_mesh (triangularPrism ms) st;
  st ← copy_mesh (donut ms) st;
  let vertices := st.2 in
  let indices := [] in
  let indices := indices ++ GetIndices16 (box ms) in
  let indices := indices ++ GetIndices16 (grid ms) in
  let indices := indices ++ GetIndices16 (sphere ms) in
  let indices := indices ++ GetIndices16 (cylinder ms) in
  let indices := indices ++ GetIndices16 (cone ms) in
  let indices := indices ++ GetIndices16 (pyramid1 ms) in
  let indices := indices ++ GetIndices16 (pyramid2 ms) in
  let indices := indices ++ GetIndices16 (squarePyramid ms) in
  let indices := indices ++ GetIndices16 (triangularPrism ms) in
  let indices := indices ++ GetIndices16 (donut ms) in
  let vbByteSize := uint (usize vertices * sizeof_Vertex) in
  let ibByteSize := uint (usize indices * 2) in
  Some (mkCastleGeometry vertices indices vbByteSize ibByteSize
          [ ("box", boxSubmesh); ("grid", gridSubmesh); ("sphere", sphereSubmesh);
            ("cylinder", cylinderSubmesh); ("cone", coneSubmesh);
            ("pyramid1", pyramid1Submesh); ("pyramid2", pyramid2Submesh);
            ("squarePyramid", squarePyramidSubmesh);
            ("triangularPrism", triangularPrismSubmesh); ("donut", donutSubmesh) ]).

(** The meshes by the names of their submeshes, in the order of the
    source. *)
Definition castle_parts (ms : CastleMeshes) : list (string * MeshData) :=
  [ ("box", box ms); ("grid", grid ms); ("sphere", sphere ms);
    ("cylinder", cylinder ms); ("cone", cone ms); ("pyramid1", pyramid1 ms);
    ("pyramid2", pyramid2 ms); ("squarePyramid", squarePyramid ms);
    ("triangularPrism", triangularPrism ms); ("donut", donut ms) ].

(** The numbers of vertices and of indices of the ten meshes together. *)
Definition castle_vertex_count (ms : CastleMeshes) : Z :=
  foldr (fun e acc => Z.of_nat (length (Vertices e.2)) + acc) 0 (castle_parts ms).
Definition castle_index_count (ms : CastleMeshes) : Z :=
  foldr (fun e acc => Z.of_nat (length (Indices32 e.2)) + acc) 0 (castle_parts ms).

(** ** The water and tree geometries *)

(** What [BuildWaterGeometry] leaves in the mesh geometry besides the null
    vertex buffer: the index list and the submesh table. *)
Record WaterGeometry := mkWaterGeometry {
  wg_indices : list Z;
  wg_VertexBufferByteSize : Z;
  wg_IndexBufferByteSize : Z;
  wg_DrawArgs : list (string * SubmeshGeometry)
}.

(** Lines 979-1034; [vertexCount] is [mWaves->VertexCount()]. *)
Definition BuildWaterGeometry (triangleCount vertexCount m n : Z) : option WaterGeometry :=
  indices ← water_indices triangleCount m n;
  let vbByteSize := uint (vertexCount * sizeof_Vertex) in
  let ibByteSize := uint (usize indices * 2) in
  Some (mkWaterGeometry indices vbByteSize ibByteSize
          [("grid", mkSubmeshGeometry (usize indices) 0 0)]).

Record TreeSpriteVertex := mkTreeSpriteVertex { ts_Pos : XMFLOAT3; ts_Size : XMFLOAT2 }.

Record TreeSpritesGeometry := mkTreeSpritesGeometry {
  tg_vertices : list TreeSpriteVertex;
  tg_indices : list Z;
  tg_DrawArgs : list (string * SubmeshGeometry)
}.

Section Scene.

Context `{DX : DirectXMath}.

(** [MathHelper::RandF(a, b)] draws from the C library's generator;
    [randF k] is what the [k]-th call of [BuildTreeSpritesGeometry]
    returns. *)
Variable randF : nat -> float.

(** [XMMatrixRotationX] and [XMMatrixRotationY] of DirectXMath. *)
Variable XMMatrixRotationX : float -> XMFLOAT4X4.
Variable XMMatrixRotationY : float -> XMFLOAT4X4.

(** Lines 1036-1099. *)
Definition BuildTreeSpritesGeometry : TreeSpritesGeometry :=
  let tree (i : nat) :=
    let theta := randF (2 * i) in
    let radius := randF (2 * i + 1) in
    let x := F32.mul radius (cosf theta) in
    let z := F32.mul radius (sinf theta) in
    let y := F32.lit (-1) 10 in
    let y := F32.add y (F32.of_Z 4) in
    mkTreeSpriteVertex (mkF3 x y z) (mkF2 (F32.of_Z 10) (F32.of_Z 10)) in
  mkTreeSpritesGeometry (tree <$> seq 0 16) (seqZ 0 16)
    [("points", mkSubmeshGeometry 16 0 0)].

(** ** The render items *)

(** [XMMatrixTranslation x y z]: the identity with the offsets in the last
    row. *)
Definition XMMatrixTranslation (x y z : float) : XMFLOAT4X4 :=
  let o := f1_0 in let n := F32.zero in
  mkM (mkF4 o n n n) (mkF4 n o n n) (mkF4 n n o n) (mkF4 x y z o).

(** [XM_PIDIV2], the binary32 number nearest to [pi / 2]. *)
Definition XM_PIDIV2 : float := F32.lit 13176795 8388608.

Inductive RenderLayer := Opaque | Transparent | AlphaTested | AlphaTestedTreeSprites.

#[global] Instance RenderLayer_eq_dec : EqDecision RenderLayer.
Proof. solve_decision. Defined.

Inductive PrimitiveTopology := TRIANGLELIST | POINTLIST.

(** The state [BuildRenderItems] works on: [objIndex], [mAllRitems],
    [mWavesRitem], and for every item, in the order of [mAllRitems], its
    [PrimitiveType] and the layer of [mRitemLayer] it was pushed to. *)
Record Ritems := mkRitems {
  bs_objIndex : Z;
  bs_AllRitems : list RenderItem;
  bs_PrimitiveType : list PrimitiveTopology;
  bs_Layer : list RenderLayer;
  bs_WavesRitem : option nat
}.

(** [mRitemLayer[(int)layer]]: the items pushed to the layer, in order. *)
Definition RitemLayer (b : Ritems) (layer : RenderLayer) : list nat :=
  omap (fun e : nat * RenderLayer => if decide (e.2 = layer) then Some e.1 else None)
       (imap (fun k l => (k, l)) (bs_Layer b)).

(** [mMaterials[key].get()]: the entry, or a null pointer where the key is
    new (the null entry that [operator[]] then adds to the map is not
    kept here). *)
Definition material_ptr (mats : list (string * Material)) (key : string) : option string :=
  if decide (is_Some (alist_lookup key mats)) then Some key else None.

Section Items.

Variable mats : list (string * Material).
(** The submesh tables of [mGeometries], by geometry. *)
Variable geos : list (string * list (string * SubmeshGeometry)).

(** One render item, from [std::make_unique<RenderItem>()] to the
    [push_back] into [mAllRitems]; [tex] is [None] where the source leaves
    [TexTransform] alone.  [Geo->DrawArgs] dereferences the pointer
    [mGeometries[geo].get()], and [DrawArgs[args]] is a submesh of zeros
    where the key is new. *)
Definition add_ritem (layer : RenderLayer) (topology : PrimitiveTopology)
    (world : XMFLOAT4X4) (tex : option XMFLOAT4X4) (mat geo args : string)
    (waves : bool) (b : Ritems) : option Ritems :=
  drawArgs ← alist_lookup geo geos;
  let sub := default (mkSubmeshGeometry 0 0 0) (alist_lookup args drawArgs) in
  let item :=
    mkRenderItem world (default (TexTransform RenderItem_default) tex)
      (ri_NumFramesDirty RenderItem_default) (bs_objIndex b)
      (material_ptr mats mat) (Some geo)
      (sm_IndexCount sub) (sm_StartIndexLocation sub) (sm_BaseVertexLocation sub) in
  Some (mkRitems (uint (bs_objIndex b + 1)) (bs_AllRitems b ++ [item])
          (bs_PrimitiveType b ++ [topology]) (bs_Layer b ++ [layer])
          (if waves then Some (length (bs_AllRitems b)) else bs_WavesRitem b)).

#[local] Abbreviation opaque := (add_ritem Opaque TRIANGLELIST).
#[local] Abbreviation at_ := (fun (a : list float) (i : Z) => nth (Z.to_nat i) a F32.zero).
#[local] Abbreviation mm := XMMatrixMultiply.

(** Lines 1196-1441, from an application with no render items yet. *)
Definition BuildRenderItems : option Ritems :=
  let f := F32.lit in
  let n := F32.of_Z in
  let S := XMMatrixScaling in
  let T := XMMatrixTranslation in
  let b := mkRitems 0 [] [] [] None in
  b ← opaque (S (n 2) (n 1) (n 2)) None "grass" "Castle" "grid" false b;
  let dx := [n 7; n 7; n (-7); n (-7)] in
  let dz := [n 7; n (-7); n (-7); n 7] in
  b ← for_range 0 4 (fun i b =>
         b ← opaque (mm (S (n 2) (n 2) (n 2)) (T (at_ dx i) (f 5 10) (at_ dz i)))
                    None "brick1" "Castle" "cylinder" false b;
         b ← opaque (mm (S (n 2) (n 2) (n 2)) (T (at_ dx i) (f 37 10) (at_ dz i)))
                    None "brick3" "Castle" "pyramid2" false b;
         opaque (T (at_ dx i) (f 45 10) (at_ dz i))
                None "ice" "Castle" "sphere" false b) b;
  let wallTex := Some (S (f 25 10) (f 5 10) (n 1)) in
  b ← opaque (mm (S (n 13) (n 3) (f 15 10)) (T (n 0) (n 1) (n 7)))
             wallTex "brick2" "Castle" "box" false b;
  b ← opaque (mm (S (n 13) (n 3) (f 15 10)) (T (n 0) (n 1) (n (-7))))
             wallTex "brick2" "Castle" "box" false b;
  b ← opaque (mm (mm (S (n 13) (n 3) (f 15 10)) (XMMatrixRotationY XM_PIDIV2))
                 (T (n 7) (n 1) (n 0)))
             wallTex "brick2" "Castle" "box" false b;
  b ← opaque (mm (mm (S (n 13) (n 3) (f 15 10)) (XMMatrixRotationY XM_PIDIV2))
                 (T (n (-7)) (n 1) (n 0)))
             wallTex "brick2" "Castle" "box" false b;
  let ofset := [f (-45) 10; f (-25) 10; f 25 10; f 45 10] in
  b ← for_range 0 4 (fun i b =>
         b ← opaque (T (n 7) (n 3) (at_ ofset i))
                    None "brick1" "Castle" "squarePyramid" false b;
         b ← opaque (T (n (-7)) (n 3) (at_ ofset i))
                    None "brick2" "Castle" "squarePyramid" false b;
         b ← opaque (T (at_ ofset i) (n 3) (n 7))
                    None "brick2" "Castle" "cone" false b;
         opaque (T (at_ ofset i) (n 3) (n (-7)))
                None "brick1" "Castle" "pyramid1" false b) b;
  b ← opaque (mm (S (f 75 10) (f 25 10) (f 75 10)) (T (n 0) (n 1) (n 0)))
             None "checkboard" "Castle" "triangularPrism" false b;
  b ← opaque (mm (mm (S (f 7 10) (f 7 10) (f 7 10))
                     (XMMatrixRotationX (F32.mul XM_PIDIV2 (f 13 10))))
                 (T (n 0) (n 3) (n 0)))
             None "ice" "Castle" "donut" false b;
  b ← opaque (mm (S (n 13) (f 7 10) (n 13)) (T (n 0) (f (-2) 10) (n 0)))
             None "brick2" "Castle" "box" false b;
  b ← add_ritem Transparent TRIANGLELIST (T (n 0) (f 1 10) (n 0))
        (Some (S (n 5) (n 5) (n 1))) "water" "waterGeo" "grid" true b;
  b ← add_ritem AlphaTestedTreeSprites POINTLIST Identity4x4
        None "treeSprites" "treeSpritesGeo" "points" false b;
  opaque (mm (S (n 5) (n 3) (n 2)) (T (n 0) (f 7 10) (n (-7))))
         None "wood" "Castle" "box" false b.

End Items.

End Scene.

(** ** Initialisation *)

(** [XM_PI] and [XM_PIDIV4], the binary32 numbers nearest to [pi] and
    [pi / 4]. *)
Definition XM_PI : float := F32.lit 13176795 4194304.
Definition XM_PIDIV4 : float := F32.lit 13176795 16777216.

(** What [Initialize] gets from outside the file: the meshes of the
    geometry generator, the wave grid and its sizes, the default buffers
    created for the castle and the trees, the random numbers, and what the
    base class and the headers fix (the submission counter after
    [FlushCommandQueue], the default pass block, the projection that
    [OnResize] stored, the size of the window). *)
Record Externals (Waves : Type) := mkExternals {
  ex_meshes : CastleMeshes;
  ex_waves : Waves;
  ex_TriangleCount : Z;
  ex_RowCount : Z;
  ex_ColumnCount : Z;
  ex_castleVB : ID3D12Resource;
  ex_treeVB : ID3D12Resource;
  ex_randF : nat -> float;
  ex_fence : Z;
  ex_PassConstants : PassConstants;
  ex_Proj : XMFLOAT4X4;
  ex_ClientWidth : Z;
  ex_ClientHeight : Z
}.
Arguments ex_meshes {Waves} _.
Arguments ex_waves {Waves} _.
Arguments ex_TriangleCount {Waves} _.
Arguments ex_RowCount {Waves} _.
Arguments ex_ColumnCount {Waves} _.
Arguments ex_castleVB {Waves} _.
Arguments ex_treeVB {Waves} _.
Arguments ex_randF {Waves} _.
Arguments ex_fence {Waves} _.
Arguments ex_PassConstants {Waves} _.
Arguments ex_Proj {Waves} _.
Arguments ex_ClientWidth {Waves} _.
Arguments ex_ClientHeight {Waves} _.

Section Start.

Context `{DX : DirectXMath} {Waves : Type} `{WA : WavesAPI Waves}.
Variable XMMatrixRotationX : float -> XMFLOAT4X4.
Variable XMMatrixRotationY : float -> XMFLOAT4X4.

(** Lines 210-247, on the members as their initialisers (lines 139-172)
    leave them: the materials, the three geometries, the render items and
    the frame resources.  The textures, the root signature, the
    descriptor heap, the shaders and the pipeline states are objects of
    the graphics API that the frame code modelled here never reads. *)
Definition Initialize (ex : Externals Waves) : option (CastleApp Waves) :=
  let mMaterials := BuildMaterials in
  castle ← BuildCastleGeometry (ex_meshes ex);
  water ← BuildWaterGeometry (ex_TriangleCount ex) (Waves_VertexCount (ex_waves ex))
             (ex_RowCount ex) (ex_ColumnCount ex);
  let trees := BuildTreeSpritesGeometry (ex_randF ex) in
  let mGeometries : gmap string MeshGeometry :=
    <["treeSpritesGeo" := mkMeshGeometry (Some (ex_treeVB ex))]>
      (<["waterGeo" := mkMeshGeometry None]>
         (<["Castle" := mkMeshGeometry (Some (ex_castleVB ex))]> ∅)) in
  let DrawArgs :=
    [ ("Castle", cg_DrawArgs castle); ("waterGeo", wg_DrawArgs water);
      ("treeSpritesGeo", tg_DrawArgs trees) ] in
  items ← BuildRenderItems XMMatrixRotationX XMMatrixRotationY mMaterials DrawArgs;
  Some (BuildFrameResources
          (mkCastleApp [] None 0 (ex_fence ex) mGeometries mMaterials
             (bs_AllRitems items) (ex_waves ex) (bs_WavesRitem items)
             (ex_PassConstants ex) false (mkF3 F32.zero F32.zero F32.zero)
             Identity4x4 (ex_Proj ex)
             (F32.mul (F32.lit 15 10) XM_PI) (F32.sub XM_PIDIV4 (F32.lit 1 10))
             (F32.of_Z 30) (ex_ClientWidth ex) (ex_ClientHeight ex))).

End Start.

(** ** Lower bounds on binary32 values *)

(** [z] is at least [x * 2^b]: plus infinity, or finite with a value that
    large. *)
Definition at_least (b x : Z) (z : float) : Prop :=
  F32.valid z = true /\
  (z = S754_infinity false \/ (F32.is_finite z = true /\ x <= fval b z)).

(** ** Small inputs *)

(** A mesh of one triangle in the plane [z = 0]. *)
Definition one_triangle : MeshData :=
  let gv (x y : Z) :=
    mkGVertex (mkF3 (F32.of_Z x) (F32.of_Z y) F32.zero) (mkF3 F32.zero F32.zero f1_0)
      (mkF3 f1_0 F32.zero F32.zero) (mkF2 (F32.of_Z x) (F32.of_Z y)) in
  mkMeshData [gv 0 0; gv 1 0; gv 0 1] [0; 1; 2].

(** Ten times that mesh, in place of the meshes of the geometry
    generator. *)
Definition small_meshes : CastleMeshes :=
  let t := one_triangle in mkCastleMeshes t t t t t t t t t t.

(** Start-up with the small meshes and the 2 x 2 wave grid at rest. *)
Definition small_externals : Externals StillWaves :=
  mkExternals StillWaves small_meshes still2x2 2 2 2 100%nat 101%nat (fun _ => F32.zero) 0
    zero_PassConstants Identity4x4 800 600.

(** The small scene in a frame, with every render item and every material
    clean. *)
Definition clean_frame : CastleApp StillWaves :=
  set_mMaterials
    ((fun e : string * Material => (e.1, mat_set_NumFramesDirty 0 e.2))
       <$> mMaterials (small_frame 5))
    (set_mAllRitems (ri_set_NumFramesDirty 0 <$> mAllRitems (small_frame 5))
       (small_frame 5)).

(** * Properties *)

(** ** Rounding to nearest in binary32 *)

Lemma iter_pos_nat {A} (f : A -> A) p x : SpecFloat.iter_pos f p x = Nat.iter (Pos.to_nat p) f x.
Proof.
  revert x. induction p as [p IH|p IH|]; intros x; cbn [SpecFloat.iter_pos].
  - rewrite !IH, Pos2Nat.inj_xI.
    replace (S (2 * Pos.to_nat p)) with (Pos.to_nat p + S (Pos.to_nat p))%nat by lia.
    by rewrite Nat.iter_add, Nat.iter_succ_r.
  - rewrite !IH, Pos2Nat.inj_xO.
    replace (2 * Pos.to_nat p)%nat with (Pos.to_nat p + Pos.to_nat p)%nat by lia.
    by rewrite Nat.iter_add.
  - done.
Qed.

Lemma digits2_pos_bounds p :
  2 ^ (Z.pos (digits2_pos p) - 1) <= Z.pos p < 2 ^ Z.pos (digits2_pos p).
Proof.
  induction p as [p IH|p IH|]; simpl.
  - rewrite Pos2Z.inj_succ. replace (Z.succ (Z.pos (digits2_pos p)) - 1)
      with (Z.succ (Z.pos (digits2_pos p) - 1)) by lia.
    rewrite !Z.pow_succ_r by lia. lia.
  - rewrite Pos2Z.inj_succ. replace (Z.succ (Z.pos (digits2_pos p)) - 1)
      with (Z.succ (Z.pos (digits2_pos p) - 1)) by lia.
    rewrite !Z.pow_succ_r by lia. lia.
  - done.
Qed.

Lemma shr_1_nonneg m r s :
  0 <= m -> shr_1 (Build_shr_record m r s) = Build_shr_record (m / 2) (Z.odd m) (r || s).
Proof.
  intros Hm. rewrite <- Z.div2_div. destruct m as [|p|p]; [done| |lia].
  by destruct p.
Qed.

(** The shift record after [k + 1] steps, from an exact start: the quotient
    by [2 ^ (k + 1)], the last bit shifted out and whether a lower bit was
    set. *)
Lemma shr_iter m k :
  0 <= m ->
  Nat.iter (S k) shr_1 (Build_shr_record m false false)
  = Build_shr_record (m / 2 ^ (Z.of_nat k + 1)) (Z.testbit m (Z.of_nat k))
      (negb (m mod 2 ^ Z.of_nat k =? 0)).
Proof.
  intros Hm. induction k as [|k IH].
  - cbn [Nat.iter]. rewrite shr_1_nonneg by done. simpl Z.of_nat.
    rewrite Z.bit0_odd. change (2 ^ (0 + 1)) with 2. change (2 ^ 0) with 1.
    by rewrite Z.mod_1_r.
  - rewrite Nat.iter_succ, IH.
    assert (0 < 2 ^ Z.of_nat k) as Hpos by (apply Z.pow_pos_nonneg; lia).
    rewrite shr_1_nonneg by (apply Z.div_pos; [lia|apply Z.pow_pos_nonneg; lia]).
    rewrite (Nat2Z.inj_succ k).
    f_equal.
    + rewrite Z.div_div by lia. f_equal.
      replace (Z.succ (Z.of_nat k) + 1) with (Z.succ (Z.of_nat k + 1)) by lia.
      rewrite Z.pow_succ_r by lia. lia.
    + rewrite <- Z.bit0_odd, Z.div_pow2_bits by lia. f_equal.
    + rewrite Z.pow_succ_r by lia.
      assert (m mod (2 * 2 ^ Z.of_nat k)
              = m mod 2 ^ Z.of_nat k + 2 ^ Z.of_nat k * ((m / 2 ^ Z.of_nat k) mod 2)) as E.
      { rewrite (Z.mul_comm 2), Z.rem_mul_r by lia. done. }
      pose proof (Z.mod_pos_bound m (2 ^ Z.of_nat k) Hpos) as Hr.
      destruct (Z.testbit m (Z.of_nat k)) eqn:Hb; simpl.
      * rewrite Z.testbit_true in Hb by lia. rewrite Hb in E.
        symmetry. apply negb_true_iff, Z.eqb_neq. lia.
      * rewrite Z.testbit_false in Hb by lia. rewrite Hb in E.
        f_equal. f_equal. lia.
Qed.

(** A right shift by [n >= 0] from an exact start: the quotient, and the
    location of the remainder with respect to the half of [2 ^ n]. *)
Lemma shr_spec m e n :
  0 <= m -> 0 <= n ->
  exists mrs,
    shr (Build_shr_record m false false) e n = (mrs, e + n) /\
    shr_m mrs = m / 2 ^ n /\
    let r := m mod 2 ^ n in
    match loc_of_shr_record mrs with
    | loc_Exact => r = 0
    | loc_Inexact Lt => 0 < 2 * r < 2 ^ n
    | loc_Inexact Eq => 2 * r = 2 ^ n
    | loc_Inexact Gt => 2 ^ n < 2 * r
    end.
Proof.
  intros Hm Hn. destruct n as [|p|p]; [| |lia].
  - exists (Build_shr_record m false false). simpl.
    rewrite Z.add_0_r, Z.div_1_r, Z.mod_1_r. done.
  - unfold shr. rewrite iter_pos_nat.
    destruct (Pos.to_nat p) as [|k] eqn:Hk; [lia|].
    assert (Z.pos p = Z.of_nat k + 1) as Hp by lia.
    rewrite shr_iter by done. eexists. split; [reflexivity|]. rewrite Hp. split; [done|].
    assert (0 < 2 ^ Z.of_nat k) as Hpos by (apply Z.pow_pos_nonneg; lia).
    pose proof (Z.mod_pos_bound m (2 ^ Z.of_nat k) Hpos) as Hr.
    assert (m mod 2 ^ (Z.of_nat k + 1)
            = m mod 2 ^ Z.of_nat k + 2 ^ Z.of_nat k * ((m / 2 ^ Z.of_nat k) mod 2)) as E.
    { rewrite Z.pow_add_r, Z.rem_mul_r by lia. done. }
    assert (2 ^ (Z.of_nat k + 1) = 2 * 2 ^ Z.of_nat k) as E2.
    { rewrite Z.pow_add_r by lia. lia. }
    simpl. rewrite E, E2.
    destruct (Z.testbit m (Z.of_nat k)) eqn:Hb;
      [rewrite Z.testbit_true in Hb by lia|rewrite Z.testbit_false in Hb by lia];
      rewrite Hb; destruct (Z.eqb_spec (m mod 2 ^ Z.of_nat k) 0); simpl; lia.
Qed.

Lemma round_nearest_even_cases q l :
  (round_nearest_even q l = q /\ l <> loc_Inexact Gt) \/
  (round_nearest_even q l = q + 1 /\ l <> loc_Exact /\ l <> loc_Inexact Lt).
Proof.
  destruct l as [|[]]; simpl; [left|destruct (Z.even q); [left|right]|left|right]; naive_solver.
Qed.

Lemma fexp32_eq x : fexp32 x = Z.max (x - 24) (-149).
Proof. reflexivity. Qed.

Lemma pow2_pos n : 0 <= n -> 0 < 2 ^ n.
Proof. intros. by apply Z.pow_pos_nonneg. Qed.

Lemma pow2_lt a b : a < b -> 0 <= a -> 2 ^ a < 2 ^ b.
Proof. intros. apply Z.pow_lt_mono_r; lia. Qed.

Lemma pow2_le a b : a <= b -> 0 <= a -> 2 ^ a <= 2 ^ b.
Proof. intros. apply Z.pow_le_mono_r; lia. Qed.

Lemma digits_unique x d :
  0 < x -> 2 ^ (d - 1) <= x < 2 ^ d -> Zdigits2 x = d.
Proof.
  intros Hx Hd. destruct x as [|p|p]; [lia| |lia]. simpl.
  pose proof (digits2_pos_bounds p) as Hp.
  set (D := Z.pos (digits2_pos p)) in *.
  assert (1 <= D) by lia.
  assert (1 <= d).
  { destruct (Z.le_gt_cases 1 d); [done|]. rewrite (Z.pow_neg_r 2 (d - 1)) in Hd by lia.
    destruct (Z.le_gt_cases 0 d).
    - assert (d = 0) as -> by lia. simpl in Hd. lia.
    - rewrite Z.pow_neg_r in Hd by lia. lia. }
  destruct (Z.lt_trichotomy D d) as [Hlt|[->|Hgt]]; [|done|].
  - pose proof (pow2_le D (d - 1)). lia.
  - pose proof (pow2_le d (D - 1)). lia.
Qed.

(** The second, exact call of [shr_fexp] in [binary_round_aux]: it shifts
    only after a carry out of the 24 bits. *)
Lemma round_aux_finish s m1 e1 :
  0 <= m1 <= 2 ^ 24 -> -149 <= e1 -> (-149 < e1 -> 2 ^ 23 <= m1) ->
  (let '(mrs, e2) := shr_fexp F32.prec F32.emax m1 e1 loc_Exact in
   match shr_m mrs with
   | Z0 => S754_zero s
   | Zpos m => if e2 <=? F32.emax - F32.prec then S754_finite s m e2 else S754_infinity s
   | _ => S754_nan
   end) = pack s m1 e1.
Proof.
  intros Hm He Hn. unfold shr_fexp, pack. simpl shr_record_of_loc.
  destruct (Z.eqb_spec m1 0) as [->|H0].
  - simpl Zdigits2. rewrite Z.add_0_l, fexp32_eq.
    destruct (Z.max (e1 - 24) (-149) - e1) eqn:E; try lia; done.
  - destruct (Z.eqb_spec m1 (2 ^ 24)) as [->|H24].
    + change (Zdigits2 (2 ^ 24)) with 25. rewrite fexp32_eq.
      replace (Z.max (25 + e1 - 24) (-149) - e1) with 1 by lia.
      change (F32.emax - F32.prec) with 104. simpl. done.
    + assert (exists d, Zdigits2 m1 = d /\ 1 <= d <= 24 /\ (-149 < e1 -> d = 24))
        as (d & Hd & Hd24 & Hdn).
      { destruct m1 as [|p|p]; [lia| |lia]. simpl.
        pose proof (digits2_pos_bounds p) as Hp.
        set (D := Z.pos (digits2_pos p)) in *. exists D. split; [done|].
        assert (D <= 24).
        { destruct (Z.le_gt_cases D 24); [done|].
          pose proof (pow2_le 24 (D - 1)). lia. }
        split; [lia|]. intros He1. specialize (Hn He1).
        destruct (Z.le_gt_cases 24 D); [lia|].
        pose proof (pow2_le D 23). lia. }
      rewrite Hd, fexp32_eq.
      replace (Z.max (d + e1 - 24) (-149) - e1) with 0 by lia.
      simpl. destruct m1 as [|p|p]; [lia| |lia]. simpl.
      change (F32.emax - F32.prec) with 104. done.
Qed.

Lemma rounds_mantissa m e e1 m1 :
  rounds m e e1 m1 -> 0 <= m1 <= 2 ^ 24 /\ (-149 < e1 -> 2 ^ 23 <= m1) /\ -149 <= e1.
Proof.
  intros [He1 _ Hnear _ Hq Hn]. rewrite fexp32_eq in He1.
  split; [lia|]. split; [|lia]. intros H. specialize (Hn H). lia.
Qed.

(** [binary_round_aux] on an exact mantissa of full precision. *)
Lemma round_aux_spec s (m : positive) e :
  e <= fexp32 (Z.pos (digits2_pos m) + e) ->
  exists e1 m1,
    rounds (Z.pos m) e e1 m1 /\
    binary_round_aux F32.prec F32.emax s (Z.pos m) e loc_Exact = pack s m1 e1.
Proof.
  intros Hn.
  set (e1 := fexp32 (Z.pos (digits2_pos m) + e)) in *.
  set (n := e1 - e). set (q := Z.pos m / 2 ^ n). set (r := Z.pos m mod 2 ^ n).
  pose proof (digits2_pos_bounds m) as Hd.
  set (d := Z.pos (digits2_pos m)) in *.
  assert (1 <= d) as Hd1 by lia.
  assert (0 <= n) as Hn0 by (unfold n; lia).
  assert (-149 <= e1) as He1 by (unfold e1; rewrite fexp32_eq; lia).
  destruct (shr_spec (Z.pos m) e n) as (mrs & Hshr & Hq & Hloc); [lia|done|].
  fold r in Hloc. fold q in Hq.
  pose proof (pow2_pos n Hn0) as HP.
  pose proof (Z.mod_pos_bound (Z.pos m) (2 ^ n) HP) as Hr. fold r in Hr.
  pose proof (Z.div_mod (Z.pos m) (2 ^ n)) as Hdm. fold q r in Hdm.
  assert (0 <= q) as Hq0 by (apply Z.div_pos; lia).
  (* the quotient has at most 24 bits, and exactly 24 above the subnormals *)
  assert (q < 2 ^ 24 /\ (-149 < e1 -> 2 ^ 23 <= q)) as [Hq24 Hq23].
  { unfold e1 in *. rewrite fexp32_eq in *.
    destruct (Z.le_gt_cases (-149) (d + e - 24)) as [Hnorm|Hsub].
    - assert (n = d - 24) as Hnd by (unfold n, e1; rewrite fexp32_eq; lia).
      assert (2 ^ d = 2 ^ 24 * 2 ^ n) as E1.
      { rewrite Hnd, <- Z.pow_add_r by lia. f_equal. lia. }
      assert (2 ^ (d - 1) = 2 ^ 23 * 2 ^ n) as E2.
      { rewrite Hnd, <- Z.pow_add_r by lia. f_equal. lia. }
      split.
      + apply Z.div_lt_upper_bound; lia.
      + intros _. apply Z.div_le_lower_bound; lia.
    - split; [|lia].
      assert (d - 24 < n) as Hnd by (unfold n, e1; rewrite fexp32_eq; lia).
      apply Z.div_lt_upper_bound; [lia|].
      assert (2 ^ d <= 2 ^ 24 * 2 ^ n); [|lia].
      rewrite <- Z.pow_add_r by lia. apply pow2_le; lia. }
  set (m1 := round_nearest_even q (loc_of_shr_record mrs)).
  exists e1, m1.
  assert (((m1 = q /\ 2 * r <= 2 ^ n) \/ (m1 = q + 1 /\ 2 ^ n <= 2 * r)) /\
          (r = 0 -> m1 = q)) as [Hcases Hexact].
  { unfold m1. cbv zeta in Hloc. destruct (loc_of_shr_record mrs) as [|[]]; simpl.
    - split; [left|]; lia.
    - destruct (IntDef.Z.even q); (split; [|lia]); [left|right]; lia.
    - split; [left|]; lia.
    - split; [right|]; lia. }
  split; [by constructor|].
  unfold binary_round_aux, shr_fexp at 1. simpl shr_record_of_loc.
  fold d. change (fexp F32.prec F32.emax (Zdigits2 (Z.pos m) + e)) with e1.
  fold n. rewrite Hshr, Hq. fold m1.
  replace (e + n) with e1 by (unfold n; lia).
  apply round_aux_finish; [lia|done|].
  intros H. specialize (Hq23 H). lia.
Qed.

(** *** Values *)

Lemma valid_finite_inv s m e :
  F32.valid (S754_finite s m e) = true ->
  -149 <= e <= 104 /\ Z.pos m < 2 ^ 24 /\ (-149 < e -> 2 ^ 23 <= Z.pos m).
Proof.
  unfold F32.valid, valid_binary, bounded, canonical_mantissa.
  intros [Hc He]%andb_true_iff. apply Z.eqb_eq in Hc. apply Z.leb_le in He.
  change (F32.emax - F32.prec) with 104 in He. rewrite fexp32_eq in Hc.
  pose proof (digits2_pos_bounds m) as Hd.
  set (d := Z.pos (digits2_pos m)) in *.
  assert (1 <= d) by lia.
  split; [lia|]. split.
  - assert (d <= 24) by lia. pose proof (pow2_le d 24). lia.
  - intros Hn. assert (d = 24) as Hd24 by lia. rewrite Hd24 in Hd. simpl in Hd. lia.
Qed.

Lemma valid_finite_intro s m e :
  -149 <= e <= 104 -> 0 < m < 2 ^ 24 -> (-149 < e -> 2 ^ 23 <= m) ->
  F32.valid (S754_finite s (Z.to_pos m) e) = true.
Proof.
  intros He Hm Hn.
  unfold F32.valid, valid_binary, bounded, canonical_mantissa.
  apply andb_true_iff. split; [|apply Z.leb_le; change (F32.emax - F32.prec) with 104; lia].
  apply Z.eqb_eq. rewrite fexp32_eq.
  destruct m as [|p|p]; [lia| |lia]. simpl Z.to_pos.
  pose proof (digits2_pos_bounds p) as Hd.
  set (d := Z.pos (digits2_pos p)) in *.
  assert (1 <= d) by lia.
  assert (d <= 24).
  { destruct (Z.le_gt_cases d 24); [done|]. pose proof (pow2_le 24 (d - 1)). lia. }
  destruct (Z.eq_dec e (-149)) as [->|Hne]; [lia|].
  assert (24 <= d); [|lia].
  destruct (Z.le_gt_cases 24 d); [done|]. pose proof (pow2_le d 23). lia.
Qed.

Lemma pack_valid s m1 e1 :
  0 <= m1 <= 2 ^ 24 -> -149 <= e1 -> (-149 < e1 -> 2 ^ 23 <= m1) ->
  F32.valid (pack s m1 e1) = true.
Proof.
  intros Hm He Hn. unfold pack.
  destruct (Z.eqb_spec m1 0); [done|].
  destruct (Z.eqb_spec m1 (2 ^ 24)).
  - destruct (Z.leb_spec (e1 + 1) 104); [|done].
    apply (valid_finite_intro s (2 ^ 23)); lia.
  - destruct (Z.leb_spec e1 104); [|done].
    apply valid_finite_intro; lia.
Qed.

(** A packed result is the float of value [m1 * 2 ^ e1], unless that
    exceeds the format. *)
Lemma pack_fval b s m1 e1 :
  0 <= m1 <= 2 ^ 24 -> b <= e1 ->
  F32.is_finite (pack s m1 e1) = true ->
  fval b (pack s m1 e1) = scaled b (if s then - m1 else m1) e1.
Proof.
  intros Hm Hb. unfold pack.
  destruct (Z.eqb_spec m1 0) as [->|H0]; [by destruct s|].
  destruct (Z.eqb_spec m1 (2 ^ 24)) as [->|H24].
  - destruct (Z.leb_spec (e1 + 1) 104); [|done]. intros _. unfold fval, scaled.
    replace (e1 + 1 - b) with (Z.succ (e1 - b)) by lia.
    rewrite Z.pow_succ_r by lia. destruct s; lia.
  - destruct (Z.leb_spec e1 104); [|done]. intros _. unfold fval, scaled.
    destruct m1 as [|p|p]; [lia| |lia]. by destruct s.
Qed.

Lemma pack_finite s m1 e1 :
  0 <= m1 <= 2 ^ 24 ->
  F32.is_finite (pack s m1 e1) = true <->
  m1 = 0 \/ (m1 = 2 ^ 24 /\ e1 < 104) \/ (m1 < 2 ^ 24 /\ e1 <= 104).
Proof.
  intros Hm. unfold pack.
  destruct (Z.eqb_spec m1 0) as [->|H0]; [naive_solver|].
  destruct (Z.eqb_spec m1 (2 ^ 24)) as [->|H24].
  - destruct (Z.leb_spec (e1 + 1) 104); simpl; split; try done; try lia;
      intros [?|[[_ ?]|[? _]]]; lia.
  - destruct (Z.leb_spec e1 104); simpl; split; try done; try lia;
      intros [?|[[? _]|[_ ?]]]; lia.
Qed.

Lemma pow2_split a b : 0 <= a -> 0 <= b -> 2 ^ (a + b) = 2 ^ a * 2 ^ b.
Proof. intros. by apply Z.pow_add_r. Qed.

(** Rounding does not pass a number of the format above. *)
Lemma rounds_upper b m e e1 m1 mB eB :
  rounds m e e1 m1 -> 0 < m -> b <= e -> b <= -149 ->
  -149 <= eB <= 104 -> 0 <= mB < 2 ^ 24 ->
  scaled b m e <= scaled b mB eB ->
  scaled b m1 e1 <= scaled b mB eB /\ e1 <= 104 /\ (m1 = 2 ^ 24 -> e1 < 104).
Proof.
  intros [He1 Hn Hnear Hexact Hq Hnorm] Hm Hb Hb' HeB HmB Hle.
  unfold scaled in *.
  set (n := e1 - e) in *. set (q := m / 2 ^ n) in *. set (r := m mod 2 ^ n) in *.
  assert (0 <= n) as Hn0 by (unfold n; lia).
  pose proof (pow2_pos n Hn0) as HP.
  pose proof (Z.mod_pos_bound m (2 ^ n) HP) as Hr. fold r in Hr.
  pose proof (Z.div_mod m (2 ^ n)) as Hdm. fold q r in Hdm.
  assert (-149 <= e1) as He1' by (rewrite He1, fexp32_eq; lia).
  pose proof (pow2_pos (e - b) ltac:(lia)) as HPe.
  pose proof (pow2_pos (eB - b) ltac:(lia)) as HPB.
  assert (2 ^ (e1 - b) = 2 ^ n * 2 ^ (e - b)) as E1.
  { rewrite <- pow2_split by lia. f_equal. unfold n. lia. }
  set (P := 2 ^ n) in *. set (Pe := 2 ^ (e - b)) in *. set (PB := 2 ^ (eB - b)) in *.
  assert (m1 * (P * Pe) <= mB * PB) as Hmain.
  { destruct Hnear as [[-> Hr2]|[-> Hr2]]; [nia|].
    assert (0 < r) by lia.
    destruct (Z.le_gt_cases e1 eB) as [Hge|Hlt].
    - assert (PB = 2 ^ (eB - e1) * (P * Pe)) as EB.
      { unfold PB. rewrite <- E1, <- pow2_split by lia. f_equal. lia. }
      pose proof (pow2_pos (eB - e1) ltac:(lia)) as Hk.
      set (k := 2 ^ (eB - e1)) in *.
      assert (q < mB * k) by nia. nia.
    - exfalso. specialize (Hnorm ltac:(lia)).
      assert (P * Pe = 2 ^ (e1 - eB) * PB) as EB.
      { unfold PB. rewrite <- E1, <- pow2_split by lia. f_equal. lia. }
      pose proof (pow2_le 1 (e1 - eB) ltac:(lia) ltac:(lia)) as Hk.
      set (k := 2 ^ (e1 - eB)) in *. simpl in Hk. nia. }
  rewrite E1. split; [lia|].
  assert (mB * PB < 2 ^ 24 * 2 ^ (104 - b)) as HB.
  { pose proof (pow2_le (eB - b) (104 - b) ltac:(lia) ltac:(lia)). fold PB in H. nia. }
  assert (forall x, 104 <= x -> 2 ^ (104 - b) <= 2 ^ (x - b)) as Hmono.
  { intros x Hx. apply pow2_le; lia. }
  assert (0 <= m1) as Hm1 by (destruct Hnear as [[-> _]|[-> _]]; lia).
  split.
  - destruct (Z.le_gt_cases e1 104) as [|Hgt]; [done|]. exfalso.
    specialize (Hnorm ltac:(lia)).
    assert (2 ^ (105 - b) <= 2 ^ (e1 - b)) as H1 by (apply pow2_le; lia).
    replace (105 - b) with (1 + (104 - b)) in H1 by lia.
    rewrite pow2_split in H1 by lia. change (2 ^ 1) with 2 in H1.
    rewrite E1 in H1. pose proof (pow2_pos (104 - b) ltac:(lia)).
    assert (2 ^ 23 <= m1) by (destruct Hnear as [[-> _]|[-> _]]; lia). nia.
  - intros ->. destruct (Z.lt_ge_cases e1 104) as [|Hge]; [done|]. exfalso.
    specialize (Hmono e1 Hge). rewrite E1 in Hmono. nia.
Qed.

(** Rounding does not pass a number of the format below. *)
Lemma rounds_lower b m e e1 m1 mA eA :
  rounds m e e1 m1 -> 0 < m -> b <= e -> b <= -149 ->
  -149 <= eA -> 0 <= mA < 2 ^ 24 ->
  scaled b mA eA <= scaled b m e ->
  scaled b mA eA <= scaled b m1 e1.
Proof.
  intros [He1 Hn Hnear Hexact Hq Hnorm] Hm Hb Hb' HeA HmA Hle.
  unfold scaled in *.
  set (n := e1 - e) in *. set (q := m / 2 ^ n) in *. set (r := m mod 2 ^ n) in *.
  assert (0 <= n) as Hn0 by (unfold n; lia).
  pose proof (pow2_pos n Hn0) as HP.
  pose proof (Z.mod_pos_bound m (2 ^ n) HP) as Hr. fold r in Hr.
  pose proof (Z.div_mod m (2 ^ n)) as Hdm. fold q r in Hdm.
  assert (-149 <= e1) as He1' by (rewrite He1, fexp32_eq; lia).
  pose proof (pow2_pos (e - b) ltac:(lia)) as HPe.
  pose proof (pow2_pos (eA - b) ltac:(lia)) as HPA.
  assert (2 ^ (e1 - b) = 2 ^ n * 2 ^ (e - b)) as E1.
  { rewrite <- pow2_split by lia. f_equal. unfold n. lia. }
  rewrite E1.
  set (P := 2 ^ n) in *. set (Pe := 2 ^ (e - b)) in *. set (PA := 2 ^ (eA - b)) in *.
  assert (mA * PA <= q * (P * Pe)); [|destruct Hnear as [[-> _]|[-> _]]; nia].
  destruct (Z.le_gt_cases e1 eA) as [Hge|Hlt].
  - assert (PA = 2 ^ (eA - e1) * (P * Pe)) as EA.
    { unfold PA. rewrite <- E1, <- pow2_split by lia. f_equal. lia. }
    pose proof (pow2_pos (eA - e1) ltac:(lia)) as Hk.
    set (k := 2 ^ (eA - e1)) in *.
    assert (mA * k < q + 1) by nia. nia.
  - specialize (Hnorm ltac:(lia)).
    assert (P * Pe = 2 ^ (e1 - eA) * PA) as EA.
    { unfold PA. rewrite <- E1, <- pow2_split by lia. f_equal. lia. }
    pose proof (pow2_le 1 (e1 - eA) ltac:(lia) ltac:(lia)) as Hk.
    set (k := 2 ^ (e1 - eA)) in *. simpl in Hk. nia.
Qed.

(** Rounding gives zero only at or below half the least subnormal, and
    always strictly below it. *)
Lemma rounds_zero_inv b m e e1 m1 :
  rounds m e e1 m1 -> 0 < m -> b <= e -> b <= -149 ->
  m1 = 0 -> 2 * scaled b m e <= 2 ^ (-149 - b).
Proof.
  intros [He1 Hn Hnear Hexact Hq Hnorm] Hm Hb Hb' ->.
  unfold scaled in *.
  set (n := e1 - e) in *. set (q := m / 2 ^ n) in *. set (r := m mod 2 ^ n) in *.
  assert (0 <= n) as Hn0 by (unfold n; lia).
  pose proof (pow2_pos n Hn0) as HP.
  pose proof (Z.mod_pos_bound m (2 ^ n) HP) as Hr. fold r in Hr.
  pose proof (Z.div_mod m (2 ^ n)) as Hdm. fold q r in Hdm.
  assert (-149 <= e1) as He1' by (rewrite He1, fexp32_eq; lia).
  assert (e1 = -149) as E149.
  { destruct (Z.eq_dec e1 (-149)); [done|]. specialize (Hnorm ltac:(lia)). lia. }
  pose proof (pow2_pos (e - b) ltac:(lia)) as HPe.
  assert (2 ^ (e1 - b) = 2 ^ n * 2 ^ (e - b)) as E1.
  { rewrite <- pow2_split by lia. f_equal. unfold n. lia. }
  rewrite <- E149, E1. nia.
Qed.

Lemma rounds_zero b m e e1 m1 :
  rounds m e e1 m1 -> 0 < m -> b <= e -> b <= -149 ->
  2 * scaled b m e < 2 ^ (-149 - b) -> m1 = 0.
Proof.
  intros [He1 Hn Hnear Hexact Hq Hnorm] Hm Hb Hb' Hlt.
  unfold scaled in *.
  set (n := e1 - e) in *. set (q := m / 2 ^ n) in *. set (r := m mod 2 ^ n) in *.
  assert (0 <= n) as Hn0 by (unfold n; lia).
  pose proof (pow2_pos n Hn0) as HP.
  pose proof (Z.mod_pos_bound m (2 ^ n) HP) as Hr. fold r in Hr.
  pose proof (Z.div_mod m (2 ^ n)) as Hdm. fold q r in Hdm.
  assert (-149 <= e1) as He1' by (rewrite He1, fexp32_eq; lia).
  pose proof (pow2_pos (e - b) ltac:(lia)) as HPe.
  assert (2 ^ (e1 - b) = 2 ^ n * 2 ^ (e - b)) as E1.
  { rewrite <- pow2_split by lia. f_equal. unfold n. lia. }
  assert (2 ^ (-149 - b) <= 2 ^ (e1 - b)) as Hmono by (apply pow2_le; lia).
  assert (e1 = -149) as E149.
  { destruct (Z.eq_dec e1 (-149)); [done|]. specialize (Hnorm ltac:(lia)).
    rewrite E1 in Hmono. nia. }
  rewrite <- E149, E1 in Hlt.
  assert (q = 0) by nia.
  destruct Hnear as [[-> _]|[-> Hr2]]; [done|]. nia.
Qed.

(** [shl_align] keeps the value and lowers the exponent to [ex'] when it
    is not there. *)
Lemma pos_iter_xO m d : Z.pos (Pos.iter xO m d) = Z.pos m * 2 ^ Z.pos d.
Proof.
  induction d as [|d IH] using Pos.peano_ind.
  - simpl. lia.
  - rewrite Pos.iter_succ, Pos2Z.inj_xO, IH, Pos2Z.inj_succ, Z.pow_succ_r by lia. lia.
Qed.

Lemma shl_align_spec m e e' :
  let r := shl_align m e e' in
  r.2 = Z.min e e' /\ Z.pos r.1 = Z.pos m * 2 ^ (e - r.2).
Proof.
  unfold shl_align. destruct (e' - e) as [|d|d] eqn:E; simpl.
  - split; [lia|]. rewrite Z.sub_diag. simpl. lia.
  - split; [lia|]. rewrite Z.sub_diag. simpl. lia.
  - split; [lia|]. rewrite pos_iter_xO. f_equal. f_equal. lia.
Qed.

Lemma digits_shift m k :
  0 <= k -> Z.pos (digits2_pos m) + k = Zdigits2 (Z.pos m * 2 ^ k).
Proof.
  intros Hk. pose proof (digits2_pos_bounds m) as Hd.
  set (d := Z.pos (digits2_pos m)) in *.
  pose proof (pow2_pos k Hk).
  symmetry. apply digits_unique; [lia|].
  replace (d + k - 1) with ((d - 1) + k) by lia.
  rewrite !pow2_split by lia. nia.
Qed.

(** [binary_round]: the mantissa is first brought to full precision. *)
Lemma round_spec b s (m : positive) e :
  b <= e -> b <= -149 ->
  exists m' e' e1 m1,
    rounds (Z.pos m') e' e1 m1 /\ b <= e' /\
    scaled b (Z.pos m') e' = scaled b (Z.pos m) e /\
    binary_round F32.prec F32.emax s m e = pack s m1 e1.
Proof.
  intros Hb Hb'. unfold binary_round.
  pose proof (shl_align_spec m e (fexp32 (Z.pos (digits2_pos m) + e))) as [He' Hm'].
  destruct (shl_align m e _) as [m' e'] eqn:Hsh. simpl in He', Hm'.
  assert (-149 <= fexp32 (Z.pos (digits2_pos m) + e)) as Hf
    by (rewrite fexp32_eq; lia).
  assert (Z.pos (digits2_pos m') + e' = Z.pos (digits2_pos m) + e) as Hd.
  { change (Z.pos (digits2_pos m')) with (Zdigits2 (Z.pos m')).
    rewrite Hm', <- digits_shift by lia. lia. }
  destruct (round_aux_spec s m' e') as (e1 & m1 & Hr & Heq).
  { rewrite Hd. lia. }
  exists m', e', e1, m1. split; [done|]. split; [lia|]. split; [|done].
  unfold scaled. rewrite Hm', <- Z.mul_assoc, <- pow2_split by lia. do 2 f_equal. lia.
Qed.

(** The product of two mantissas of the format has full precision. *)
Lemma mul_full_precision sx mx ex sy my ey :
  F32.valid (S754_finite sx mx ex) = true ->
  F32.valid (S754_finite sy my ey) = true ->
  ex + ey <= fexp32 (Z.pos (digits2_pos (mx * my)) + (ex + ey)).
Proof.
  intros (Hex & Hmx & Hnx)%valid_finite_inv (Hey & Hmy & Hny)%valid_finite_inv.
  rewrite fexp32_eq.
  destruct (Z.le_gt_cases (ex + ey) (-149)) as [|Hgt]; [lia|].
  pose proof (digits2_pos_bounds (mx * my)) as Hd.
  set (d := Z.pos (digits2_pos (mx * my))) in *.
  assert (24 <= d); [|lia].
  destruct (Z.le_gt_cases 24 d) as [|Hlt]; [done|]. exfalso.
  pose proof (pow2_le d 23 ltac:(lia) ltac:(lia)) as Hp.
  rewrite Pos2Z.inj_mul in Hd.
  assert (2 ^ 23 <= Z.pos mx \/ 2 ^ 23 <= Z.pos my) as [H|H]; [|nia..].
  destruct (Z.eq_dec ex (-149)); [right; apply Hny; lia|left; apply Hnx; lia].
Qed.

(** *** The operations on values *)

Lemma is_round_valid b s v z : is_round b s v z -> F32.valid z = true.
Proof.
  intros (m & e & e1 & m1 & Hr & _ & _ & _ & ->).
  destruct (rounds_mantissa _ _ _ _ Hr) as (? & ? & ?). by apply pack_valid.
Qed.

Lemma pack_nonneg m1 e1 : F32.is_finite (pack false m1 e1) = true -> nonneg (pack false m1 e1) = true.
Proof.
  unfold pack. destruct (m1 =? 0); [done|].
  destruct (m1 =? 2 ^ 24); [by destruct (e1 + 1 <=? 104)|by destruct (e1 <=? 104)].
Qed.

(** A rounded magnitude stays at or below a bound of the format. *)
Lemma is_round_upper b v z mB eB :
  is_round b false v z -> b <= -149 ->
  -149 <= eB <= 104 -> 0 <= mB < 2 ^ 24 ->
  v <= scaled b mB eB ->
  nonneg z = true /\ 0 <= fval b z <= scaled b mB eB.
Proof.
  intros (m & e & e1 & m1 & Hr & Hm & Hb & <- & ->) Hb' HeB HmB Hle.
  destruct (rounds_upper b _ _ _ _ mB eB Hr Hm Hb Hb' HeB HmB Hle) as (Hv & He1 & H24).
  destruct (rounds_mantissa _ _ _ _ Hr) as (Hm1 & _ & He1').
  assert (F32.is_finite (pack false m1 e1) = true) as Hfin.
  { apply pack_finite; [done|]. destruct (Z.eq_dec m1 (2 ^ 24)); [right; left|right; right]; lia. }
  split; [by apply pack_nonneg|].
  rewrite pack_fval by (done || lia). split; [|done].
  unfold scaled. pose proof (pow2_pos (e1 - b) ltac:(lia)). nia.
Qed.

(** A rounded magnitude stays at or above a bound of the format, when it
    is finite. *)
Lemma is_round_lower b v z mA eA :
  is_round b false v z -> b <= -149 ->
  -149 <= eA -> 0 <= mA < 2 ^ 24 ->
  scaled b mA eA <= v -> F32.is_finite z = true ->
  scaled b mA eA <= fval b z.
Proof.
  intros (m & e & e1 & m1 & Hr & Hm & Hb & <- & ->) Hb' HeB HmB Hle Hfin.
  destruct (rounds_mantissa _ _ _ _ Hr) as (Hm1 & _ & He1').
  rewrite pack_fval by (done || lia).
  by eapply rounds_lower.
Qed.

Lemma is_round_zero_inv b s v z sz :
  is_round b s v z -> b <= -149 -> z = S754_zero sz -> 2 * v <= 2 ^ (-149 - b).
Proof.
  intros (m & e & e1 & m1 & Hr & Hm & Hb & <- & ->) Hb' Hz.
  eapply rounds_zero_inv; [done..|].
  unfold pack in Hz. destruct (Z.eqb_spec m1 0); [done|].
  destruct (m1 =? 2 ^ 24); [by destruct (e1 + 1 <=? 104)|by destruct (e1 <=? 104)].
Qed.

Lemma is_round_zero b s v z :
  is_round b s v z -> b <= -149 -> 2 * v < 2 ^ (-149 - b) -> z = S754_zero s.
Proof.
  intros (m & e & e1 & m1 & Hr & Hm & Hb & <- & ->) Hb' Hz.
  rewrite (rounds_zero _ _ _ _ _ Hr Hm Hb Hb' Hz). done.
Qed.

(** The product of two finite floats. *)
Lemma mul_is_round b sx mx ex sy my ey :
  b <= -298 ->
  F32.valid (S754_finite sx mx ex) = true ->
  F32.valid (S754_finite sy my ey) = true ->
  is_round b (xorb sx sy) (scaled b (Z.pos mx * Z.pos my) (ex + ey))
    (F32.mul (S754_finite sx mx ex) (S754_finite sy my ey)).
Proof.
  intros Hb Hx Hy. pose proof (mul_full_precision _ _ _ _ _ _ Hx Hy) as Hp.
  apply valid_finite_inv in Hx as (Hex & _). apply valid_finite_inv in Hy as (Hey & _).
  destruct (round_aux_spec (xorb sx sy) (mx * my) (ex + ey) Hp) as (e1 & m1 & Hr & Heq).
  exists (Z.pos (mx * my)), (ex + ey), e1, m1.
  split; [done|]. split; [lia|]. split; [lia|]. split; [by rewrite Pos2Z.inj_mul|].
  exact Heq.
Qed.

(** The sum of two positive finite floats. *)
Lemma add_is_round b mx ex my ey :
  b <= -149 -> -149 <= ex -> -149 <= ey ->
  is_round b false (scaled b (Z.pos mx) ex + scaled b (Z.pos my) ey)
    (F32.add (S754_finite false mx ex) (S754_finite false my ey)).
Proof.
  intros Hb Hex Hey. unfold F32.add, SFadd. cbv zeta.
  pose proof (shl_align_spec mx ex (Z.min ex ey)) as [Hx1 Hx2].
  pose proof (shl_align_spec my ey (Z.min ex ey)) as [Hy1 Hy2].
  destruct (shl_align mx ex _) as [mx' ex'], (shl_align my ey _) as [my' ey'].
  simpl in *. change (Z.pos mx' + Z.pos my') with (Z.pos (mx' + my')).
  unfold binary_normalize.
  destruct (round_spec b false (mx' + my') (Z.min ex ey)) as (m' & e' & e1 & m1 & Hr & He' & Hv & Heq);
    [lia|lia|].
  exists (Z.pos m'), e', e1, m1. split; [done|]. split; [lia|]. split; [done|].
  split; [|done]. rewrite Hv. unfold scaled. rewrite Pos2Z.inj_add, Hx2, Hy2.
  replace ex' with (Z.min ex ey) by lia. replace ey' with (Z.min ex ey) by lia.
  rewrite Z.mul_add_distr_r, <- !Z.mul_assoc, <- !pow2_split by lia.
  f_equal; do 2 f_equal; lia.
Qed.

(** The difference of two positive finite floats, the larger first. *)
Lemma sub_is_round b mx ex my ey :
  b <= -149 -> -149 <= ex -> -149 <= ey ->
  let v := scaled b (Z.pos mx) ex - scaled b (Z.pos my) ey in
  0 <= v ->
  let z := F32.sub (S754_finite false mx ex) (S754_finite false my ey) in
  (v = 0 /\ z = S754_zero false) \/ (0 < v /\ is_round b false v z).
Proof.
  intros Hb Hex Hey v Hv z. unfold z, F32.sub, SFsub. cbv zeta.
  pose proof (shl_align_spec mx ex (Z.min ex ey)) as [Hx1 Hx2].
  pose proof (shl_align_spec my ey (Z.min ex ey)) as [Hy1 Hy2].
  destruct (shl_align mx ex _) as [mx' ex'], (shl_align my ey _) as [my' ey'].
  simpl in *. unfold cond_Zopp.
  assert (v = (Z.pos mx' - Z.pos my') * 2 ^ (Z.min ex ey - b)) as Ev.
  { unfold v, scaled. rewrite Hx2, Hy2.
    replace ex' with (Z.min ex ey) by lia. replace ey' with (Z.min ex ey) by lia.
    rewrite Z.mul_sub_distr_r, <- !Z.mul_assoc, <- !pow2_split by lia.
    f_equal; do 2 f_equal; lia. }
  pose proof (pow2_pos (Z.min ex ey - b) ltac:(lia)) as HP.
  unfold binary_normalize.
  destruct (Z.pos mx' - Z.pos my') as [|p|p] eqn:Ed.
  - left. split; [lia|done].
  - right. split; [lia|].
    destruct (round_spec b false p (Z.min ex ey)) as (m' & e' & e1 & m1 & Hr & He' & Hv' & Heq);
      [lia|lia|].
    exists (Z.pos m'), e', e1, m1. split; [done|]. split; [lia|]. split; [done|].
    split; [|done]. rewrite Hv', Ev. done.
  - exfalso. nia.
Qed.

(** *** Comparisons *)

Lemma scaled_neg b m e : scaled b (Z.neg m) e = - scaled b (Z.pos m) e.
Proof. unfold scaled. rewrite <- Pos2Z.opp_pos. lia. Qed.

Lemma scaled_pos b m e : b <= e -> 0 < m -> 0 < scaled b m e.
Proof. intros. unfold scaled. pose proof (pow2_pos (e - b) ltac:(lia)). nia. Qed.

Lemma mag_compare b s1 m1 e1 s2 m2 e2 :
  b <= -149 ->
  F32.valid (S754_finite s1 m1 e1) = true ->
  F32.valid (S754_finite s2 m2 e2) = true ->
  match e1 ?= e2 with Lt => Lt | Gt => Gt | Eq => Pos.compare_cont Eq m1 m2 end
  = (scaled b (Z.pos m1) e1 ?= scaled b (Z.pos m2) e2).
Proof.
  intros Hb (He1 & Hm1 & Hn1)%valid_finite_inv (He2 & Hm2 & Hn2)%valid_finite_inv.
  unfold scaled. destruct (Z.compare_spec e1 e2) as [->|Hlt|Hlt].
  - pose proof (pow2_pos (e2 - b) ltac:(lia)).
    change (Pos.compare_cont Eq m1 m2) with (Z.pos m1 ?= Z.pos m2).
    symmetry. destruct (Z.compare_spec (Z.pos m1) (Z.pos m2)) as [->|?|?].
    + apply Z.compare_refl.
    + apply Z.compare_lt_iff. nia.
    + apply Z.compare_gt_iff. nia.
  - symmetry. apply Z.compare_lt_iff.
    pose proof (pow2_pos (e1 - b) ltac:(lia)).
    pose proof (pow2_le (e1 + 1 - b) (e2 - b) ltac:(lia) ltac:(lia)).
    replace (e1 + 1 - b) with ((e1 - b) + 1) in * by lia.
    rewrite (pow2_split (e1 - b) 1) in * by lia. change (2 ^ 1) with 2 in *.
    specialize (Hn2 ltac:(lia)). change (2 ^ 24) with 16777216 in *.
    change (2 ^ 23) with 8388608 in *. nia.
  - symmetry. apply Z.compare_gt_iff.
    pose proof (pow2_pos (e2 - b) ltac:(lia)).
    pose proof (pow2_le (e2 + 1 - b) (e1 - b) ltac:(lia) ltac:(lia)).
    replace (e2 + 1 - b) with ((e2 - b) + 1) in * by lia.
    rewrite (pow2_split (e2 - b) 1) in * by lia. change (2 ^ 1) with 2 in *.
    specialize (Hn1 ltac:(lia)). change (2 ^ 24) with 16777216 in *.
    change (2 ^ 23) with 8388608 in *. nia.
Qed.

(** On finite floats [SFcompare] is the order of the values. *)
Lemma compare_fval b x y :
  b <= -149 -> F32.valid x = true -> F32.valid y = true ->
  F32.is_finite x = true -> F32.is_finite y = true ->
  SFcompare x y = Some (fval b x ?= fval b y).
Proof.
  intros Hb Hx Hy Fx Fy.
  destruct x as [sx|sx| |sx mx ex], y as [sy|sy| |sy my ey]; try done.
  - cbn [SFcompare fval]. f_equal. symmetry.
    pose proof (valid_finite_inv _ _ _ Hy) as (? & _).
    destruct sy; [rewrite scaled_neg; apply Z.compare_gt_iff|apply Z.compare_lt_iff];
      pose proof (scaled_pos b (Z.pos my) ey); lia.
  - cbn [SFcompare fval]. f_equal. symmetry.
    pose proof (valid_finite_inv _ _ _ Hx) as (? & _).
    destruct sx; [rewrite scaled_neg; apply Z.compare_lt_iff|apply Z.compare_gt_iff];
      pose proof (scaled_pos b (Z.pos mx) ex); lia.
  - pose proof (mag_compare b _ _ _ _ _ _ Hb Hx Hy) as Hm.
    pose proof (valid_finite_inv _ _ _ Hx) as (? & _).
    pose proof (valid_finite_inv _ _ _ Hy) as (? & _).
    pose proof (scaled_pos b (Z.pos mx) ex ltac:(lia) ltac:(lia)).
    pose proof (scaled_pos b (Z.pos my) ey ltac:(lia) ltac:(lia)).
    unfold SFcompare, fval. f_equal. destruct sx, sy.
    + rewrite !scaled_neg, Z.compare_opp.
      rewrite (Z.compare_antisym (scaled b (Z.pos mx) ex) (scaled b (Z.pos my) ey)), <- Hm.
      by destruct (ex ?= ey).
    + rewrite scaled_neg. symmetry. apply Z.compare_lt_iff. lia.
    + rewrite scaled_neg. symmetry. apply Z.compare_gt_iff. lia.
    + done.
Qed.

Lemma leb_fval b x y :
  b <= -149 -> F32.valid x = true -> F32.valid y = true ->
  F32.is_finite x = true -> F32.is_finite y = true ->
  F32.leb x y = (fval b x <=? fval b y).
Proof.
  intros. unfold F32.leb, SFleb. rewrite (compare_fval b) by done.
  unfold Z.leb. by destruct (_ ?= _).
Qed.

Lemma ltb_fval b x y :
  b <= -149 -> F32.valid x = true -> F32.valid y = true ->
  F32.is_finite x = true -> F32.is_finite y = true ->
  F32.ltb x y = (fval b x <? fval b y).
Proof.
  intros. unfold F32.ltb, SFltb. rewrite (compare_fval b) by done.
  unfold Z.ltb. by destruct (_ ?= _).
Qed.

(** *** The unit interval *)

Lemma one_eq : F32.one = S754_finite false 8388608 (-23).
Proof. reflexivity. Qed.

Lemma fval_one b : b <= -149 -> fval b F32.one = 2 ^ (- b).
Proof.
  intros. rewrite one_eq. unfold fval, scaled. change 8388608 with (2 ^ 23).
  rewrite <- pow2_split by lia. f_equal. lia.
Qed.

Lemma in_unit_finite x : in_unit x = true -> F32.is_finite x = true.
Proof. unfold in_unit, f1_0. rewrite one_eq. destruct x as [| [] | |]; done. Qed.

Lemma in_unit_iff b x :
  b <= -149 -> F32.valid x = true ->
  in_unit x = true <-> F32.is_finite x = true /\ 0 <= fval b x < 2 ^ (- b).
Proof.
  intros Hb Hx. split.
  - intros Hu. pose proof (in_unit_finite _ Hu) as Hf. split; [done|].
    unfold in_unit, f1_0 in Hu. apply andb_true_iff in Hu as [H0 H1].
    rewrite (leb_fval b) in H0 by done. rewrite (ltb_fval b) in H1 by done.
    rewrite fval_one in H1 by done. simpl in H0. lia.
  - intros [Hf Hv]. unfold in_unit, f1_0.
    rewrite (leb_fval b), (ltb_fval b), fval_one by done. simpl. 
    apply andb_true_iff. split; [apply Z.leb_le|apply Z.ltb_lt]; lia.
Qed.

(** A finite float with a value that is not negative is a zero or has a
    positive sign. *)
Lemma fval_nonneg_inv b x :
  b <= -149 -> F32.valid x = true -> F32.is_finite x = true -> 0 <= fval b x ->
  (exists s, x = S754_zero s) \/ (exists m e, x = S754_finite false m e).
Proof.
  intros Hb Hx Hf Hv. destruct x as [s|s| |[] m e]; try done; eauto.
  exfalso. simpl in Hv. rewrite scaled_neg in Hv.
  pose proof (valid_finite_inv _ _ _ Hx) as (? & _).
  pose proof (scaled_pos b (Z.pos m) e). lia.
Qed.

(** Below one, the values of the format end at [1 - 2^-24]. *)
Lemma below_one b m e :
  b <= -149 -> F32.valid (S754_finite false m e) = true ->
  scaled b (Z.pos m) e < 2 ^ (- b) ->
  scaled b (Z.pos m) e <= scaled b (2 ^ 24 - 1) (-24).
Proof.
  intros Hb (He & Hm & Hn)%valid_finite_inv Hlt. unfold scaled in *.
  destruct (Z_le_gt_dec e (-24)).
  - pose proof (pow2_le (e - b) (-24 - b) ltac:(lia) ltac:(lia)).
    pose proof (pow2_pos (e - b) ltac:(lia)). nia.
  - exfalso. specialize (Hn ltac:(lia)).
    pose proof (pow2_le (-23 - b) (e - b) ltac:(lia) ltac:(lia)).
    assert (2 ^ (- b) = 2 ^ 23 * 2 ^ (-23 - b)) as E.
    { rewrite <- pow2_split by lia. f_equal. lia. }
    pose proof (pow2_pos (-23 - b) ltac:(lia)). nia.
Qed.

Lemma f0_1_eq : f0_1 = S754_finite false 13421773 (-27).
Proof. reflexivity. Qed.

Lemma f0_02_eq : f0_02 = S754_finite false 10737418 (-29).
Proof. reflexivity. Qed.

(** The sum of two offsets of the unit interval is below two. *)
Lemma add_unit b t a :
  b <= -149 -> F32.valid t = true -> F32.valid a = true ->
  in_unit t = true -> in_unit a = true ->
  F32.valid (F32.add t a) = true /\ F32.is_finite (F32.add t a) = true /\
  0 <= fval b (F32.add t a) <= scaled b (2 ^ 24 - 1) (-23).
Proof.
  intros Hb Vt Va Ut Ua.
  apply (in_unit_iff b) in Ut as [Ft Ht]; [|done..].
  apply (in_unit_iff b) in Ua as [Fa Ha]; [|done..].
  assert (2 * scaled b (2 ^ 24 - 1) (-24) = scaled b (2 ^ 24 - 1) (-23)) as E2.
  { unfold scaled. replace (-23 - b) with (1 + (-24 - b)) by lia.
    rewrite pow2_split by lia. change (2 ^ 1) with 2. lia. }
  assert (2 ^ (- b) <= scaled b (2 ^ 24 - 1) (-23)) as E1.
  { unfold scaled. replace (- b) with (23 + (-23 - b)) by lia.
    rewrite pow2_split by lia. pose proof (pow2_pos (-23 - b) ltac:(lia)).
    change (2 ^ 24) with 16777216. change (2 ^ 23) with 8388608. nia. }
  destruct (fval_nonneg_inv b t Hb Vt Ft ltac:(lia)) as [[st ->]|(mt & et & ->)];
    destruct (fval_nonneg_inv b a Hb Va Fa ltac:(lia)) as [[sa ->]|(ma & ea & ->)].
  - pose proof (pow2_pos (- b) ltac:(lia)).
    unfold F32.add, SFadd.
    destruct st, sa; (split; [done|]); (split; [done|]); cbn [fval]; lia.
  - unfold F32.add, SFadd. split; [done|]. split; [done|]. lia.
  - unfold F32.add, SFadd. split; [done|]. split; [done|]. lia.
  - pose proof (valid_finite_inv _ _ _ Vt) as (? & _).
    pose proof (valid_finite_inv _ _ _ Va) as (? & _).
    pose proof (add_is_round b mt et ma ea Hb ltac:(lia) ltac:(lia)) as Hr.
    pose proof (below_one b mt et Hb Vt ltac:(simpl in Ht; lia)).
    pose proof (below_one b ma ea Hb Va ltac:(simpl in Ha; lia)).
    destruct (is_round_upper b _ _ (2 ^ 24 - 1) (-23) Hr Hb) as (Hn & Hv); [lia|lia|lia|].
    split; [by eapply is_round_valid|]. split; [|done].
    by destruct (F32.add _ _) as [| | |[]].
Qed.

(** Wrapping a value below two by the threshold of the source. *)
Lemma wrap_unit b z :
  b <= -149 -> F32.valid z = true -> F32.is_finite z = true ->
  0 <= fval b z <= scaled b (2 ^ 24 - 1) (-23) ->
  let r := if F32.geb z f1_0 then F32.sub z f1_0 else z in
  F32.valid r = true /\ in_unit r = true.
Proof.
  intros Hb Vz Fz Hz r. subst r. unfold F32.geb, f1_0.
  change SFleb with F32.leb. rewrite (leb_fval b), fval_one by done.
  destruct (Z.leb_spec (2 ^ (- b)) (fval b z)) as [Hge|Hlt].
  - pose proof (pow2_pos (- b) ltac:(lia)).
    destruct (fval_nonneg_inv b z Hb Vz Fz ltac:(lia)) as [[sz ->]|(mz & ez & ->)].
    { simpl in Hge. lia. }
    pose proof (valid_finite_inv _ _ _ Vz) as (? & _).
    rewrite one_eq.
    pose proof (sub_is_round b mz ez 8388608 (-23) Hb ltac:(lia) ltac:(lia)) as Hs.
    cbv zeta in Hs.
    assert (scaled b 8388608 (-23) = 2 ^ (- b)) as E1.
    { rewrite <- (fval_one b) by done. by rewrite one_eq. }
    cbn [fval] in Hge, Hz. rewrite E1 in Hs.
    destruct (Hs ltac:(lia)) as [[_ ->]|[Hpos Hr]]; [done|].
    assert (scaled b (2 ^ 24 - 1) (-23) - 2 ^ (- b) = scaled b (2 ^ 24 - 2) (-24)) as E2.
    { unfold scaled. replace (- b) with (24 + (-24 - b)) by lia.
      replace (-23 - b) with (1 + (-24 - b)) by lia.
      rewrite !pow2_split by lia. change (2 ^ 1) with 2.
      change (2 ^ 24) with 16777216. lia. }
    destruct (is_round_upper b _ _ (2 ^ 24 - 2) (-24) Hr Hb) as (Hn & Hv); [lia|lia|lia|].
    pose proof (is_round_valid _ _ _ _ Hr) as Vr.
    split; [done|]. apply (in_unit_iff b); [done..|].
    split; [by destruct (F32.sub _ _) as [| | |[]]|].
    split; [lia|].
    assert (scaled b (2 ^ 24 - 2) (-24) < 2 ^ (- b)); [|lia].
    unfold scaled. replace (- b) with (24 + (-24 - b)) by lia.
    rewrite pow2_split by lia. pose proof (pow2_pos (-24 - b) ltac:(lia)).
    change (2 ^ 24) with 16777216. nia.
  - split; [done|]. apply (in_unit_iff b); [done..|]. split; [done|lia].
Qed.

Lemma mul_valid x y :
  F32.valid x = true -> F32.valid y = true -> F32.valid (F32.mul x y) = true.
Proof.
  intros Hx Hy.
  destruct x as [sx|sx| |sx mx ex], y as [sy|sy| |sy my ey]; try done.
  eapply is_round_valid. by apply (mul_is_round (-298)).
Qed.

(** A rounded magnitude of negative sign that is not below zero is the
    negative zero. *)
Lemma is_round_neg_unit b v z :
  is_round b true v z -> in_unit z = true -> z = S754_zero true.
Proof.
  intros (m & e & e1 & m1 & _ & _ & _ & _ & ->). unfold pack.
  destruct (m1 =? 0); [done|].
  destruct (m1 =? 2 ^ 24); [by destruct (e1 + 1 <=? 104)|by destruct (e1 <=? 104)].
Qed.

(** When [0.1f * dt] is in the unit interval, so is [0.02f * dt]. *)
Lemma slower_rate_unit dt :
  F32.valid dt = true -> in_unit (F32.mul f0_1 dt) = true ->
  in_unit (F32.mul f0_02 dt) = true.
Proof.
  intros Vd Hu. rewrite f0_1_eq in Hu. rewrite f0_02_eq.
  destruct dt as [s|s| |s m e]; [done|by destruct s|done|].
  set (b := -298).
  pose proof (valid_finite_inv _ _ _ Vd) as (He & _).
  pose proof (mul_is_round b false 13421773 (-27) s m e ltac:(done) ltac:(done) Vd) as H1.
  pose proof (mul_is_round b false 10737418 (-29) s m e ltac:(done) ltac:(done) Vd) as H2.
  set (v1 := scaled b (13421773 * Z.pos m) (-27 + e)) in *.
  set (v2 := scaled b (10737418 * Z.pos m) (-29 + e)) in *.
  pose proof (pow2_pos (-29 + e - b) ltac:(lia)) as HP.
  assert (v1 = 4 * (13421773 * Z.pos m * 2 ^ (-29 + e - b))) as E1.
  { unfold v1, scaled. replace (-27 + e - b) with (2 + (-29 + e - b)) by lia.
    rewrite pow2_split by lia. change (2 ^ 2) with 4. lia. }
  assert (0 <= v2 /\ 4 * v2 <= v1) as [Hv2 Hv].
  { rewrite E1. unfold v2, scaled. nia. }
  destruct s; cbn [xorb] in *.
  - pose proof (is_round_neg_unit _ _ _ H1 Hu) as Hz.
    pose proof (is_round_zero_inv _ _ _ _ _ H1 ltac:(done) Hz) as Hs.
    pose proof (pow2_pos (-149 - b) ltac:(done)).
    rewrite (is_round_zero _ _ _ _ H2); [done|done|lia].
  - pose proof (is_round_valid _ _ _ _ H1) as V1.
    pose proof (is_round_valid _ _ _ _ H2) as V2.
    destruct (proj1 (in_unit_iff b _ ltac:(done) V1) Hu) as [F1 Hval].
    assert (v1 < 2 ^ (- b)) as Hlt.
    { destruct (Z_lt_ge_dec v1 (2 ^ (- b))) as [|Hge]; [done|exfalso].
      pose proof (is_round_lower b _ _ 8388608 (-23) H1 ltac:(done) ltac:(done)
                    ltac:(done) ltac:(exact (Z.ge_le _ _ Hge)) F1). 
      change (scaled b 8388608 (-23)) with (2 ^ (- b)) in *. lia. }
    destruct (is_round_upper b _ _ 8388608 (-25) H2) as (Hn & Hb2); [done..| |].
    { change (scaled b 8388608 (-25)) with (2 ^ (- b) / 4).
      change (2 ^ (- b)) with (4 * (2 ^ (- b) / 4)) in Hlt. lia. }
    apply (in_unit_iff b); [done..|].
    split; [by destruct (F32.mul (S754_finite false 10737418 (-29)) _) as [| | |[]]|].
    split; [lia|].
    change (scaled b 8388608 (-25)) with (2 ^ (- b) / 4) in Hb2.
    change (2 ^ (- b)) with (4 * (2 ^ (- b) / 4)).
    assert (0 < 2 ^ (- b) / 4) by done. lia.
Qed.

(** One scroll step keeps an offset in the unit interval. *)
Lemma scroll_unit t rate dt :
  F32.valid t = true -> F32.valid rate = true -> F32.valid dt = true ->
  in_unit t = true -> in_unit (F32.mul rate dt) = true ->
  F32.valid (scroll t rate dt) = true /\ in_unit (scroll t rate dt) = true.
Proof.
  intros Vt Vr Vd Ut Ua. unfold scroll. cbv zeta.
  pose proof (mul_valid _ _ Vr Vd) as Va.
  destruct (add_unit (-298) _ _ ltac:(done) Vt Va Ut Ua) as (V1 & F1 & H1).
  by apply (wrap_unit (-298)).
Qed.


(** ** Upload buffers *)

Section UploadBufferFacts.

Context {T : Type}.
Implicit Types (ub : UploadBuffer T) (ws : list (Z * T)).

Lemma CopyData_Some ub i d ub' :
  CopyData ub i d = Some ub' <->
  0 <= i < Z.of_nat (length (mMappedData ub)) /\
  ub' = mkUploadBuffer (Resource ub) (<[Z.to_nat i := d]> (mMappedData ub)).
Proof.
  unfold CopyData. case_bool_decide; split.
  - intros [= <-]. done.
  - intros [_ ->]. done.
  - done.
  - intros [? _]. lia.
Qed.

Lemma CopyData_is_Some ub i d :
  0 <= i < Z.of_nat (length (mMappedData ub)) -> is_Some (CopyData ub i d).
Proof. intros Hi. unfold CopyData. rewrite bool_decide_eq_true_2; eauto. Qed.

Lemma CopyData_length ub i d ub' :
  CopyData ub i d = Some ub' -> length (mMappedData ub') = length (mMappedData ub).
Proof. intros [_ ->]%CopyData_Some. simpl. apply length_insert. Qed.

Lemma CopyData_Resource ub i d ub' :
  CopyData ub i d = Some ub' -> Resource ub' = Resource ub.
Proof. intros [_ ->]%CopyData_Some. done. Qed.

Lemma CopyData_read_eq ub i d ub' :
  CopyData ub i d = Some ub' -> ub_read ub' i = Some d.
Proof.
  intros [Hi ->]%CopyData_Some. unfold ub_read. simpl.
  rewrite bool_decide_eq_true_2 by lia.
  apply list_lookup_insert_eq. lia.
Qed.

Lemma CopyData_read_ne ub i d ub' j :
  CopyData ub i d = Some ub' -> i <> j -> ub_read ub' j = ub_read ub j.
Proof.
  intros [Hi ->]%CopyData_Some Hne. unfold ub_read. simpl.
  case_bool_decide; [|done].
  apply list_lookup_insert_ne. lia.
Qed.

Lemma CopyData_all_length ub ws ub' :
  CopyData_all ub ws = Some ub' -> length (mMappedData ub') = length (mMappedData ub).
Proof.
  revert ub. induction ws as [|[i d] ws IH]; intros ub; simpl.
  - by intros [= ->].
  - destruct (CopyData ub i d) as [ub1|] eqn:E; simpl; [|done].
    intros H. rewrite (IH _ H). by eapply CopyData_length.
Qed.

Lemma CopyData_all_Resource ub ws ub' :
  CopyData_all ub ws = Some ub' -> Resource ub' = Resource ub.
Proof.
  revert ub. induction ws as [|[i d] ws IH]; intros ub; simpl.
  - by intros [= ->].
  - destruct (CopyData ub i d) as [ub1|] eqn:E; simpl; [|done].
    intros H. rewrite (IH _ H). by eapply CopyData_Resource.
Qed.

(** Writes inside the mapping never fail. *)
Lemma CopyData_all_is_Some ub ws :
  Forall (fun w => 0 <= w.1 < Z.of_nat (length (mMappedData ub))) ws ->
  is_Some (CopyData_all ub ws).
Proof.
  revert ub. induction ws as [|[i d] ws IH]; intros ub Hall; simpl; [eauto|].
  apply Forall_cons in Hall as [Hi Hall]. simpl in Hi.
  destruct (CopyData_is_Some ub i d Hi) as [ub1 E]. rewrite E. simpl.
  apply IH. by rewrite (CopyData_length _ _ _ _ E).
Qed.

(** A failed sequence has a write outside the mapping. *)
Lemma CopyData_all_Some_inv ub ws ub' :
  CopyData_all ub ws = Some ub' ->
  Forall (fun w => 0 <= w.1 < Z.of_nat (length (mMappedData ub))) ws.
Proof.
  revert ub. induction ws as [|[i d] ws IH]; intros ub; simpl; [by constructor|].
  destruct (CopyData ub i d) as [ub1|] eqn:E; simpl; [|done].
  intros H. constructor.
  - simpl. by apply CopyData_Some in E as [? _].
  - rewrite <- (CopyData_length _ _ _ _ E). by apply IH.
Qed.

(** An element no write addresses keeps its value. *)
Lemma CopyData_all_read_notin ub ws ub' j :
  CopyData_all ub ws = Some ub' -> j ∉ ws.*1 -> ub_read ub' j = ub_read ub j.
Proof.
  revert ub. induction ws as [|[i d] ws IH]; intros ub; simpl.
  - by intros [= ->].
  - destruct (CopyData ub i d) as [ub1|] eqn:E; simpl; [|done].
    intros H Hj. apply not_elem_of_cons in Hj as [Hne Hj].
    rewrite (IH _ H Hj). by eapply CopyData_read_ne.
Qed.

(** With pairwise distinct indices every write is visible at the end. *)
Lemma CopyData_all_read_in ub ws ub' i d :
  CopyData_all ub ws = Some ub' -> NoDup ws.*1 -> (i, d) ∈ ws ->
  ub_read ub' i = Some d.
Proof.
  revert ub. induction ws as [|[i0 d0] ws IH]; intros ub; simpl.
  - intros _ _ Hin. by apply elem_of_nil in Hin.
  - destruct (CopyData ub i0 d0) as [ub1|] eqn:E; simpl; [|done].
    intros H Hnd Hin. apply NoDup_cons in Hnd as [Hnotin Hnd].
    apply elem_of_cons in Hin as [[= -> ->]|Hin].
    + rewrite (CopyData_all_read_notin _ _ _ _ H Hnotin).
      by eapply CopyData_read_eq.
    + by eapply IH.
Qed.

End UploadBufferFacts.

(** ** The propagation loop *)

Section PropagateFacts.

Context {E T : Type}.
Variable NumFramesDirty : E -> Z.
Variable set_NumFramesDirty : Z -> E -> E.
Variable CBIndex : E -> Z.
Variable constants : E -> T.

#[local] Abbreviation loop := (propagate NumFramesDirty set_NumFramesDirty CBIndex constants).
#[local] Abbreviation elem := (pass_elem NumFramesDirty set_NumFramesDirty).
#[local] Abbreviation write := (pass_write NumFramesDirty CBIndex constants).

(** The loop issues the writes of its dirty elements, in order, and maps
    [pass_elem] over the container. *)
Lemma propagate_spec cb es :
  loop cb es = (fun cb' => (cb', elem <$> es)) <$> CopyData_all cb (omap write es).
Proof.
  revert cb. induction es as [|e es IH]; intros cb; simpl; [done|].
  unfold pass_write, pass_elem. destruct (0 <? NumFramesDirty e); simpl.
  - destruct (CopyData cb (CBIndex e) (constants e)) as [cb1|]; simpl; [|done].
    rewrite IH. by destruct (CopyData_all cb1 _).
  - rewrite IH. by destruct (CopyData_all cb _).
Qed.

Lemma propagate_Some cb es cb' es' :
  loop cb es = Some (cb', es') <->
  CopyData_all cb (omap write es) = Some cb' /\ es' = elem <$> es.
Proof.
  rewrite propagate_spec. destruct (CopyData_all cb _); simpl; naive_solver.
Qed.

Lemma pass_write_index e w : write e = Some w -> w.1 = CBIndex e.
Proof. unfold pass_write. destruct (0 <? _); [by intros [= <-]|done]. Qed.

Lemma propagate_is_Some cb es :
  Forall (fun e => 0 <= CBIndex e < Z.of_nat (length (mMappedData cb))) es ->
  is_Some (loop cb es).
Proof.
  intros Hall. rewrite propagate_spec. apply fmap_is_Some, CopyData_all_is_Some.
  induction Hall as [|e es He _ IH]; simpl; [constructor|].
  destruct (write e) as [w|] eqn:Ew; [|done].
  constructor; [|done]. by rewrite (pass_write_index _ _ Ew).
Qed.

Lemma pass_write_Some e w :
  write e = Some w <-> 0 < NumFramesDirty e /\ w = (CBIndex e, constants e).
Proof.
  unfold pass_write. destruct (Z.ltb_spec 0 (NumFramesDirty e)); naive_solver lia.
Qed.

Lemma pass_write_None e : write e = None <-> NumFramesDirty e <= 0.
Proof.
  unfold pass_write. destruct (Z.ltb_spec 0 (NumFramesDirty e)); naive_solver lia.
Qed.

Lemma pass_writes_elem i es :
  i ∈ (omap write es).*1 ->
  exists e, e ∈ es /\ 0 < NumFramesDirty e /\ CBIndex e = i.
Proof.
  intros ([j d] & -> & (e & He & [Hd [= -> ->]]%pass_write_Some)%list_elem_of_omap)
         %list_elem_of_fmap.
  eauto.
Qed.

Lemma pass_writes_NoDup es : NoDup (CBIndex <$> es) -> NoDup (omap write es).*1.
Proof.
  induction es as [|e es IH]; simpl; [constructor|].
  intros [Hnotin Hnd]%NoDup_cons.
  destruct (write e) as [w|] eqn:Ew; simpl; [|by apply IH].
  apply NoDup_cons. split; [|by apply IH].
  rewrite (pass_write_index _ _ Ew). intros (e' & He' & _ & Hi)%pass_writes_elem.
  apply Hnotin. rewrite <- Hi. apply list_elem_of_fmap. eauto.
Qed.

(** With distinct indices, after a pass the buffer holds the constants of
    every element that was dirty, and an element that was clean is not
    written. *)
Lemma propagate_read_dirty cb es cb' es' e :
  loop cb es = Some (cb', es') -> NoDup (CBIndex <$> es) ->
  e ∈ es -> 0 < NumFramesDirty e ->
  ub_read cb' (CBIndex e) = Some (constants e).
Proof.
  intros [Hcb _]%propagate_Some Hnd He Hd.
  eapply CopyData_all_read_in; [done|by apply pass_writes_NoDup|].
  apply list_elem_of_omap. exists e. split; [done|]. by apply pass_write_Some.
Qed.

Lemma NoDup_fmap_eq {A B} (f : A -> B) (l : list A) x y :
  NoDup (f <$> l) -> x ∈ l -> y ∈ l -> f x = f y -> x = y.
Proof.
  induction l as [|a l IH]; simpl; [by intros _ ?%elem_of_nil|].
  intros [Hnotin Hnd]%NoDup_cons [->|Hx]%elem_of_cons [->|Hy]%elem_of_cons Hf.
  - done.
  - exfalso. apply Hnotin. rewrite Hf. apply list_elem_of_fmap. eauto.
  - exfalso. apply Hnotin. rewrite <- Hf. apply list_elem_of_fmap. eauto.
  - by apply IH.
Qed.

Lemma propagate_clean_not_written es e :
  NoDup (CBIndex <$> es) -> e ∈ es -> NumFramesDirty e <= 0 ->
  CBIndex e ∉ (omap write es).*1.
Proof.
  intros Hnd He Hd (e' & He' & Hd' & Hi)%pass_writes_elem.
  assert (e' = e) as -> by (by eapply (NoDup_fmap_eq CBIndex)). lia.
Qed.

Lemma propagate_read_clean cb es cb' es' e :
  loop cb es = Some (cb', es') -> NoDup (CBIndex <$> es) ->
  e ∈ es -> NumFramesDirty e <= 0 ->
  ub_read cb' (CBIndex e) = ub_read cb (CBIndex e).
Proof.
  intros [Hcb _]%propagate_Some Hnd He Hd.
  eapply CopyData_all_read_notin; [done|]. by apply propagate_clean_not_written.
Qed.

End PropagateFacts.

(** ** The frame resource in use *)

Section FrameFacts.

Context `{DX : DirectXMath} {Waves : Type} `{WA : WavesAPI Waves}.

#[local] Abbreviation App := (CastleApp Waves).
Implicit Types (s : App) (fr : FrameResource).

Lemma curr_Some s fr :
  curr s = Some fr <->
  exists i, mCurrFrameResource s = Some i /\ mFrameResources s !! i = Some fr.
Proof.
  unfold curr. destruct (mCurrFrameResource s) as [i|]; simpl; naive_solver.
Qed.

Lemma set_curr_Some fr s s' :
  set_curr fr s = Some s' <->
  exists i, mCurrFrameResource s = Some i /\ is_Some (mFrameResources s !! i) /\
            s' = set_mFrameResources (<[i := fr]> (mFrameResources s)) s.
Proof.
  unfold set_curr. destruct (mCurrFrameResource s) as [i|]; simpl; [|naive_solver].
  destruct (mFrameResources s !! i) as [fr0|] eqn:E; simpl.
  - split; [intros [= <-]; eauto|]. by intros (? & [= <-] & _ & ->).
  - split; [done|]. intros (? & [= <-] & [? ?] & _). congruence.
Qed.

Lemma curr_set_curr fr s s' : set_curr fr s = Some s' -> curr s' = Some fr.
Proof.
  intros (i & Hi & [fr0 Hfr] & ->)%set_curr_Some. apply curr_Some. exists i.
  destruct s; simpl in *. split; [done|].
  apply list_lookup_insert_eq. by eapply lookup_lt_Some.
Qed.

Lemma set_curr_is_Some fr s : is_Some (curr s) -> is_Some (set_curr fr s).
Proof.
  intros [fr0 (i & Hi & Hfr)%curr_Some]. unfold set_curr.
  rewrite Hi. simpl. rewrite Hfr. simpl. eauto.
Qed.

(** *** What each step of [Update] and [Draw] does *)

#[local] Abbreviation ri_elem := (pass_elem ri_NumFramesDirty ri_set_NumFramesDirty).
#[local] Abbreviation ri_write :=
  (pass_write ri_NumFramesDirty (fun e => int_of_UINT (ObjCBIndex e)) objConstants).
#[local] Abbreviation mat_elem :=
  (pass_elem (fun e : string * Material => mat_NumFramesDirty e.2) mat_entry_set_dirty).
#[local] Abbreviation mat_write :=
  (pass_write (fun e : string * Material => mat_NumFramesDirty e.2)
              (fun e => MatCBIndex e.2) (fun e => matConstants e.2)).

Lemma cycle_Some s s' :
  cycle s = Some s' <->
  (next_index s < length (mFrameResources s))%nat /\
  0 <= Z.rem (mCurrFrameResourceIndex s + 1) gNumFrameResources /\
  s' = set_mCurrFrameResource (Some (next_index s))
         (set_mCurrFrameResourceIndex
            (Z.rem (mCurrFrameResourceIndex s + 1) gNumFrameResources) s).
Proof.
  unfold cycle, next_index. case_bool_decide as Hi; split.
  - intros [= <-]. split; [lia|]. split; [lia|done].
  - by intros (_ & _ & ->).
  - done.
  - intros (? & ? & _). lia.
Qed.

Lemma Update_front_Some key1 s s' :
  Update_front key1 s = Some s' <->
  (next_index s < length (mFrameResources s))%nat /\
  0 <= Z.rem (mCurrFrameResourceIndex s + 1) gNumFrameResources /\
  s' = set_mCurrFrameResource (Some (next_index s))
         (set_mCurrFrameResourceIndex
            (Z.rem (mCurrFrameResourceIndex s + 1) gNumFrameResources)
            (UpdateCamera (OnKeyboardInput key1 s))).
Proof. unfold Update_front. rewrite cycle_Some. by destruct s. Qed.

Lemma UpdateObjectCBs_Some s s' :
  UpdateObjectCBs s = Some s' <->
  exists i fr cb,
    mCurrFrameResource s = Some i /\ mFrameResources s !! i = Some fr /\
    CopyData_all (ObjectCB fr) (omap ri_write (mAllRitems s)) = Some cb /\
    s' = set_mFrameResources (<[i := set_ObjectCB cb fr]> (mFrameResources s))
           (set_mAllRitems (ri_elem <$> mAllRitems s) s).
Proof.
  unfold UpdateObjectCBs, UpdateObjectCBs_loop. split.
  - destruct (curr s) as [fr|] eqn:Hc; simpl; [|done].
    apply curr_Some in Hc as (i & Hi & Hfr).
    destruct (propagate _ _ _ _ _ _) as [[cb es]|] eqn:Hp; simpl; [|done].
    apply propagate_Some in Hp as [Hcb ->].
    intros (j & Hj & _ & ->)%set_curr_Some.
    destruct s; simpl in *. exists i, fr, cb. naive_solver.
  - intros (i & fr & cb & Hi & Hfr & Hcb & ->).
    assert (curr s = Some fr) as -> by (apply curr_Some; eauto). simpl.
    rewrite propagate_spec, Hcb. simpl.
    apply set_curr_Some. exists i. destruct s; simpl in *. eauto.
Qed.

Lemma UpdateMaterialCBs_Some s s' :
  UpdateMaterialCBs s = Some s' <->
  exists i fr cb,
    mCurrFrameResource s = Some i /\ mFrameResources s !! i = Some fr /\
    CopyData_all (MaterialCB fr) (omap mat_write (mMaterials s)) = Some cb /\
    s' = set_mFrameResources (<[i := set_MaterialCB cb fr]> (mFrameResources s))
           (set_mMaterials (mat_elem <$> mMaterials s) s).
Proof.
  unfold UpdateMaterialCBs, UpdateMaterialCBs_loop. split.
  - destruct (curr s) as [fr|] eqn:Hc; simpl; [|done].
    apply curr_Some in Hc as (i & Hi & Hfr).
    destruct (propagate _ _ _ _ _ _) as [[cb es]|] eqn:Hp; simpl; [|done].
    apply propagate_Some in Hp as [Hcb ->].
    intros (j & Hj & _ & ->)%set_curr_Some.
    destruct s; simpl in *. exists i, fr, cb. naive_solver.
  - intros (i & fr & cb & Hi & Hfr & Hcb & ->).
    assert (curr s = Some fr) as -> by (apply curr_Some; eauto). simpl.
    rewrite propagate_spec, Hcb. simpl.
    apply set_curr_Some. exists i. destruct s; simpl in *. eauto.
Qed.

Lemma UpdateMainPassCB_Some gt s s' :
  UpdateMainPassCB gt s = Some s' <->
  exists i fr cb,
    mCurrFrameResource s = Some i /\ mFrameResources s !! i = Some fr /\
    CopyData (PassCB fr) 0 (main_pass gt s) = Some cb /\
    s' = set_mFrameResources (<[i := set_PassCB cb fr]> (mFrameResources s))
           (set_mMainPassCB (main_pass gt s) s).
Proof.
  unfold UpdateMainPassCB. split.
  - destruct (curr _) as [fr|] eqn:Hc; simpl; [|done].
    apply curr_Some in Hc as (i & Hi & Hfr).
    destruct (CopyData _ _ _) as [cb|] eqn:Hcb; simpl; [|done].
    intros (j & Hj & _ & ->)%set_curr_Some.
    destruct s; simpl in *. exists i, fr, cb. naive_solver.
  - intros (i & fr & cb & Hi & Hfr & Hcb & ->).
    assert (curr (set_mMainPassCB (main_pass gt s) s) = Some fr) as ->.
    { apply curr_Some. destruct s; simpl in *. eauto. }
    simpl. destruct s; simpl in *. rewrite Hcb. simpl.
    apply set_curr_Some. exists i. simpl. eauto.
Qed.

Lemma UpdateWater_Some gt s s' :
  UpdateWater gt s = Some s' <->
  exists waterMat i fr vb r item g,
    alist_lookup "water" (mMaterials s) = Some waterMat /\
    mCurrFrameResource s = Some i /\ mFrameResources s !! i = Some fr /\
    CopyData_all (WavesVB fr)
      (wave_writes (Waves_Update (mWaves s) (gt_DeltaTime gt))) = Some vb /\
    mWavesRitem s = Some r /\ mAllRitems s !! r = Some item /\ Geo item = Some g /\
    is_Some (mGeometries s !! g) /\
    s' = set_mGeometries (<[g := mkMeshGeometry (Some (Resource vb))]> (mGeometries s))
           (set_mFrameResources (<[i := set_WavesVB vb fr]> (mFrameResources s))
              (set_mWaves (Waves_Update (mWaves s) (gt_DeltaTime gt))
                 (set_mMaterials
                    (alist_set "water"
                       (mat_set_NumFramesDirty gNumFrameResources
                          (mat_set_MatTransform
                             (scroll_water (gt_DeltaTime gt) (MatTransform waterMat))
                             waterMat))
                       (mMaterials s)) s))).
Proof.
  unfold UpdateWater. split.
  - destruct (alist_lookup _ _) as [waterMat|] eqn:Hw; simpl; [|done].
    destruct (curr _) as [fr|] eqn:Hc; simpl; [|done].
    apply curr_Some in Hc as (i & Hi & Hfr).
    destruct (CopyData_all _ _) as [vb|] eqn:Hvb; simpl; [|done].
    destruct (set_curr _ _) as [s3|] eqn:Hs3; simpl; [|done].
    apply set_curr_Some in Hs3 as (j & Hj & _ & ->).
    destruct s; simpl in *.
    destruct mWavesRitem0 as [r|]; simpl; [|done].
    destruct (mAllRitems0 !! r) as [item|] eqn:Hitem; simpl; [|done].
    destruct (Geo item) as [g|] eqn:Hg; simpl; [|done].
    destruct (mGeometries0 !! g) as [geo|] eqn:Hgeo; simpl; [|done].
    intros [= <-]. exists waterMat, i, fr, vb, r, item, g.
    assert (j = i) as -> by congruence. eauto 10.
  - intros (waterMat & i & fr & vb & r & item & g & Hw & Hi & Hfr & Hvb & Hr & Hitem
            & Hg & [geo Hgeo] & ->).
    rewrite Hw. simpl. destruct s; simpl in *.
    unfold curr, set_curr. simpl. rewrite Hi. simpl. rewrite Hfr. simpl.
    rewrite Hvb. simpl. rewrite Hr. simpl. rewrite Hitem. simpl. rewrite Hg. simpl.
    rewrite Hgeo. simpl. done.
Qed.

Lemma Draw_Some s s' v :
  Draw s = Some (s', v) <->
  exists i fr,
    mCurrFrameResource s = Some i /\ mFrameResources s !! i = Some fr /\
    v = (mCurrentFence s + 1) mod 2 ^ 64 /\
    s' = set_mFrameResources (<[i := set_Fence v fr]> (mFrameResources s))
           (set_mCurrentFence v s).
Proof.
  unfold Draw. split.
  - destruct (curr s) as [fr|] eqn:Hc; simpl; [|done].
    apply curr_Some in Hc as (i & Hi & Hfr).
    destruct (set_curr _ _) as [s2|] eqn:Hs2; simpl; [|done].
    apply set_curr_Some in Hs2 as (j & Hj & _ & ->).
    destruct s; simpl in *. intros [= <- <-]. exists i, fr. naive_solver.
  - intros (i & fr & Hi & Hfr & -> & ->).
    assert (curr s = Some fr) as -> by (apply curr_Some; eauto). simpl.
    destruct s; simpl in *. unfold set_curr. simpl. rewrite Hi. simpl.
    rewrite Hfr. simpl. done.
Qed.

End FrameFacts.

(** ** Invariance of the shape and of the ring *)

Section ShapeFacts.

Context `{DX : DirectXMath} {Waves : Type} `{WA : WavesAPI Waves}.

#[local] Abbreviation App := (CastleApp Waves).
Implicit Types (s : App) (fr : FrameResource).

Lemma same_shape_refl s : same_shape s s.
Proof. by constructor. Qed.

Lemma same_shape_trans s1 s2 s3 : same_shape s1 s2 -> same_shape s2 s3 -> same_shape s1 s3.
Proof. intros [] []. constructor; congruence. Qed.

Lemma same_ring_refl s : same_ring s s.
Proof. by constructor. Qed.

Lemma same_ring_trans s1 s2 s3 : same_ring s1 s2 -> same_ring s2 s3 -> same_ring s1 s3.
Proof. intros [] []. constructor; congruence. Qed.

Lemma fmap_insert_same {A B} (f : A -> B) (l : list A) i x y :
  l !! i = Some x -> f y = f x -> f <$> <[i := y]> l = f <$> l.
Proof.
  intros Hx Hf. rewrite list_fmap_insert, Hf. apply list_insert_id.
  by rewrite list_lookup_fmap, Hx.
Qed.

Lemma alist_set_fmap {V B} (f : string * V -> B) k v (l : list (string * V)) :
  (forall v', alist_lookup k l = Some v' -> f (k, v) = f (k, v')) ->
  f <$> alist_set k v l = f <$> l.
Proof.
  induction l as [|[k' v'] l IH]; simpl; [done|]. intros Hf.
  destruct (decide (k = k')) as [->|Hne]; simpl.
  - f_equal. apply Hf. done.
  - f_equal. apply IH. done.
Qed.

Lemma alist_lookup_set {V} k (v : V) l :
  is_Some (alist_lookup k l) -> alist_lookup k (alist_set k v l) = Some v.
Proof.
  induction l as [|[k' v'] l IH]; simpl; [by intros [? ?]|].
  destruct (decide (k = k')) as [->|Hne]; simpl.
  - by rewrite decide_True.
  - by rewrite decide_False.
Qed.

Lemma alist_lookup_set_ne {V} k k' (v : V) l :
  k <> k' -> alist_lookup k' (alist_set k v l) = alist_lookup k' l.
Proof.
  intros Hne. induction l as [|[k0 v0] l IH]; simpl; [done|].
  destruct (decide (k = k0)) as [->|Hne0]; simpl.
  - by rewrite !decide_False by done.
  - destruct (decide (k' = k0)); [done|]. apply IH.
Qed.

Lemma alist_lookup_fmap_keep {V} (f : string * V -> string * V) k l :
  (forall e, (f e).1 = e.1) ->
  alist_lookup k (f <$> l) = (fun v => (f (k, v)).2) <$> alist_lookup k l.
Proof.
  intros Hf. induction l as [|[k0 v0] l IH]; simpl; [done|].
  specialize (Hf (k0, v0)). destruct (f (k0, v0)) as [k1 v1] eqn:E. simpl in Hf. subst k1.
  destruct (decide (k = k0)) as [->|Hne]; simpl; [by rewrite E|done].
Qed.

Lemma pass_elem_ObjCBIndex e :
  ObjCBIndex (pass_elem ri_NumFramesDirty ri_set_NumFramesDirty e) = ObjCBIndex e.
Proof. unfold pass_elem. by destruct (0 <? _). Qed.

Lemma pass_elem_Geo e :
  Geo (pass_elem ri_NumFramesDirty ri_set_NumFramesDirty e) = Geo e.
Proof. unfold pass_elem. by destruct (0 <? _). Qed.

Lemma pass_elem_mat_key (e : string * Material) :
  let e' := pass_elem (fun e : string * Material => mat_NumFramesDirty e.2)
              mat_entry_set_dirty e in
  (e'.1, MatCBIndex e'.2) = (e.1, MatCBIndex e.2).
Proof. unfold pass_elem. by destruct (0 <? _). Qed.

Lemma Update_front_shape key1 s s' : Update_front key1 s = Some s' -> same_shape s s'.
Proof. intros (_ & _ & ->)%Update_front_Some. by destruct s. Qed.

Lemma UpdateObjectCBs_shape s s' : UpdateObjectCBs s = Some s' -> same_shape s s'.
Proof.
  intros (i & fr & cb & Hi & Hfr & Hcb & ->)%UpdateObjectCBs_Some.
  destruct s; simpl in *. constructor; simpl; try done.
  - apply (fmap_insert_same _ _ _ fr); [done|]. unfold sizes. simpl.
    by rewrite (CopyData_all_length _ _ _ Hcb).
  - by apply (fmap_insert_same _ _ _ fr).
  - rewrite <- list_fmap_compose. apply list_fmap_ext. intros ? e _. apply pass_elem_ObjCBIndex.
  - rewrite <- list_fmap_compose. apply list_fmap_ext. intros ? e _. apply pass_elem_Geo.
Qed.

Lemma UpdateMaterialCBs_shape s s' : UpdateMaterialCBs s = Some s' -> same_shape s s'.
Proof.
  intros (i & fr & cb & Hi & Hfr & Hcb & ->)%UpdateMaterialCBs_Some.
  destruct s; simpl in *. constructor; simpl; try done.
  - apply (fmap_insert_same _ _ _ fr); [done|]. unfold sizes. simpl.
    by rewrite (CopyData_all_length _ _ _ Hcb).
  - by apply (fmap_insert_same _ _ _ fr).
  - rewrite <- list_fmap_compose. apply list_fmap_ext. intros ? e _. apply pass_elem_mat_key.
Qed.

Lemma UpdateMainPassCB_shape gt s s' : UpdateMainPassCB gt s = Some s' -> same_shape s s'.
Proof.
  intros (i & fr & cb & Hi & Hfr & Hcb & ->)%UpdateMainPassCB_Some.
  destruct s; simpl in *. constructor; simpl; try done.
  - apply (fmap_insert_same _ _ _ fr); [done|]. unfold sizes. simpl.
    by rewrite (CopyData_length _ _ _ _ Hcb).
  - by apply (fmap_insert_same _ _ _ fr).
Qed.

Lemma UpdateWater_shape gt s s' : UpdateWater gt s = Some s' -> same_shape s s'.
Proof.
  intros (waterMat & i & fr & vb & r & item & g & Hw & Hi & Hfr & Hvb & Hr & Hitem
          & Hg & Hgeo & ->)%UpdateWater_Some.
  destruct s; simpl in *. constructor; simpl; try done.
  - apply (fmap_insert_same _ _ _ fr); [done|]. unfold sizes. simpl.
    by rewrite (CopyData_all_length _ _ _ Hvb).
  - apply (fmap_insert_same _ _ _ fr); [done|]. simpl.
    by apply CopyData_all_Resource in Hvb.
  - apply alist_set_fmap.
    intros v' Hv'. rewrite Hw in Hv'. by injection Hv' as <-.
  - apply Waves_VertexCount_Update.
  - apply set_eq. intros k. rewrite !elem_of_dom, lookup_insert.
    case_decide; subst; [|done]. split; [done|]. intros _. eauto.
Qed.

Lemma Draw_shape s s' v : Draw s = Some (s', v) -> same_shape s s'.
Proof.
  intros (i & fr & Hi & Hfr & -> & ->)%Draw_Some.
  destruct s; simpl in *. constructor; simpl; try done.
  - by apply (fmap_insert_same _ _ _ fr).
  - by apply (fmap_insert_same _ _ _ fr).
Qed.

Lemma UpdateObjectCBs_ring s s' : UpdateObjectCBs s = Some s' -> same_ring s s'.
Proof.
  intros (i & fr & cb & Hi & Hfr & Hcb & ->)%UpdateObjectCBs_Some.
  destruct s; simpl in *. constructor; simpl; try done.
  by apply (fmap_insert_same _ _ _ fr).
Qed.

Lemma UpdateMaterialCBs_ring s s' : UpdateMaterialCBs s = Some s' -> same_ring s s'.
Proof.
  intros (i & fr & cb & Hi & Hfr & Hcb & ->)%UpdateMaterialCBs_Some.
  destruct s; simpl in *. constructor; simpl; try done.
  by apply (fmap_insert_same _ _ _ fr).
Qed.

Lemma UpdateMainPassCB_ring gt s s' : UpdateMainPassCB gt s = Some s' -> same_ring s s'.
Proof.
  intros (i & fr & cb & Hi & Hfr & Hcb & ->)%UpdateMainPassCB_Some.
  destruct s; simpl in *. constructor; simpl; try done.
  by apply (fmap_insert_same _ _ _ fr).
Qed.

Lemma UpdateWater_ring gt s s' : UpdateWater gt s = Some s' -> same_ring s s'.
Proof.
  intros (waterMat & i & fr & vb & r & item & g & Hw & Hi & Hfr & Hvb & Hr & Hitem
          & Hg & Hgeo & ->)%UpdateWater_Some.
  destruct s; simpl in *. constructor; simpl; try done.
  by apply (fmap_insert_same _ _ _ fr).
Qed.

Lemma Update_back_Some gt s s' :
  Update_back gt s = Some s' <->
  exists s1 s2 s3,
    UpdateWater gt s = Some s1 /\ UpdateObjectCBs s1 = Some s2 /\
    UpdateMaterialCBs s2 = Some s3 /\ UpdateMainPassCB gt s3 = Some s'.
Proof.
  unfold Update_back. split.
  - destruct (UpdateWater gt s) as [s1|] eqn:E1; simpl; [|done].
    destruct (UpdateObjectCBs s1) as [s2|] eqn:E2; simpl; [|done].
    destruct (UpdateMaterialCBs s2) as [s3|] eqn:E3; simpl; [|done].
    intros H. eauto 10.
  - intros (s1 & s2 & s3 & -> & H2 & H3 & H4). simpl. rewrite H2. simpl.
    rewrite H3. simpl. done.
Qed.

Lemma Update_back_shape gt s s' : Update_back gt s = Some s' -> same_shape s s'.
Proof.
  intros (s1 & s2 & s3 & H1 & H2 & H3 & H4)%Update_back_Some.
  eapply same_shape_trans; [by eapply UpdateWater_shape|].
  eapply same_shape_trans; [by eapply UpdateObjectCBs_shape|].
  eapply same_shape_trans; [by eapply UpdateMaterialCBs_shape|].
  by eapply UpdateMainPassCB_shape.
Qed.

Lemma Update_back_ring gt s s' : Update_back gt s = Some s' -> same_ring s s'.
Proof.
  intros (s1 & s2 & s3 & H1 & H2 & H3 & H4)%Update_back_Some.
  eapply same_ring_trans; [by eapply UpdateWater_ring|].
  eapply same_ring_trans; [by eapply UpdateObjectCBs_ring|].
  eapply same_ring_trans; [by eapply UpdateMaterialCBs_ring|].
  by eapply UpdateMainPassCB_ring.
Qed.

End ShapeFacts.

(** ** Well-formed states stay well-formed, and a frame always runs *)

Section Progress.

Context `{DX : DirectXMath} {Waves : Type} `{WA : WavesAPI Waves}.

#[local] Abbreviation App := (CastleApp Waves).
Implicit Types (s : App) (fr : FrameResource).

Lemma fits_fits_sizes s fr :
  fits s fr <->
  fits_sizes (ObjCBIndex <$> mAllRitems s)
    ((fun e : string * Material => (e.1, MatCBIndex e.2)) <$> mMaterials s)
    (Waves_VertexCount (mWaves s)) (sizes fr).
Proof.
  unfold fits, fits_sizes, sizes. simpl. rewrite !Forall_fmap. done.
Qed.

Lemma alist_lookup_is_Some {V} k (l : list (string * V)) :
  is_Some (alist_lookup k l) <-> k ∈ l.*1.
Proof.
  induction l as [|[k' v] l IH]; simpl.
  - split; [by intros [? ?]|]. by intros ?%elem_of_nil.
  - rewrite elem_of_cons. destruct (decide (k = k')) as [->|Hne].
    + split; eauto.
    + rewrite IH. naive_solver.
Qed.

Lemma WF_same_shape s s' :
  WF s -> same_shape s s' ->
  0 <= mCurrFrameResourceIndex s' < gNumFrameResources ->
  0 <= mCurrentFence s' <= UINT64_MAX -> WF s'.
Proof.
  intros [Hlen _ _ Hfits Hwater (r & item & g & Hr & Hitem & Hg & Hgeo)] Hsh Hidx Hctr.
  destruct Hsh as [Hsz _ Hobj Hgeos Hmat Hcount Hritem Hdom].
  constructor.
  - rewrite <- Hlen. f_equal.
    rewrite <- (length_fmap sizes), Hsz. apply length_fmap.
  - done.
  - done.
  - assert (forall t : App, Forall (fits t) (mFrameResources t) <->
      Forall (fits_sizes (ObjCBIndex <$> mAllRitems t)
                ((fun e : string * Material => (e.1, MatCBIndex e.2)) <$> mMaterials t)
                (Waves_VertexCount (mWaves t))) (sizes <$> mFrameResources t)) as E.
    { intros t. rewrite Forall_fmap. apply Forall_proper; [|done].
      intros fr. apply fits_fits_sizes. }
    apply E. rewrite Hsz, Hobj, Hmat, Hcount. by apply E.
  - apply alist_lookup_is_Some. apply alist_lookup_is_Some in Hwater.
    assert (forall l : list (string * Material),
      l.*1 = ((fun e : string * Material => (e.1, MatCBIndex e.2)) <$> l).*1) as E.
    { intros l. rewrite <- list_fmap_compose. done. }
    rewrite E, Hmat, <- E. done.
  - assert ((Geo <$> mAllRitems s') !! r = Some (Some g)) as Hl.
    { rewrite Hgeos, list_lookup_fmap, Hitem. simpl. by rewrite Hg. }
    rewrite list_lookup_fmap in Hl.
    destruct (mAllRitems s' !! r) as [item'|] eqn:E; simpl in Hl; [|done].
    exists r, item', g. split; [congruence|]. split; [done|]. split; [congruence|].
    apply elem_of_dom. rewrite Hdom. by apply elem_of_dom.
Qed.

Lemma same_ring_curr s s' :
  same_ring s s' -> is_Some (curr s) -> is_Some (curr s').
Proof.
  intros [Hc _ _ Hf] [fr (i & Hi & Hfr)%curr_Some].
  assert (is_Some (mFrameResources s' !! i)) as [fr' Hfr'].
  { apply lookup_lt_is_Some. rewrite <- (length_fmap Fence), Hf, length_fmap.
    by eapply lookup_lt_Some. }
  exists fr'. apply curr_Some. exists i. split; [congruence|done].
Qed.

Lemma in_frame_step s s' :
  in_frame s -> same_shape s s' -> same_ring s s' -> in_frame s'.
Proof.
  intros [Hwf Hc] Hsh Hrg. split.
  - eapply WF_same_shape; [done..| |].
    + rewrite (rg_index _ _ Hrg). apply Hwf.
    + rewrite (rg_fence _ _ Hrg). apply Hwf.
  - by eapply same_ring_curr.
Qed.

Lemma in_frame_fits s fr : in_frame s -> curr s = Some fr -> fits s fr.
Proof.
  intros [Hwf _] (i & _ & Hfr)%curr_Some.
  eapply (Forall_lookup_1 _ _ _ _ (wf_fits _ Hwf) Hfr).
Qed.

Lemma wave_writes_indices (w : Waves) :
  (wave_writes w).*1 = seqZ 0 (Waves_VertexCount w).
Proof.
  unfold wave_writes. rewrite <- list_fmap_compose. apply list_fmap_id.
Qed.

Lemma UpdateWater_total gt s :
  in_frame s -> exists s', UpdateWater gt s = Some s' /\ in_frame s'.
Proof.
  intros Hin. pose proof Hin as [Hwf [fr Hc]].
  pose proof (in_frame_fits _ _ Hin Hc) as (_ & _ & _ & Hcount).
  pose proof Hc as (i & Hi & Hfr)%curr_Some.
  destruct (wf_water _ Hwf) as [waterMat Hw].
  destruct (wf_ritem _ Hwf) as (r & item & g & Hr & Hitem & Hg & Hgeo).
  destruct (CopyData_all_is_Some (WavesVB fr)
              (wave_writes (Waves_Update (mWaves s) (gt_DeltaTime gt)))) as [vb Hvb].
  { apply (Forall_fmap fst (fun i => 0 <= i < _)).
    rewrite wave_writes_indices, Waves_VertexCount_Update.
    apply Forall_forall. intros j Hj%elem_of_seqZ. lia. }
  assert (exists s', UpdateWater gt s = Some s') as [s' Hs'].
  { eexists. apply UpdateWater_Some. exists waterMat, i, fr, vb, r, item, g. eauto 12. }
  exists s'. split; [done|].
  eapply in_frame_step; [done|by eapply UpdateWater_shape|by eapply UpdateWater_ring].
Qed.

Lemma UpdateObjectCBs_total s :
  in_frame s -> exists s', UpdateObjectCBs s = Some s' /\ in_frame s'.
Proof.
  intros Hin. pose proof Hin as [Hwf [fr Hc]].
  pose proof (in_frame_fits _ _ Hin Hc) as (_ & Hobj & _ & _).
  pose proof Hc as (i & Hi & Hfr)%curr_Some.
  destruct (propagate_is_Some ri_NumFramesDirty ri_set_NumFramesDirty
              (fun e => int_of_UINT (ObjCBIndex e)) objConstants
              (ObjectCB fr) (mAllRitems s) Hobj) as [[cb es] Hp].
  apply propagate_Some in Hp as [Hcb ->].
  assert (exists s', UpdateObjectCBs s = Some s') as [s' Hs'].
  { eexists. apply UpdateObjectCBs_Some. eauto 10. }
  exists s'. split; [done|].
  eapply in_frame_step; [done|by eapply UpdateObjectCBs_shape|by eapply UpdateObjectCBs_ring].
Qed.

Lemma UpdateMaterialCBs_total s :
  in_frame s -> exists s', UpdateMaterialCBs s = Some s' /\ in_frame s'.
Proof.
  intros Hin. pose proof Hin as [Hwf [fr Hc]].
  pose proof (in_frame_fits _ _ Hin Hc) as (_ & _ & Hmat & _).
  pose proof Hc as (i & Hi & Hfr)%curr_Some.
  destruct (propagate_is_Some (fun e : string * Material => mat_NumFramesDirty e.2)
              mat_entry_set_dirty (fun e => MatCBIndex e.2) (fun e => matConstants e.2)
              (MaterialCB fr) (mMaterials s) Hmat) as [[cb es] Hp].
  apply propagate_Some in Hp as [Hcb ->].
  assert (exists s', UpdateMaterialCBs s = Some s') as [s' Hs'].
  { eexists. apply UpdateMaterialCBs_Some. eauto 10. }
  exists s'. split; [done|].
  eapply in_frame_step;
    [done|by eapply UpdateMaterialCBs_shape|by eapply UpdateMaterialCBs_ring].
Qed.

Lemma UpdateMainPassCB_total gt s :
  in_frame s -> exists s', UpdateMainPassCB gt s = Some s' /\ in_frame s'.
Proof.
  intros Hin. pose proof Hin as [Hwf [fr Hc]].
  pose proof (in_frame_fits _ _ Hin Hc) as (Hpass & _ & _ & _).
  pose proof Hc as (i & Hi & Hfr)%curr_Some.
  destruct (CopyData_is_Some (PassCB fr) 0 (main_pass gt s)) as [cb Hcb]; [lia|].
  assert (exists s', UpdateMainPassCB gt s = Some s') as [s' Hs'].
  { eexists. apply UpdateMainPassCB_Some. eauto 10. }
  exists s'. split; [done|].
  eapply in_frame_step;
    [done|by eapply UpdateMainPassCB_shape|by eapply UpdateMainPassCB_ring].
Qed.

Lemma Update_back_total gt s :
  in_frame s -> exists s', Update_back gt s = Some s' /\ in_frame s'.
Proof.
  intros Hin.
  destruct (UpdateWater_total gt s Hin) as (s1 & H1 & Hin1).
  destruct (UpdateObjectCBs_total s1 Hin1) as (s2 & H2 & Hin2).
  destruct (UpdateMaterialCBs_total s2 Hin2) as (s3 & H3 & Hin3).
  destruct (UpdateMainPassCB_total gt s3 Hin3) as (s4 & H4 & Hin4).
  exists s4. split; [|done]. apply Update_back_Some. eauto 10.
Qed.

Lemma rem_ring i : 0 <= i < gNumFrameResources ->
  0 <= Z.rem (i + 1) gNumFrameResources < gNumFrameResources.
Proof.
  unfold gNumFrameResources. intros Hi. rewrite Z.rem_mod_nonneg by lia.
  apply Z.mod_pos_bound. lia.
Qed.

Lemma Update_front_total key1 s :
  WF s -> exists s', Update_front key1 s = Some s' /\ in_frame s' /\
                     mCurrFrameResource s' = Some (next_index s).
Proof.
  intros Hwf. pose proof (rem_ring _ (wf_index _ Hwf)) as Hr.
  pose proof (wf_frames _ Hwf) as Hlen.
  assert (next_index s < length (mFrameResources s))%nat as Hlt.
  { unfold next_index. lia. }
  assert (exists s', Update_front key1 s = Some s') as [s' Hs'].
  { eexists. apply Update_front_Some. split; [done|]. split; [lia|done]. }
  exists s'. split; [done|].
  pose proof Hs' as (_ & _ & E)%Update_front_Some.
  assert (WF s') as Hwf'.
  { eapply WF_same_shape; [done|by eapply Update_front_shape| |].
    - subst s'. by destruct s.
    - subst s'. destruct s; simpl. apply Hwf. }
  assert (mCurrFrameResource s' = Some (next_index s)) as Hc.
  { subst s'. by destruct s. }
  split; [|done]. split; [done|].
  apply lookup_lt_is_Some in Hlt as [fr Hfr].
  exists fr. apply curr_Some. exists (next_index s). split; [done|].
  subst s'. by destruct s.
Qed.

Lemma Draw_total s :
  in_frame s -> exists s' v, Draw s = Some (s', v) /\ in_frame s'.
Proof.
  intros [Hwf [fr Hc]]. pose proof Hc as (i & Hi & Hfr)%curr_Some.
  assert (exists s' v, Draw s = Some (s', v)) as (s' & v & Hd).
  { do 2 eexists. apply Draw_Some. eauto 10. }
  exists s', v. split; [done|].
  pose proof Hd as (j & fr' & Hj & Hfr' & -> & ->)%Draw_Some.
  split.
  - eapply WF_same_shape; [done|by eapply Draw_shape| |].
    + destruct s; simpl. apply Hwf.
    + destruct s; simpl. unfold UINT64_MAX.
      pose proof (Z.mod_pos_bound (mCurrentFence0 + 1) (2 ^ 64)). lia.
  - exists (set_Fence ((mCurrentFence s + 1) mod 2 ^ 64) fr').
    apply curr_Some. exists j. destruct s; simpl in *. split; [done|].
    apply list_lookup_insert_eq. by eapply lookup_lt_Some.
Qed.

Lemma tick_total gt key1 c s :
  WF s -> exists w s' v, tick gt key1 c s = Some (w, s', v) /\ WF s'.
Proof.
  intros Hwf.
  destruct (Update_front_total key1 s Hwf) as (s1 & H1 & Hin1 & _).
  destruct (Update_back_total gt s1 Hin1) as (s2 & H2 & Hin2).
  destruct (Draw_total s2 Hin2) as (s3 & v & H3 & [Hwf3 _]).
  destruct Hin1 as [_ [fr Hfr]].
  exists (negb (Fence fr =? 0) && (c <? Fence fr)), s3, v. split; [|done].
  unfold tick, Update, must_wait. rewrite H1. simpl. rewrite Hfr. simpl.
  rewrite H2. simpl. rewrite H3. done.
Qed.

Lemma run_total inputs s :
  WF s -> exists out s', run inputs s = Some (out, s') /\ WF s' /\
                         length out = length inputs.
Proof.
  revert s. induction inputs as [|[[gt key1] c] inputs IH]; intros s Hwf; simpl.
  - exists [], s. done.
  - destruct (tick_total gt key1 c s Hwf) as (w & s1 & v & Ht & Hwf1).
    destruct (IH s1 Hwf1) as (out & s' & Hr & Hwf' & Hlen).
    rewrite Ht. simpl. rewrite Hr. simpl.
    exists ((w, v) :: out), s'. simpl. by rewrite Hlen.
Qed.

End Progress.

(** ** The ring of frame resources *)

Section Ring.

Context `{DX : DirectXMath} {Waves : Type} `{WA : WavesAPI Waves}.

#[local] Abbreviation App := (CastleApp Waves).
Implicit Types (s : App) (fr : FrameResource).

Lemma fences_lookup s i fr :
  mFrameResources s !! i = Some fr -> fences s !! i = Some (Fence fr).
Proof. intros H. unfold fences. by rewrite list_lookup_fmap, H. Qed.

Lemma next_index_Z s :
  0 <= mCurrFrameResourceIndex s < gNumFrameResources ->
  Z.of_nat (next_index s) = (mCurrFrameResourceIndex s + 1) mod gNumFrameResources.
Proof.
  intros Hi. unfold next_index. pose proof (rem_ring _ Hi).
  rewrite Z2Nat.id by lia. apply Z.rem_mod_nonneg; unfold gNumFrameResources; lia.
Qed.

(** [Update_front] moves the cursor and nothing else of the ring. *)
Lemma Update_front_ring key1 s s' :
  Update_front key1 s = Some s' ->
  mCurrFrameResourceIndex s' = Z.rem (mCurrFrameResourceIndex s + 1) gNumFrameResources /\
  mCurrFrameResource s' = Some (next_index s) /\
  mCurrentFence s' = mCurrentFence s /\
  mFrameResources s' = mFrameResources s.
Proof. intros (_ & _ & ->)%Update_front_Some. by destruct s. Qed.

(** [Draw] retires the current frame resource with the incremented counter. *)
Lemma Draw_ring s s' v :
  Draw s = Some (s', v) ->
  exists i, mCurrFrameResource s = Some i /\
    v = (mCurrentFence s + 1) mod 2 ^ 64 /\
    mCurrentFence s' = v /\
    fences s' = <[i := v]> (fences s) /\
    mCurrFrameResourceIndex s' = mCurrFrameResourceIndex s /\
    mCurrFrameResource s' = mCurrFrameResource s.
Proof.
  intros (i & fr & Hi & Hfr & -> & ->)%Draw_Some. exists i.
  destruct s; simpl in *. unfold fences. simpl.
  by rewrite list_fmap_insert.
Qed.

(** The ring after the two halves of a frame. *)
Lemma frame_ring key1 gt s s1 s2 s3 v :
  Update_front key1 s = Some s1 -> Update_back gt s1 = Some s2 ->
  Draw s2 = Some (s3, v) ->
  v = (mCurrentFence s + 1) mod 2 ^ 64 /\
  mCurrentFence s3 = v /\
  fences s3 = <[next_index s := v]> (fences s) /\
  mCurrFrameResourceIndex s3 = Z.rem (mCurrFrameResourceIndex s + 1) gNumFrameResources /\
  mCurrFrameResource s3 = Some (next_index s).
Proof.
  intros (Hidx & Hcur & Hctr & Hfrs)%Update_front_ring [Hc Hi Hf Hfs]%Update_back_ring
         (i & Hi3 & -> & Hctr3 & Hfs3 & Hidx3 & Hcur3)%Draw_ring.
  assert (i = next_index s) as -> by congruence.
  unfold fences in *. rewrite Hfs3, Hfs, Hfrs, Hf, Hctr.
  repeat split; congruence.
Qed.

Lemma tick_Some gt key1 c s w s' v :
  tick gt key1 c s = Some (w, s', v) <->
  exists s1 s2, Update_front key1 s = Some s1 /\ must_wait c s1 = Some w /\
                Update_back gt s1 = Some s2 /\ Draw s2 = Some (s', v).
Proof.
  unfold tick, Update. split.
  - destruct (Update_front key1 s) as [s1|] eqn:E1; simpl; [|done].
    destruct (must_wait c s1) as [w1|] eqn:E2; simpl; [|done].
    destruct (Update_back gt s1) as [s2|] eqn:E3; simpl; [|done].
    destruct (Draw s2) as [[s3 v3]|] eqn:E4; simpl; [|done].
    intros [= <- <- <-]. eauto 10.
  - intros (s1 & s2 & -> & H2 & H3 & H4). simpl. rewrite H2. simpl.
    rewrite H3. simpl. rewrite H4. done.
Qed.

(** The fence test reads the fence of the slot just selected. *)
Lemma must_wait_front key1 c s s1 w :
  Update_front key1 s = Some s1 -> must_wait c s1 = Some w ->
  exists f, fences s !! next_index s = Some f /\ w = negb (f =? 0) && (c <? f).
Proof.
  intros (_ & Hcur & _ & Hfrs)%Update_front_ring. unfold must_wait.
  destruct (curr s1) as [fr|] eqn:Hc; simpl; [|done]. intros [= <-].
  apply curr_Some in Hc as (i & Hi & Hfr). exists (Fence fr). split; [|done].
  apply fences_lookup. congruence.
Qed.

Lemma tick_ring gt key1 c s w s' v :
  tick gt key1 c s = Some (w, s', v) ->
  (exists f, fences s !! next_index s = Some f /\ w = negb (f =? 0) && (c <? f)) /\
  v = (mCurrentFence s + 1) mod 2 ^ 64 /\
  mCurrentFence s' = v /\
  fences s' = <[next_index s := v]> (fences s) /\
  mCurrFrameResourceIndex s' = Z.rem (mCurrFrameResourceIndex s + 1) gNumFrameResources /\
  mCurrFrameResource s' = Some (next_index s).
Proof.
  intros (s1 & s2 & H1 & H2 & H3 & H4)%tick_Some. split.
  - by eapply must_wait_front.
  - by eapply frame_ring.
Qed.

Lemma next_index_slot_after s :
  0 <= mCurrFrameResourceIndex s < gNumFrameResources -> next_index s = slot_after s 1.
Proof.
  intros Hi. unfold slot_after. rewrite <- next_index_Z by done. lia.
Qed.

Lemma slot_after_distinct s d1 d2 :
  0 <= mCurrFrameResourceIndex s < gNumFrameResources ->
  1 <= d1 < d2 -> d2 <= gNumFrameResources ->
  slot_after s d1 <> slot_after s d2.
Proof.
  unfold slot_after, gNumFrameResources. intros Hi Hd1 Hd2 E.
  apply Z2Nat.inj in E; [|apply Z.mod_pos_bound; lia..].
  revert E. generalize (mCurrFrameResourceIndex s) Hi. intros i Hi'.
  Z.div_mod_to_equations. lia.
Qed.

Lemma slot_after_tick gt key1 c s w s' v d :
  0 <= mCurrFrameResourceIndex s < gNumFrameResources ->
  tick gt key1 c s = Some (w, s', v) ->
  slot_after s' d = slot_after s (d + 1).
Proof.
  intros Hi (_ & _ & _ & _ & Hidx & _)%tick_ring. unfold slot_after.
  rewrite Hidx, Z.rem_mod_nonneg by (unfold gNumFrameResources; lia).
  f_equal. rewrite Zplus_mod_idemp_l. f_equal. lia.
Qed.

End Ring.

Section Handshake.

Context `{DX : DirectXMath} {Waves : Type} `{WA : WavesAPI Waves}.

#[local] Abbreviation App := (CastleApp Waves).
Implicit Types (s : App) (fr : FrameResource).

Lemma must_wait_zero c s fr :
  curr s = Some fr -> Fence fr = 0 -> must_wait c s = Some false.
Proof. intros Hc Hf. unfold must_wait. rewrite Hc. simpl. by rewrite Hf. Qed.

(** While the [3 - k] slots after the cursor have never been submitted, the
    next [3 - k] frames find a zero fence. *)
Lemma fresh_slots_no_wait inputs : forall s k,
  WF s -> 0 <= k ->
  (forall d, 1 <= d <= gNumFrameResources - k -> fences s !! slot_after s d = Some 0) ->
  Z.of_nat (length inputs) + k <= gNumFrameResources ->
  exists out s', run inputs s = Some (out, s') /\
                 length out = length inputs /\ Forall (fun o => o.1 = false) out.
Proof.
  induction inputs as [|[[gt key1] c] inputs IH]; intros s k Hwf Hk Hfresh Hlen.
  - exists [], s. simpl. done.
  - simpl in Hlen.
    destruct (tick_total gt key1 c s Hwf) as (w & s1 & v & Ht & Hwf1).
    pose proof (wf_index _ Hwf) as Hidx.
    pose proof (tick_ring _ _ _ _ _ _ _ Ht) as ((f & Hf & Hw) & _ & _ & Hfs & _ & _).
    rewrite next_index_slot_after in Hf, Hfs by done.
    rewrite Hfresh in Hf by lia. injection Hf as <-.
    destruct (IH s1 (k + 1)) as (out & s' & Hr & Hlen' & Hall); [done|lia| |lia|].
    + intros d Hd. rewrite (slot_after_tick _ _ _ _ _ _ _ _ Hidx Ht), Hfs.
      rewrite list_lookup_insert_ne; [apply Hfresh; lia|].
      apply slot_after_distinct; [done|lia|lia].
    + exists ((w, v) :: out), s'. simpl. rewrite Ht. simpl. rewrite Hr. simpl.
      split; [done|]. split; [by rewrite Hlen'|].
      constructor; [|done]. simpl. by rewrite Hw.
Qed.

(** C9.  With every fence zero, as after start-up, the first
    [gNumFrameResources] calls of [Update] never enter the wait: the test of
    line 269 fails on a zero fence, and each of these frames selects a slot
    that no [Draw] has retired yet.  The frames themselves always run. *)
Theorem first_frames_never_wait :
  (forall c s fr, curr s = Some fr -> Fence fr = 0 -> must_wait c s = Some false) /\
  (forall s inputs,
     WF s ->
     Forall (fun fr => Fence fr = 0) (mFrameResources s) ->
     Z.of_nat (length inputs) <= gNumFrameResources ->
     exists out s', run inputs s = Some (out, s') /\
                    length out = length inputs /\
                    Forall (fun o => o.1 = false) out).
Proof.
  split; [apply must_wait_zero|].
  intros s inputs Hwf Hzero Hlen.
  apply (fresh_slots_no_wait inputs s 0); [done|lia| |lia].
  intros d Hd. unfold fences.
  assert (slot_after s d < length (mFrameResources s))%nat as Hlt.
  { pose proof (wf_frames _ Hwf). unfold slot_after.
    pose proof (Z.mod_pos_bound (mCurrFrameResourceIndex s + d) gNumFrameResources).
    unfold gNumFrameResources in *. lia. }
  apply lookup_lt_is_Some in Hlt as [fr Hfr].
  rewrite list_lookup_fmap, Hfr. simpl. f_equal.
  eapply (Forall_lookup_1 _ _ _ _ Hzero Hfr).
Qed.

Lemma Draw_retire s s' v :
  Draw s = Some (s', v) ->
  v = (mCurrentFence s + 1) mod 2 ^ 64 /\ mCurrentFence s' = v /\
  mCurrFrameResource s' = mCurrFrameResource s /\
  exists fr, curr s' = Some fr /\ Fence fr = v.
Proof.
  intros (i & fr & Hi & Hfr & -> & ->)%Draw_Some.
  split; [done|]. split; [by destruct s|]. split; [by destruct s|].
  exists (set_Fence ((mCurrentFence s + 1) mod 2 ^ 64) fr). split; [|done].
  apply curr_Some. exists i. destruct s; simpl in *. split; [done|].
  apply list_lookup_insert_eq. by eapply lookup_lt_Some.
Qed.

(** Below the [UINT64] limit the markers of a run count up from the counter. *)
Lemma run_markers inputs : forall s,
  WF s -> mCurrentFence s + Z.of_nat (length inputs) <= UINT64_MAX ->
  exists out s', run inputs s = Some (out, s') /\ length out = length inputs /\
    forall k v, out.*2 !! k = Some v -> v = mCurrentFence s + Z.of_nat k + 1.
Proof.
  induction inputs as [|[[gt key1] c] inputs IH]; intros s Hwf Hlen.
  - exists [], s. simpl. split; [done|]. split; [done|]. intros k v H.
    by rewrite lookup_nil in H.
  - simpl in Hlen.
    destruct (tick_total gt key1 c s Hwf) as (w & s1 & v & Ht & Hwf1).
    pose proof (tick_ring _ _ _ _ _ _ _ Ht) as (_ & Hv & Hctr & _).
    pose proof (wf_counter _ Hwf) as Hc. unfold UINT64_MAX in *.
    rewrite Z.mod_small in Hv by lia.
    destruct (IH s1 Hwf1) as (out & s' & Hr & Hlen' & Hout); [lia|].
    exists ((w, v) :: out), s'. simpl. rewrite Ht. simpl. rewrite Hr. simpl.
    split; [done|]. split; [by rewrite Hlen'|].
    intros [|k] v' Hk; simpl in Hk.
    + injection Hk as <-. lia.
    + apply Hout in Hk. lia.
Qed.

(** C5.  [Draw] stores the incremented submission counter as the fence of
    the frame resource it retires and signals the same value; over a run of
    frames that stays below the [UINT64] limit the values so assigned are
    [mCurrentFence + 1], [mCurrentFence + 2], ... : strictly increasing, no
    two submissions sharing one. *)
Theorem retire_markers_increase :
  (forall s s' v,
     Draw s = Some (s', v) ->
     v = (mCurrentFence s + 1) mod 2 ^ 64 /\ mCurrentFence s' = v /\
     mCurrFrameResource s' = mCurrFrameResource s /\
     exists fr, curr s' = Some fr /\ Fence fr = v) /\
  (forall s inputs,
     WF s ->
     mCurrentFence s + Z.of_nat (length inputs) <= UINT64_MAX ->
     exists out s', run inputs s = Some (out, s') /\
       length out = length inputs /\
       (forall k v, out.*2 !! k = Some v -> v = mCurrentFence s + Z.of_nat k + 1) /\
       (forall j k vj vk, (j < k)%nat ->
          out.*2 !! j = Some vj -> out.*2 !! k = Some vk -> vj < vk)).
Proof.
  split; [apply Draw_retire|].
  intros s inputs Hwf Hlen.
  destruct (run_markers inputs s Hwf Hlen) as (out & s' & Hr & Hl & Hout).
  exists out, s'. split; [done|]. split; [done|]. split; [done|].
  intros j k vj vk Hjk Hj Hk. apply Hout in Hj, Hk. lia.
Qed.

(** *** Host and GPU steps *)

#[local] Abbreviation Sys := (@System Waves).

Lemma Update_front_in_frame key1 s s' :
  WF s -> Update_front key1 s = Some s' -> in_frame s'.
Proof.
  intros Hwf H. destruct (Update_front_total key1 s Hwf) as (s'' & H' & Hin & _).
  congruence.
Qed.

Lemma Update_back_in_frame gt s s' :
  in_frame s -> Update_back gt s = Some s' -> in_frame s'.
Proof.
  intros Hin H. destruct (Update_back_total gt s Hin) as (s'' & H' & Hin').
  congruence.
Qed.

Lemma Draw_WF s s' v : in_frame s -> Draw s = Some (s', v) -> WF s'.
Proof.
  intros Hin H. destruct (Draw_total s Hin) as (s'' & v' & H' & [Hwf _]).
  congruence.
Qed.

(** A host step out of [Idle] is the fence test of line 269. *)
Lemma step_front_inv (sys sys' : Sys) :
  pc sys = Idle -> step Host sys sys' ->
  exists key1 fr,
    Update_front key1 (app sys) = Some (app sys') /\
    curr (app sys') = Some fr /\
    completed sys' = completed sys /\ pending sys' = pending sys /\
    pc sys' = (if negb (Fence fr =? 0) && (completed sys <? Fence fr)
               then Blocked (Fence fr) else Ready).
Proof.
  intros Hpc Hstep. inversion Hstep; subst; simpl in *; try done.
  exists key1, fr. repeat split; try done.
  unfold must_wait in *. rewrite H0 in H1. simpl in H1. by injection H1 as <-.
Qed.

Lemma step_back_inv (sys sys' : Sys) :
  pc sys = Ready -> step Host sys sys' ->
  exists gt s1 v,
    Update_back gt (app sys) = Some s1 /\ Draw s1 = Some (app sys', v) /\
    completed sys' = completed sys /\ pending sys' = pending sys ++ [v] /\
    pc sys' = Idle.
Proof.
  intros Hpc Hstep. inversion Hstep; subst; simpl in *; try done.
  exists gt, a1, v. done.
Qed.

(** A blocked host resumes exactly when the fence has been reached. *)
Lemma step_blocked (sys : Sys) f :
  pc sys = Blocked f ->
  ((exists sys', step Host sys sys') <-> f <= completed sys) /\
  (forall sys', step Host sys sys' -> pc sys' = Ready /\ app sys' = app sys).
Proof.
  intros Hpc. destruct sys as [a c q p]. simpl in *. subst p. split; [split|].
  - intros [sys' Hstep]. by inversion Hstep; subst.
  - intros Hle. eexists. by apply step_wake.
  - intros sys' Hstep. by inversion Hstep; subst.
Qed.

Lemma step_front_progress (sys : Sys) :
  WF (app sys) -> pc sys = Idle -> exists sys', step Host sys sys'.
Proof.
  intros Hwf Hpc. destruct sys as [a c q p]. simpl in *. subst p.
  destruct (Update_front_total 0 a Hwf) as (a' & Ha' & [_ [fr Hfr]] & _).
  eexists. eapply (step_front 0 a c q a' fr); [done|done|].
  unfold must_wait. rewrite Hfr. done.
Qed.

(** The ring after [n] frames submitted back to back, [n] at most the size
    of the ring: frame [d] took the slot [d] places after the cursor and
    left the counter value [+ d] there. *)
Lemma submissions_ring n (sys sys' : Sys) :
  submissions n sys sys' ->
  WF (app sys) -> pc sys = Idle -> Z.of_nat n <= gNumFrameResources ->
  WF (app sys') /\ pc sys' = Idle /\ completed sys' = completed sys /\
  mCurrFrameResourceIndex (app sys')
    = (mCurrFrameResourceIndex (app sys) + Z.of_nat n) mod gNumFrameResources /\
  mCurrentFence (app sys') = (mCurrentFence (app sys) + Z.of_nat n) mod 2 ^ 64 /\
  forall d, 1 <= d <= Z.of_nat n ->
    fences (app sys') !! slot_after (app sys) d
    = Some ((mCurrentFence (app sys) + d) mod 2 ^ 64).
Proof.
  induction 1 as [sys|n sys sys1 sys2 sys3 Hsub IH Hpc1 Hs1 Hpc2 Hs2];
    intros Hwf Hpc Hn.
  - pose proof (wf_index _ Hwf). pose proof (wf_counter _ Hwf).
    unfold UINT64_MAX, gNumFrameResources in *. simpl Z.of_nat.
    rewrite !Z.add_0_r, !Z.mod_small by lia.
    do 5 (split; [done|]). intros d Hd. lia.
  - destruct IH as (Hwf1 & _ & Hc1 & Hidx1 & Hctr1 & Hfs1); [done|done|lia|].
    destruct (step_front_inv _ _ Hpc1 Hs1) as (key1 & fr & Hfront & _ & Hc2 & _ & _).
    destruct (step_back_inv _ _ Hpc2 Hs2) as (gt & s2 & v & Hback & Hdraw & Hc3 & _ & Hpc3).
    pose proof (Update_front_in_frame _ _ _ Hwf1 Hfront) as Hin2.
    pose proof (Update_back_in_frame _ _ _ Hin2 Hback) as Hin3.
    pose proof (Draw_WF _ _ _ Hin3 Hdraw) as Hwf3.
    pose proof (frame_ring _ _ _ _ _ _ _ Hfront Hback Hdraw)
      as (Hv & Hctr3 & Hfs3 & Hidx3 & _).
    pose proof (wf_index _ Hwf) as Hidx. pose proof (wf_index _ Hwf1) as Hidx1'.
    assert (next_index (app sys1) = slot_after (app sys) (Z.of_nat (S n))) as Hnext.
    { rewrite next_index_slot_after by done. unfold slot_after. rewrite Hidx1.
      f_equal. rewrite Zplus_mod_idemp_l. f_equal. lia. }
    split; [done|]. split; [done|]. split; [congruence|]. split; [|split].
    + rewrite Hidx3, Z.rem_mod_nonneg, Hidx1, Zplus_mod_idemp_l
        by (unfold gNumFrameResources in *; lia).
      f_equal. lia.
    + rewrite Hctr3, Hv, Hctr1, Zplus_mod_idemp_l. f_equal. lia.
    + intros d Hd. rewrite Hfs3, Hnext.
      destruct (decide (d = Z.of_nat (S n))) as [->|Hne].
      * rewrite list_lookup_insert_eq.
        -- rewrite Hv, Hctr1, Zplus_mod_idemp_l. do 2 f_equal. lia.
        -- unfold fences. rewrite length_fmap.
           pose proof (wf_frames _ Hwf1). unfold slot_after.
           pose proof (Z.mod_pos_bound
             (mCurrFrameResourceIndex (app sys) + Z.of_nat (S n)) gNumFrameResources).
           unfold gNumFrameResources in *. lia.
      * rewrite list_lookup_insert_ne; [apply Hfs1; lia|].
        apply not_eq_sym, slot_after_distinct; [done|lia|lia].
Qed.

(** C1.  [Update] moves the cursor one slot on, modulo
    [gNumFrameResources]; the host then enters the wait exactly when the fence
    of the selected slot is nonzero and above the value the GPU has
    completed, and stays in it until that value is reached.  Hence after
    [gNumFrameResources] frames submitted with no completion signalled
    (and the 64-bit counter not at its limit) the next [Update] blocks, on
    the marker of the oldest of these frames, and only the GPU can move. *)
Theorem ring_advance_blocks :
  (forall key1 s s',
     WF s -> Update_front key1 s = Some s' ->
     mCurrFrameResourceIndex s'
       = (mCurrFrameResourceIndex s + 1) mod gNumFrameResources /\
     mCurrFrameResource s' = Some (Z.to_nat (mCurrFrameResourceIndex s'))) /\
  (forall sys sys' : Sys,
     pc sys = Idle -> step Host sys sys' ->
     exists fr, curr (app sys') = Some fr /\
       (pc sys' = Blocked (Fence fr) \/ pc sys' = Ready) /\
       (pc sys' = Blocked (Fence fr) <->
        Fence fr <> 0 /\ completed sys < Fence fr)) /\
  (forall (sys : Sys) f,
     pc sys = Blocked f ->
     ((exists sys', step Host sys sys') <-> f <= completed sys) /\
     (forall sys', step Host sys sys' -> pc sys' = Ready /\ app sys' = app sys)) /\
  (forall sys sys3 : Sys,
     WF (app sys) -> pc sys = Idle ->
     completed sys <= mCurrentFence (app sys) ->
     mCurrentFence (app sys) < UINT64_MAX ->
     submissions (Z.to_nat gNumFrameResources) sys sys3 ->
     (exists sys4, step Host sys3 sys4) /\
     (forall sys4, step Host sys3 sys4 ->
        pc sys4 = Blocked (mCurrentFence (app sys) + 1) /\
        completed sys4 < mCurrentFence (app sys) + 1 /\
        (forall a sys5, step a sys4 sys5 -> a = Gpu) /\
        (exists sys5, step Gpu sys4 sys5))).
Proof.
  split; [|split; [|split]].
  - intros key1 s s' Hwf (Hidx & Hcur & _)%Update_front_ring.
    pose proof (wf_index _ Hwf) as Hi.
    rewrite Hidx, Hcur. split; [|done].
    apply Z.rem_mod_nonneg; unfold gNumFrameResources in *; lia.
  - intros sys sys' Hpc Hstep.
    destruct (step_front_inv _ _ Hpc Hstep) as (key1 & fr & _ & Hfr & _ & _ & Hpc').
    exists fr. split; [done|]. rewrite Hpc'.
    destruct (Z.eqb_spec (Fence fr) 0) as [E|E];
      destruct (Z.ltb_spec (completed sys) (Fence fr)); simpl;
      (split; [eauto|]); split; try done; intros [? ?]; lia.
  - intros sys f Hpc. by apply step_blocked.
  - intros sys sys3 Hwf Hpc Hc Hctr Hsub.
    destruct (submissions_ring _ _ _ Hsub Hwf Hpc)
      as (Hwf3 & Hpc3 & Hc3 & Hidx3 & _ & Hfs3); [unfold gNumFrameResources; lia|].
    split; [by apply step_front_progress|].
    intros sys4 Hstep.
    destruct (step_front_inv _ _ Hpc3 Hstep)
      as (key1 & fr & Hfront & Hfr & Hc4 & Hq4 & Hpc4).
    pose proof (wf_index _ Hwf) as Hi. pose proof (wf_counter _ Hwf) as Hf.
    assert (Fence fr = mCurrentFence (app sys) + 1) as Hfence.
    { pose proof Hfront as (_ & Hcur & _ & Hfrs)%Update_front_ring.
      apply curr_Some in Hfr as (i & Hi4 & Hfr).
      rewrite Hcur in Hi4. injection Hi4 as <-. rewrite Hfrs in Hfr.
      apply fences_lookup in Hfr.
      assert (next_index (app sys3) = slot_after (app sys) 1) as Hnext.
      { rewrite next_index_slot_after by apply Hwf3. unfold slot_after.
        rewrite Hidx3, Zplus_mod_idemp_l. f_equal.
        unfold gNumFrameResources. change (Z.of_nat (Z.to_nat 3)) with 3.
        replace (mCurrFrameResourceIndex (app sys) + 3 + 1)
          with (mCurrFrameResourceIndex (app sys) + 1 + 1 * 3) by lia.
        by rewrite Z.mod_add. }
      rewrite Hnext, Hfs3 in Hfr by (unfold gNumFrameResources; simpl; lia).
      injection Hfr as <-. unfold UINT64_MAX in *. apply Z.mod_small. lia. }
    rewrite Hfence in Hpc4.
    assert (negb (mCurrentFence (app sys) + 1 =? 0)
            && (completed sys3 <? mCurrentFence (app sys) + 1) = true) as Hw.
    { apply andb_true_intro. split; [apply negb_true_iff, Z.eqb_neq|apply Z.ltb_lt]; lia. }
    rewrite Hw in Hpc4. split; [done|]. split; [lia|]. split.
    + intros a sys5 Hstep5. destruct a; [|done]. exfalso.
      assert (mCurrentFence (app sys) + 1 <= completed sys4) as Hle.
      { apply (proj1 (proj1 (step_blocked sys4 _ Hpc4))). eauto. }
      lia.
    + destruct sys4 as [a4 c4 q4 p4]. simpl in *.
      assert (q4 <> []) as Hne.
      { rewrite Hq4. inversion Hsub as [|n0 s0 sa sb sc Hsub' Hpa Hsa Hpb Hsb]; subst.
        destruct (step_back_inv _ _ Hpb Hsb) as (gt & s1 & v & _ & _ & _ & Hq & _).
        rewrite Hq. by destruct (pending sb). }
      destruct q4 as [|v q4]; [done|].
      exists (mkSystem a4 v q4 p4). apply step_gpu.
Qed.

End Handshake.

(** ** Which buffers a step writes *)

Section Buffers.

Context `{DX : DirectXMath} {Waves : Type} `{WA : WavesAPI Waves}.

#[local] Abbreviation App := (CastleApp Waves).
Implicit Types (s : App) (fr : FrameResource).

Lemma member_curr {B} (f : FrameResource -> B) s fr i :
  mCurrFrameResource s = Some i -> curr s = Some fr -> member f s !! i = Some (f fr).
Proof.
  intros Hi (j & Hj & Hfr)%curr_Some. assert (j = i) as -> by congruence.
  unfold member. by rewrite list_lookup_fmap, Hfr.
Qed.

Lemma curr_member {B} (f : FrameResource -> B) s i b :
  mCurrFrameResource s = Some i -> member f s !! i = Some b ->
  exists fr, curr s = Some fr /\ f fr = b.
Proof.
  intros Hi Hb. unfold member in Hb. rewrite list_lookup_fmap in Hb.
  destruct (mFrameResources s !! i) as [fr|] eqn:Hfr; simpl in Hb; [|done].
  exists fr. split; [apply curr_Some; eauto|congruence].
Qed.

Lemma Update_front_member {B} (f : FrameResource -> B) key1 s s' :
  Update_front key1 s = Some s' -> member f s' = member f s.
Proof. intros (_ & _ & ->)%Update_front_Some. by destruct s. Qed.

Lemma UpdateWater_member {B} (f : FrameResource -> B) gt s s' :
  (forall vb fr, f (set_WavesVB vb fr) = f fr) ->
  UpdateWater gt s = Some s' -> member f s' = member f s.
Proof.
  intros Hf (waterMat & i & fr & vb & r & item & g & Hw & Hi & Hfr & Hvb & Hr & Hitem
             & Hg & Hgeo & ->)%UpdateWater_Some.
  destruct s; simpl in *. unfold member. simpl. by apply (fmap_insert_same _ _ _ fr).
Qed.

Lemma UpdateObjectCBs_member {B} (f : FrameResource -> B) s s' :
  (forall cb fr, f (set_ObjectCB cb fr) = f fr) ->
  UpdateObjectCBs s = Some s' -> member f s' = member f s.
Proof.
  intros Hf (i & fr & cb & Hi & Hfr & Hcb & ->)%UpdateObjectCBs_Some.
  destruct s; simpl in *. unfold member. simpl. by apply (fmap_insert_same _ _ _ fr).
Qed.

Lemma UpdateMaterialCBs_member {B} (f : FrameResource -> B) s s' :
  (forall cb fr, f (set_MaterialCB cb fr) = f fr) ->
  UpdateMaterialCBs s = Some s' -> member f s' = member f s.
Proof.
  intros Hf (i & fr & cb & Hi & Hfr & Hcb & ->)%UpdateMaterialCBs_Some.
  destruct s; simpl in *. unfold member. simpl. by apply (fmap_insert_same _ _ _ fr).
Qed.

Lemma UpdateMainPassCB_member {B} (f : FrameResource -> B) gt s s' :
  (forall cb fr, f (set_PassCB cb fr) = f fr) ->
  UpdateMainPassCB gt s = Some s' -> member f s' = member f s.
Proof.
  intros Hf (i & fr & cb & Hi & Hfr & Hcb & ->)%UpdateMainPassCB_Some.
  destruct s; simpl in *. unfold member. simpl. by apply (fmap_insert_same _ _ _ fr).
Qed.

Lemma Draw_member {B} (f : FrameResource -> B) s s' v :
  (forall x fr, f (set_Fence x fr) = f fr) ->
  Draw s = Some (s', v) -> member f s' = member f s.
Proof.
  intros Hf (i & fr & Hi & Hfr & -> & ->)%Draw_Some.
  destruct s; simpl in *. unfold member. simpl. by apply (fmap_insert_same _ _ _ fr).
Qed.

(** The scene members each step leaves alone. *)
Lemma Update_front_scene key1 s s' :
  Update_front key1 s = Some s' ->
  mAllRitems s' = mAllRitems s /\ mMaterials s' = mMaterials s /\
  mGeometries s' = mGeometries s /\ mWaves s' = mWaves s /\ mWavesRitem s' = mWavesRitem s.
Proof. intros (_ & _ & ->)%Update_front_Some. by destruct s. Qed.

Lemma UpdateObjectCBs_scene s s' :
  UpdateObjectCBs s = Some s' ->
  mMaterials s' = mMaterials s /\ mGeometries s' = mGeometries s /\
  mWaves s' = mWaves s /\ mWavesRitem s' = mWavesRitem s /\
  mMainPassCB s' = mMainPassCB s.
Proof.
  intros (i & fr & cb & Hi & Hfr & Hcb & ->)%UpdateObjectCBs_Some. by destruct s.
Qed.

Lemma UpdateMaterialCBs_scene s s' :
  UpdateMaterialCBs s = Some s' ->
  mAllRitems s' = mAllRitems s /\ mGeometries s' = mGeometries s /\
  mWaves s' = mWaves s /\ mWavesRitem s' = mWavesRitem s /\
  mMainPassCB s' = mMainPassCB s.
Proof.
  intros (i & fr & cb & Hi & Hfr & Hcb & ->)%UpdateMaterialCBs_Some. by destruct s.
Qed.

Lemma UpdateMainPassCB_scene gt s s' :
  UpdateMainPassCB gt s = Some s' ->
  mAllRitems s' = mAllRitems s /\ mMaterials s' = mMaterials s /\
  mGeometries s' = mGeometries s /\ mWaves s' = mWaves s /\
  mWavesRitem s' = mWavesRitem s.
Proof.
  intros (i & fr & cb & Hi & Hfr & Hcb & ->)%UpdateMainPassCB_Some. by destruct s.
Qed.

Lemma UpdateWater_scene gt s s' :
  UpdateWater gt s = Some s' ->
  mAllRitems s' = mAllRitems s /\ mWavesRitem s' = mWavesRitem s /\
  mMainPassCB s' = mMainPassCB s /\
  mWaves s' = Waves_Update (mWaves s) (gt_DeltaTime gt).
Proof.
  intros (waterMat & i & fr & vb & r & item & g & Hw & Hi & Hfr & Hvb & Hr & Hitem
          & Hg & Hgeo & ->)%UpdateWater_Some. by destruct s.
Qed.

Lemma Draw_scene s s' v :
  Draw s = Some (s', v) ->
  mAllRitems s' = mAllRitems s /\ mMaterials s' = mMaterials s /\
  mGeometries s' = mGeometries s /\ mWaves s' = mWaves s /\
  mWavesRitem s' = mWavesRitem s /\ mMainPassCB s' = mMainPassCB s.
Proof. intros (i & fr & Hi & Hfr & -> & ->)%Draw_Some. by destruct s. Qed.

End Buffers.

(** ** Dirty counts over a frame *)

Section Dirty.

Context `{DX : DirectXMath} {Waves : Type} `{WA : WavesAPI Waves}.

#[local] Abbreviation App := (CastleApp Waves).
Implicit Types (s : App) (fr : FrameResource).

#[local] Abbreviation ri_index := (fun e : RenderItem => int_of_UINT (ObjCBIndex e)).
#[local] Abbreviation ri_elem := (pass_elem ri_NumFramesDirty ri_set_NumFramesDirty).
#[local] Abbreviation ri_write := (pass_write ri_NumFramesDirty ri_index objConstants).
#[local] Abbreviation mat_dirty := (fun e : string * Material => mat_NumFramesDirty e.2).
#[local] Abbreviation mat_index := (fun e : string * Material => MatCBIndex e.2).
#[local] Abbreviation mat_elem := (pass_elem mat_dirty mat_entry_set_dirty).
#[local] Abbreviation mat_write :=
  (pass_write mat_dirty mat_index (fun e : string * Material => matConstants e.2)).

Lemma UpdateWater_materials gt s s' :
  UpdateWater gt s = Some s' ->
  exists waterMat, alist_lookup "water" (mMaterials s) = Some waterMat /\
    mMaterials s' = alist_set "water" (scrolled gt waterMat) (mMaterials s).
Proof.
  intros (waterMat & i & fr & vb & r & item & g & Hw & Hi & Hfr & Hvb & Hr & Hitem
          & Hg & Hgeo & ->)%UpdateWater_Some.
  exists waterMat. by destruct s.
Qed.

(** The object pass of a frame: one [UpdateObjectCBs_loop] over the render
    items as they were before the frame, into the object buffer of the slot
    the frame selected; no other object buffer changes. *)
Lemma tick_objects gt key1 c s w s' v :
  tick gt key1 c s = Some (w, s', v) ->
  mAllRitems s' = ri_elem <$> mAllRitems s /\
  exists cb cb',
    member ObjectCB s !! next_index s = Some cb /\
    CopyData_all cb (omap ri_write (mAllRitems s)) = Some cb' /\
    member ObjectCB s' = <[next_index s := cb']> (member ObjectCB s).
Proof.
  intros (s1 & s2 & H1 & _ & (sa & sb & sc & Ha & Hb & Hc & Hd)%Update_back_Some & H3)
         %tick_Some.
  pose proof (Update_front_scene _ _ _ H1) as (I1 & _).
  pose proof (UpdateWater_scene _ _ _ Ha) as (Ia & _).
  pose proof (UpdateMaterialCBs_scene _ _ Hc) as (Ic & _).
  pose proof (UpdateMainPassCB_scene _ _ _ Hd) as (Id & _).
  pose proof (Draw_scene _ _ _ H3) as (I3 & _).
  pose proof (Update_front_ring _ _ _ H1) as (_ & Hcur1 & _).
  pose proof (UpdateWater_ring _ _ _ Ha) as [Hcura _ _ _].
  pose proof Hb as (i & fr & cb & Hi & Hfr & Hcb & E)%UpdateObjectCBs_Some.
  assert (i = next_index s) as -> by congruence.
  split.
  - rewrite I3, Id, Ic, E, <- I1, <- Ia. by destruct sa.
  - exists (ObjectCB fr), cb.
    rewrite <- (Update_front_member ObjectCB _ _ _ H1).
    rewrite <- (UpdateWater_member ObjectCB _ _ _ (fun _ _ => eq_refl) Ha).
    rewrite (Draw_member ObjectCB _ _ _ (fun _ _ => eq_refl) H3).
    rewrite (UpdateMainPassCB_member ObjectCB _ _ _ (fun _ _ => eq_refl) Hd).
    rewrite (UpdateMaterialCBs_member ObjectCB _ _ (fun _ _ => eq_refl) Hc).
    rewrite <- I1, <- Ia. split; [|split; [done|]].
    + unfold member. by rewrite list_lookup_fmap, Hfr.
    + rewrite E. destruct sa; simpl in *. unfold member. simpl.
      by rewrite list_fmap_insert.
Qed.

(** The material pass of a frame, run on the materials as [UpdateWater] of
    that frame left them. *)
Lemma tick_materials gt key1 c s w s' v :
  tick gt key1 c s = Some (w, s', v) ->
  exists waterMat cb cb',
    alist_lookup "water" (mMaterials s) = Some waterMat /\
    let mats := alist_set "water" (scrolled gt waterMat) (mMaterials s) in
    mMaterials s' = mat_elem <$> mats /\
    member MaterialCB s !! next_index s = Some cb /\
    CopyData_all cb (omap mat_write mats) = Some cb' /\
    member MaterialCB s' = <[next_index s := cb']> (member MaterialCB s).
Proof.
  intros (s1 & s2 & H1 & _ & (sa & sb & sc & Ha & Hb & Hc & Hd)%Update_back_Some & H3)
         %tick_Some.
  pose proof (Update_front_scene _ _ _ H1) as (_ & I1 & _).
  pose proof (UpdateWater_materials _ _ _ Ha) as (waterMat & Hw & Ia).
  pose proof (UpdateObjectCBs_scene _ _ Hb) as (Ib & _).
  pose proof (UpdateMainPassCB_scene _ _ _ Hd) as (_ & Id & _).
  pose proof (Draw_scene _ _ _ H3) as (_ & I3 & _).
  pose proof (Update_front_ring _ _ _ H1) as (_ & Hcur1 & _).
  pose proof (UpdateWater_ring _ _ _ Ha) as [Hcura _ _ _].
  pose proof (UpdateObjectCBs_ring _ _ Hb) as [Hcurb _ _ _].
  pose proof Hc as (i & fr & cb & Hi & Hfr & Hcb & E)%UpdateMaterialCBs_Some.
  assert (i = next_index s) as -> by congruence.
  exists waterMat, (MaterialCB fr), cb. rewrite <- I1. split; [done|]. simpl.
  rewrite <- Ia, <- Ib. split; [|split; [|split; [done|]]].
  - rewrite I3, Id, E. by destruct sb.
  - rewrite <- (Update_front_member MaterialCB _ _ _ H1).
    rewrite <- (UpdateWater_member MaterialCB _ _ _ (fun _ _ => eq_refl) Ha).
    rewrite <- (UpdateObjectCBs_member MaterialCB _ _ (fun _ _ => eq_refl) Hb).
    unfold member. by rewrite list_lookup_fmap, Hfr.
  - rewrite <- (Update_front_member MaterialCB _ _ _ H1).
    rewrite <- (UpdateWater_member MaterialCB _ _ _ (fun _ _ => eq_refl) Ha).
    rewrite <- (UpdateObjectCBs_member MaterialCB _ _ (fun _ _ => eq_refl) Hb).
    rewrite (Draw_member MaterialCB _ _ _ (fun _ _ => eq_refl) H3).
    rewrite (UpdateMainPassCB_member MaterialCB _ _ _ (fun _ _ => eq_refl) Hd).
    rewrite E. destruct sb; simpl in *. unfold member. simpl.
    by rewrite list_fmap_insert.
Qed.

(** *** Counting down *)

Lemma ri_set_set m n e :
  ri_set_NumFramesDirty m (ri_set_NumFramesDirty n e) = ri_set_NumFramesDirty m e.
Proof. done. Qed.

Lemma ri_set_same e : ri_set_NumFramesDirty (ri_NumFramesDirty e) e = e.
Proof. by destruct e. Qed.

(** [k] passes take a count [d >= 0] down to [max 0 (d - k)]. *)
Lemma ri_elem_iter k e :
  0 <= ri_NumFramesDirty e ->
  Nat.iter k ri_elem e
  = ri_set_NumFramesDirty (Z.max 0 (ri_NumFramesDirty e - Z.of_nat k)) e.
Proof.
  intros Hd. induction k as [|k IH].
  - simpl. rewrite Z.sub_0_r, Z.max_r by lia. by rewrite ri_set_same.
  - rewrite Nat.iter_succ, IH. unfold pass_elem. simpl.
    destruct (Z.ltb_spec 0 (Z.max 0 (ri_NumFramesDirty e - Z.of_nat k))).
    + rewrite ri_set_set. f_equal. lia.
    + f_equal. lia.
Qed.

Lemma mat_set_set m n e :
  mat_entry_set_dirty m (mat_entry_set_dirty n e) = mat_entry_set_dirty m e.
Proof. done. Qed.

Lemma mat_set_same e : mat_entry_set_dirty (mat_dirty e) e = e.
Proof. by destruct e as [k []]. Qed.

Lemma mat_elem_iter k e :
  0 <= mat_dirty e ->
  Nat.iter k mat_elem e
  = mat_entry_set_dirty (Z.max 0 (mat_dirty e - Z.of_nat k)) e.
Proof.
  intros Hd. induction k as [|k IH].
  - simpl. rewrite Z.sub_0_r, Z.max_r by lia. by rewrite mat_set_same.
  - rewrite Nat.iter_succ, IH. unfold pass_elem. simpl.
    destruct (Z.ltb_spec 0 (Z.max 0 (mat_NumFramesDirty e.2 - Z.of_nat k))).
    + rewrite mat_set_set. f_equal. lia.
    + f_equal. lia.
Qed.

Lemma run_Some_cons gt key1 c inputs s out s' :
  run ((gt, key1, c) :: inputs) s = Some (out, s') <->
  exists w s1 v out1, tick gt key1 c s = Some (w, s1, v) /\
    run inputs s1 = Some (out1, s') /\ out = (w, v) :: out1.
Proof.
  simpl. split.
  - destruct (tick gt key1 c s) as [[[w s1] v]|] eqn:Ht; simpl; [|done].
    destruct (run inputs s1) as [[out1 s2]|] eqn:Hr; simpl; [|done].
    intros [= <- <-]. eauto 10.
  - intros (w & s1 & v & out1 & -> & Hr & ->). simpl. rewrite Hr. done.
Qed.

(** The render items and the cursor after a run. *)
Lemma run_objects inputs : forall s out s',
  WF s -> run inputs s = Some (out, s') ->
  mAllRitems s' = Nat.iter (length inputs) ri_elem <$> mAllRitems s /\
  mCurrFrameResourceIndex s'
    = (mCurrFrameResourceIndex s + Z.of_nat (length inputs)) mod gNumFrameResources.
Proof.
  induction inputs as [|[[gt key1] c] inputs IH]; intros s out s' Hwf.
  - simpl. intros [= <- <-]. split; [by rewrite list_fmap_id|].
    pose proof (wf_index _ Hwf). rewrite Z.add_0_r, Z.mod_small; done.
  - intros (w & s1 & v & out1 & Ht & Hr & ->)%run_Some_cons.
    destruct (tick_total gt key1 c s Hwf) as (w' & s1' & v' & Ht' & Hwf1).
    assert (s1' = s1) as -> by congruence.
    destruct (IH _ _ _ Hwf1 Hr) as [Hitems Hidx].
    pose proof (tick_objects _ _ _ _ _ _ _ Ht) as [E _].
    pose proof (tick_ring _ _ _ _ _ _ _ Ht) as (_ & _ & _ & _ & Hi & _).
    pose proof (wf_index _ Hwf).
    split.
    + rewrite Hitems, E, <- list_fmap_compose. apply list_fmap_ext.
      intros ? e _. simpl length. by rewrite Nat.iter_succ_r.
    + rewrite Hidx, Hi, Z.rem_mod_nonneg, Zplus_mod_idemp_l
        by (unfold gNumFrameResources in *; lia).
      f_equal. simpl length. lia.
Qed.

Lemma run_next_index inputs s out s' :
  WF s -> run inputs s = Some (out, s') ->
  next_index s' = slot_after s (Z.of_nat (length inputs) + 1).
Proof.
  intros Hwf Hr. destruct (run_objects _ _ _ _ Hwf Hr) as [_ Hidx].
  destruct (run_total inputs s Hwf) as (out' & s'' & Hr' & Hwf' & _).
  assert (s'' = s') as -> by congruence.
  rewrite next_index_slot_after by apply Hwf'. unfold slot_after.
  rewrite Hidx, Zplus_mod_idemp_l. do 2 f_equal. lia.
Qed.

Lemma ri_index_iter k e : ri_index (Nat.iter k ri_elem e) = ri_index e.
Proof.
  induction k as [|k IH]; [done|]. rewrite Nat.iter_succ.
  by rewrite pass_elem_ObjCBIndex.
Qed.

(** The (k+1)-th object pass after a render item was made dirty for every
    frame resource: it copies the constants of the item into the slot of
    that frame when [k < gNumFrameResources], and leaves the index of the
    item unwritten from then on. *)
Lemma object_countdown s inputs gt key1 c p e :
  WF s ->
  NoDup (ri_index <$> mAllRitems s) ->
  mAllRitems s !! p = Some e ->
  ri_NumFramesDirty e = gNumFrameResources ->
  let k := Z.of_nat (length inputs) in
  exists out sk w s' v cb cb',
    run inputs s = Some (out, sk) /\
    tick gt key1 c sk = Some (w, s', v) /\
    mAllRitems sk !! p
      = Some (ri_set_NumFramesDirty (Z.max 0 (gNumFrameResources - k)) e) /\
    mAllRitems s' !! p
      = Some (ri_set_NumFramesDirty (Z.max 0 (gNumFrameResources - (k + 1))) e) /\
    mCurrFrameResource s' = Some (slot_after s (k + 1)) /\
    member ObjectCB sk !! slot_after s (k + 1) = Some cb /\
    member ObjectCB s' !! slot_after s (k + 1) = Some cb' /\
    CopyData_all cb (omap ri_write (mAllRitems sk)) = Some cb' /\
    (k < gNumFrameResources ->
       ((ri_index e, objConstants e) ∈ omap ri_write (mAllRitems sk)) /\
       ub_read cb' (ri_index e) = Some (objConstants e)) /\
    (gNumFrameResources <= k ->
       (ri_index e ∉ (omap ri_write (mAllRitems sk)).*1) /\
       ub_read cb' (ri_index e) = ub_read cb (ri_index e)).
Proof.
  intros Hwf Hnd Hp Hd k.
  destruct (run_total inputs s Hwf) as (out & sk & Hr & Hwfk & _).
  destruct (tick_total gt key1 c sk Hwfk) as (w & s' & v & Ht & Hwf').
  destruct (run_objects _ _ _ _ Hwf Hr) as [Hitems _].
  pose proof (run_next_index _ _ _ _ Hwf Hr) as Hnext. fold k in Hnext.
  pose proof (tick_objects _ _ _ _ _ _ _ Ht) as (E & cb & cb' & Hcb & Hall & Hmem).
  pose proof (tick_ring _ _ _ _ _ _ _ Ht) as (_ & _ & _ & _ & _ & Hcur).
  rewrite Hnext in *.
  assert (0 <= ri_NumFramesDirty e) as Hd0 by (rewrite Hd; done).
  set (ek := ri_set_NumFramesDirty (Z.max 0 (gNumFrameResources - k)) e).
  assert (mAllRitems sk !! p = Some ek) as Hpk.
  { rewrite Hitems, list_lookup_fmap, Hp. simpl. f_equal.
    rewrite ri_elem_iter by done. unfold ek, k. by rewrite Hd. }
  assert (NoDup (ri_index <$> mAllRitems sk)) as Hndk.
  { rewrite Hitems, <- list_fmap_compose.
    erewrite list_fmap_ext; [exact Hnd|]. intros ? x _. simpl. apply ri_index_iter. }
  assert (ek ∈ mAllRitems sk) as Hin by (by eapply list_elem_of_lookup_2).
  exists out, sk, w, s', v, cb, cb'. split; [done|]. split; [done|]. split; [done|].
  split.
  { rewrite E, list_lookup_fmap, Hpk. simpl. f_equal. unfold pass_elem, ek. simpl.
    destruct (Z.ltb_spec 0 (Z.max 0 (gNumFrameResources - k))).
    - rewrite ri_set_set. f_equal. lia.
    - f_equal. lia. }
  split; [done|]. split; [done|]. split.
  { rewrite Hmem. apply list_lookup_insert_eq. by eapply lookup_lt_Some. }
  split; [done|]. split.
  - intros Hk. split.
    + apply list_elem_of_omap. exists ek. split; [done|].
      apply pass_write_Some. split; [unfold ek; simpl; lia|done].
    + apply (CopyData_all_read_in _ _ _ _ _ Hall).
      * by apply pass_writes_NoDup.
      * apply list_elem_of_omap. exists ek. split; [done|].
        apply pass_write_Some. split; [unfold ek; simpl; lia|done].
  - intros Hk.
    assert (ri_index e ∉ (omap ri_write (mAllRitems sk)).*1) as Hnot.
    { apply (propagate_clean_not_written ri_NumFramesDirty ri_index objConstants
               (mAllRitems sk) ek Hndk Hin). unfold ek. simpl. lia. }
    split; [done|]. by eapply CopyData_all_read_notin.
Qed.

Lemma tick_shape gt key1 c s w s' v :
  tick gt key1 c s = Some (w, s', v) -> same_shape s s'.
Proof.
  intros (s1 & s2 & H1 & _ & H2 & H3)%tick_Some.
  eapply same_shape_trans; [by eapply Update_front_shape|].
  eapply same_shape_trans; [by eapply Update_back_shape|by eapply Draw_shape].
Qed.

Lemma run_shape inputs : forall s out s',
  run inputs s = Some (out, s') -> same_shape s s'.
Proof.
  induction inputs as [|[[gt key1] c] inputs IH]; intros s out s'.
  - simpl. intros [= <- <-]. apply same_shape_refl.
  - intros (w & s1 & v & out1 & Ht & Hr & ->)%run_Some_cons.
    eapply same_shape_trans; [by eapply tick_shape|by eapply IH].
Qed.

Lemma alist_lookup_elem {V} k (v : V) l : alist_lookup k l = Some v -> (k, v) ∈ l.
Proof.
  induction l as [|[k' v'] l IH]; simpl; [done|].
  destruct (decide (k = k')) as [->|Hne].
  - intros [= ->]. apply elem_of_cons. by left.
  - intros H. apply elem_of_cons. right. by apply IH.
Qed.

(** A material other than the water is touched by the material pass only. *)
Lemma tick_material_lookup gt key1 c s w s' v name :
  name <> "water" ->
  tick gt key1 c s = Some (w, s', v) ->
  alist_lookup name (mMaterials s')
  = (fun m => (mat_elem (name, m)).2) <$> alist_lookup name (mMaterials s).
Proof.
  intros Hne (waterMat & cb & cb' & Hw & E & _)%tick_materials. simpl in E.
  rewrite E, alist_lookup_fmap_keep.
  - by rewrite alist_lookup_set_ne.
  - intros e. unfold pass_elem. by destruct (0 <? _).
Qed.

Lemma run_material_lookup inputs name : forall s out s',
  name <> "water" -> run inputs s = Some (out, s') ->
  alist_lookup name (mMaterials s')
  = (fun m => (Nat.iter (length inputs) mat_elem (name, m)).2)
      <$> alist_lookup name (mMaterials s).
Proof.
  induction inputs as [|[[gt key1] c] inputs IH]; intros s out s' Hne.
  - simpl. intros [= <- <-]. by destruct (alist_lookup name (mMaterials s)).
  - intros (w & s1 & v & out1 & Ht & Hr & ->)%run_Some_cons.
    rewrite (IH _ _ _ Hne Hr), (tick_material_lookup _ _ _ _ _ _ _ _ Hne Ht).
    destruct (alist_lookup name (mMaterials s)) as [m|]; simpl; [|done].
    assert ((name, (mat_elem (name, m)).2) = mat_elem (name, m)) as ->.
    { unfold pass_elem. by destruct (0 <? _). }
    by rewrite <- Nat.iter_succ_r.
Qed.

(** The same for a material, the water apart: [UpdateWater] makes it dirty
    again in every frame. *)
Lemma material_countdown s inputs gt key1 c name m :
  WF s ->
  NoDup (mat_index <$> mMaterials s) ->
  name <> "water" ->
  alist_lookup name (mMaterials s) = Some m ->
  mat_NumFramesDirty m = gNumFrameResources ->
  let k := Z.of_nat (length inputs) in
  exists out sk w s' v waterMat cb cb',
    run inputs s = Some (out, sk) /\
    tick gt key1 c sk = Some (w, s', v) /\
    alist_lookup "water" (mMaterials sk) = Some waterMat /\
    let mats := alist_set "water" (scrolled gt waterMat) (mMaterials sk) in
    alist_lookup name mats
      = Some (mat_set_NumFramesDirty (Z.max 0 (gNumFrameResources - k)) m) /\
    alist_lookup name (mMaterials s')
      = Some (mat_set_NumFramesDirty (Z.max 0 (gNumFrameResources - (k + 1))) m) /\
    mCurrFrameResource s' = Some (slot_after s (k + 1)) /\
    member MaterialCB sk !! slot_after s (k + 1) = Some cb /\
    member MaterialCB s' !! slot_after s (k + 1) = Some cb' /\
    CopyData_all cb (omap mat_write mats) = Some cb' /\
    (k < gNumFrameResources ->
       ((MatCBIndex m, matConstants m) ∈ omap mat_write mats) /\
       ub_read cb' (MatCBIndex m) = Some (matConstants m)) /\
    (gNumFrameResources <= k ->
       (MatCBIndex m ∉ (omap mat_write mats).*1) /\
       ub_read cb' (MatCBIndex m) = ub_read cb (MatCBIndex m)).
Proof.
  intros Hwf Hnd Hne Hm Hd k.
  destruct (run_total inputs s Hwf) as (out & sk & Hr & Hwfk & _).
  destruct (tick_total gt key1 c sk Hwfk) as (w & s' & v & Ht & Hwf').
  pose proof (run_next_index _ _ _ _ Hwf Hr) as Hnext. fold k in Hnext.
  pose proof (tick_materials _ _ _ _ _ _ _ Ht)
    as (waterMat & cb & cb' & Hw & E & Hcb & Hall & Hmem).
  simpl in E, Hall.
  pose proof (tick_ring _ _ _ _ _ _ _ Ht) as (_ & _ & _ & _ & _ & Hcur).
  rewrite Hnext in *.
  set (mats := alist_set "water" (scrolled gt waterMat) (mMaterials sk)) in *.
  set (mk := mat_set_NumFramesDirty (Z.max 0 (gNumFrameResources - k)) m).
  assert (alist_lookup name (mMaterials sk) = Some mk) as Hk.
  { rewrite (run_material_lookup _ _ _ _ _ Hne Hr), Hm. simpl. f_equal.
    rewrite mat_elem_iter by (simpl; rewrite Hd; done).
    simpl. unfold mk, k. by rewrite Hd. }
  assert (alist_lookup name mats = Some mk) as Hk'.
  { unfold mats. rewrite alist_lookup_set_ne; [done|by apply not_eq_sym]. }
  assert (NoDup (mat_index <$> mats)) as Hndk.
  { unfold mats. rewrite (alist_set_fmap mat_index).
    - pose proof (sh_mat _ _ (run_shape _ _ _ _ Hr)) as Hsh.
      apply (f_equal (fmap snd)) in Hsh. rewrite <- !list_fmap_compose in Hsh.
      change (mat_index <$> mMaterials sk = mat_index <$> mMaterials s) in Hsh.
      by rewrite Hsh.
    - intros v' Hv'. rewrite Hw in Hv'. by injection Hv' as <-. }
  assert ((name, mk) ∈ mats) as Hin by (by apply alist_lookup_elem).
  exists out, sk, w, s', v, waterMat, cb, cb'.
  split; [done|]. split; [done|]. split; [done|]. simpl. fold mats.
  split; [done|]. split.
  { rewrite E, alist_lookup_fmap_keep, Hk'.
    - simpl. f_equal. unfold pass_elem, mk. simpl.
      destruct (Z.ltb_spec 0 (Z.max 0 (gNumFrameResources - k))); simpl.
      + unfold mat_set_NumFramesDirty. simpl. f_equal. lia.
      + unfold mat_set_NumFramesDirty. simpl. f_equal. lia.
    - intros e. unfold pass_elem. by destruct (0 <? _). }
  split; [done|]. split; [done|]. split.
  { rewrite Hmem. apply list_lookup_insert_eq. by eapply lookup_lt_Some. }
  split; [done|]. split.
  - intros Hlt.
    assert ((MatCBIndex m, matConstants m) ∈ omap mat_write mats) as Hwr.
    { apply list_elem_of_omap. exists (name, mk). split; [done|].
      apply pass_write_Some. split; [unfold mk; simpl; lia|done]. }
    split; [done|].
    apply (CopyData_all_read_in _ _ _ _ _ Hall); [|done].
    by apply pass_writes_NoDup.
  - intros Hge.
    assert (MatCBIndex m ∉ (omap mat_write mats).*1) as Hnot.
    { apply (propagate_clean_not_written mat_dirty mat_index
               (fun e : string * Material => matConstants e.2) mats (name, mk) Hndk Hin).
      unfold mk. simpl. lia. }
    split; [done|]. by eapply CopyData_all_read_notin.
Qed.

(** C2.  A render item, or a material other than the water, whose dirty
    count was set to [gNumFrameResources]: of the propagation passes that
    follow, one per frame, the first [gNumFrameResources] each copy its
    data into the buffer of the slot of that frame, at its buffer index,
    and take the count down by one; these slots are pairwise distinct;
    every later pass issues no [CopyData] for it and leaves the count at
    zero.  [k] is the number of frames already run.  The block copied for
    a material holds its diffuse albedo, its Fresnel term, its roughness
    and its transform, transposed; the block copied for a render item
    holds its world matrix, transposed, and the identity as texture
    transform, whatever the texture transform of the item is. *)
Theorem dirty_countdown :
  forall s inputs gt key1 c,
    WF s ->
    NoDup (ri_index <$> mAllRitems s) ->
    NoDup (mat_index <$> mMaterials s) ->
    let k := Z.of_nat (length inputs) in
    (forall d1 d2, 1 <= d1 < d2 -> d2 <= gNumFrameResources ->
       slot_after s d1 <> slot_after s d2) /\
    (forall p e,
       mAllRitems s !! p = Some e ->
       ri_NumFramesDirty e = gNumFrameResources ->
       exists out sk w s' v cb cb',
         run inputs s = Some (out, sk) /\
         tick gt key1 c sk = Some (w, s', v) /\
         mAllRitems sk !! p
           = Some (ri_set_NumFramesDirty (Z.max 0 (gNumFrameResources - k)) e) /\
         mAllRitems s' !! p
           = Some (ri_set_NumFramesDirty (Z.max 0 (gNumFrameResources - (k + 1))) e) /\
         mCurrFrameResource s' = Some (slot_after s (k + 1)) /\
         member ObjectCB sk !! slot_after s (k + 1) = Some cb /\
         member ObjectCB s' !! slot_after s (k + 1) = Some cb' /\
         CopyData_all cb (omap ri_write (mAllRitems sk)) = Some cb' /\
         (k < gNumFrameResources ->
            exists entry,
              (ri_index e, entry) ∈ omap ri_write (mAllRitems sk) /\
              ub_read cb' (ri_index e) = Some entry /\
              oc_World entry = XMMatrixTranspose (World e) /\
              oc_TexTransform entry = Identity4x4) /\
         (gNumFrameResources <= k ->
            (ri_index e ∉ (omap ri_write (mAllRitems sk)).*1) /\
            ub_read cb' (ri_index e) = ub_read cb (ri_index e))) /\
    (forall name m,
       name <> "water" ->
       alist_lookup name (mMaterials s) = Some m ->
       mat_NumFramesDirty m = gNumFrameResources ->
       exists out sk w s' v waterMat cb cb',
         run inputs s = Some (out, sk) /\
         tick gt key1 c sk = Some (w, s', v) /\
         alist_lookup "water" (mMaterials sk) = Some waterMat /\
         let mats := alist_set "water" (scrolled gt waterMat) (mMaterials sk) in
         alist_lookup name mats
           = Some (mat_set_NumFramesDirty (Z.max 0 (gNumFrameResources - k)) m) /\
         alist_lookup name (mMaterials s')
           = Some (mat_set_NumFramesDirty (Z.max 0 (gNumFrameResources - (k + 1))) m) /\
         mCurrFrameResource s' = Some (slot_after s (k + 1)) /\
         member MaterialCB sk !! slot_after s (k + 1) = Some cb /\
         member MaterialCB s' !! slot_after s (k + 1) = Some cb' /\
         CopyData_all cb (omap mat_write mats) = Some cb' /\
         (k < gNumFrameResources ->
            exists entry,
              (MatCBIndex m, entry) ∈ omap mat_write mats /\
              ub_read cb' (MatCBIndex m) = Some entry /\
              mc_DiffuseAlbedo entry = DiffuseAlbedo m /\
              mc_FresnelR0 entry = FresnelR0 m /\
              mc_Roughness entry = Roughness m /\
              mc_MatTransform entry = XMMatrixTranspose (MatTransform m)) /\
         (gNumFrameResources <= k ->
            (MatCBIndex m ∉ (omap mat_write mats).*1) /\
            ub_read cb' (MatCBIndex m) = ub_read cb (MatCBIndex m))).
Proof.
  intros s inputs gt key1 c Hwf Hndo Hndm k. split; [|split].
  - intros d1 d2 Hd1 Hd2. apply slot_after_distinct; [apply Hwf|done|done].
  - intros p e Hp Hd.
    destruct (object_countdown s inputs gt key1 c p e Hwf Hndo Hp Hd)
      as (out & sk & w & s' & v & cb & cb' & Hr & Ht & Hk & Hk' & Hcur & Hcb & Hcb'
          & Hall & Hcopy & Hclean).
    exists out, sk, w, s', v, cb, cb'.
    split; [done|]. split; [done|]. split; [done|]. split; [done|]. split; [done|].
    split; [done|]. split; [done|]. split; [done|]. split; [|done].
    intros Hlt. destruct (Hcopy Hlt) as [Hin Hread].
    exists (objConstants e). split; [done|]. split; [done|]. split; reflexivity.
  - intros name m Hne Hm Hd.
    destruct (material_countdown s inputs gt key1 c name m Hwf Hndm Hne Hm Hd)
      as (out & sk & w & s' & v & waterMat & cb & cb' & Hr & Ht & Hw & Hk & Hk' & Hcur
          & Hcb & Hcb' & Hall & Hcopy & Hclean).
    exists out, sk, w, s', v, waterMat, cb, cb'.
    split; [done|]. split; [done|]. split; [done|]. split; [done|]. split; [done|].
    split; [done|]. split; [done|]. split; [done|]. split; [done|]. split; [|done].
    intros Hlt. destruct (Hcopy Hlt) as [Hin Hread].
    exists (matConstants m). split; [done|]. split; [done|]. repeat split.
Qed.

End Dirty.

(** ** What the object pass copies *)

Lemma objConstants_World e : oc_World (objConstants e) = XMMatrixTranspose (World e).
Proof. done. Qed.

(** The constants built for a render item do not depend on its texture
    transform. *)
Lemma objConstants_ignores_TexTransform e M :
  objConstants (mkRenderItem (World e) M (ri_NumFramesDirty e) (ObjCBIndex e) (Mat e)
                  (Geo e) (IndexCount e) (StartIndexLocation e) (BaseVertexLocation e))
  = objConstants e.
Proof. done. Qed.

(** C4.  The object pass on the first wall of the scene, dirty, with buffer
    index 13 and texture transform [XMMatrixScaling(2.5, 0.5, 1)]: entry 13
    of the object buffer receives the transposed world matrix, and the
    identity where the texture transform of the wall should be. *)
Theorem object_pass_drops_TexTransform :
  let cb := new_UploadBuffer 1%nat 39 (mkObjectConstants zero4x4 zero4x4) in
  exists cb' entry,
    UpdateObjectCBs_loop cb [wallRitem1]
      = Some (cb', [ri_set_NumFramesDirty 2 wallRitem1]) /\
    ub_read cb' 13 = Some entry /\
    oc_World entry = XMMatrixTranspose (World wallRitem1) /\
    oc_TexTransform entry = Identity4x4 /\
    TexTransform wallRitem1 = XMMatrixScaling (F32.lit 25 10) (F32.lit 5 10) f1_0 /\
    oc_TexTransform entry <> TexTransform wallRitem1 /\
    oc_TexTransform entry <> XMMatrixTranspose (TexTransform wallRitem1).
Proof.
  eexists _, _. split; [vm_compute; reflexivity|].
  split; [vm_compute; reflexivity|].
  split; [vm_compute; reflexivity|].
  split; [vm_compute; reflexivity|].
  split; [reflexivity|].
  split; vm_compute; intros [=].
Qed.

(** ** The pass block and the water *)

Section Feeds.

Context `{DX : DirectXMath} {Waves : Type} `{WA : WavesAPI Waves}.

#[local] Abbreviation App := (CastleApp Waves).
Implicit Types (s : App) (fr : FrameResource).

Lemma lights_lookup ls k :
  tower_lights (fixed_lights ls) !! k = light_of_frame k <$> ls !! k.
Proof.
  unfold tower_lights, fixed_lights.
  do 7 (destruct k as [|k];
        [repeat first [rewrite list_lookup_alter_eq
                      |rewrite list_lookup_alter_ne by lia];
         by destruct (ls !! _)|]).
  repeat rewrite list_lookup_alter_ne by lia.
  simpl. by destruct (ls !! _).
Qed.

(** The passes before [UpdateMainPassCB] leave what it reads alone. *)
Lemma main_pass_before gt s sa sb sc :
  UpdateWater gt s = Some sa -> UpdateObjectCBs sa = Some sb ->
  UpdateMaterialCBs sb = Some sc -> main_pass gt sc = main_pass gt s.
Proof.
  intros (waterMat & i & fr & vb & r & item & g & _ & _ & _ & _ & _ & _ & _ & _ & ->)
           %UpdateWater_Some
         (i1 & fr1 & cb1 & _ & _ & _ & ->)%UpdateObjectCBs_Some
         (i2 & fr2 & cb2 & _ & _ & _ & ->)%UpdateMaterialCBs_Some.
  by destruct s.
Qed.

(** The pass block of a frame: computed by [main_pass] on the camera that
    [UpdateCamera] of this frame sets, and copied into element 0 of the
    pass buffer of the slot the frame selected; no other element of that
    buffer and no other pass buffer changes. *)
Lemma tick_pass gt key1 c s w s' v :
  tick gt key1 c s = Some (w, s', v) ->
  mMainPassCB s' = main_pass gt (UpdateCamera s) /\
  exists cb,
    member PassCB s !! next_index s = Some cb /\
    (1 <= length (mMappedData cb))%nat /\
    member PassCB s'
    = <[next_index s := mkUploadBuffer (Resource cb)
                          (<[0%nat := mMainPassCB s']> (mMappedData cb))]>
        (member PassCB s).
Proof.
  intros (s1 & s2 & H1 & _ & (sa & sb & sc & Ha & Hb & Hc & Hd)%Update_back_Some & H3)
         %tick_Some.
  pose proof (Draw_scene _ _ _ H3) as (_ & _ & _ & _ & _ & I3).
  pose proof (Update_front_ring _ _ _ H1) as (_ & Hcur1 & _).
  pose proof (rg_curr _ _ (UpdateWater_ring _ _ _ Ha)) as Hcura.
  pose proof (rg_curr _ _ (UpdateObjectCBs_ring _ _ Hb)) as Hcurb.
  pose proof (rg_curr _ _ (UpdateMaterialCBs_ring _ _ Hc)) as Hcurc.
  pose proof (main_pass_before _ _ _ _ _ Ha Hb Hc) as Hmp.
  pose proof Hd as (i & fr & cb & Hi & Hfr & Hcb & E)%UpdateMainPassCB_Some.
  assert (i = next_index s) as -> by congruence.
  assert (main_pass gt s1 = main_pass gt (UpdateCamera s)) as Hfront.
  { apply Update_front_Some in H1 as (_ & _ & ->). by destruct s. }
  assert (mMainPassCB s' = main_pass gt (UpdateCamera s)) as Hblock.
  { rewrite I3, E, <- Hfront, <- Hmp. by destruct sc. }
  split; [done|].
  exists (PassCB fr).
  rewrite <- (Update_front_member PassCB _ _ _ H1).
  rewrite <- (UpdateWater_member PassCB _ _ _ (fun _ _ => eq_refl) Ha).
  rewrite <- (UpdateObjectCBs_member PassCB _ _ (fun _ _ => eq_refl) Hb).
  rewrite <- (UpdateMaterialCBs_member PassCB _ _ (fun _ _ => eq_refl) Hc).
  rewrite (Draw_member PassCB _ _ _ (fun _ _ => eq_refl) H3).
  apply CopyData_Some in Hcb as [Hrange ->].
  split; [|split].
  - unfold member. by rewrite list_lookup_fmap, Hfr.
  - lia.
  - rewrite Hblock, <- Hfront, <- Hmp, E. destruct sc; simpl in *. unfold member. simpl.
    by rewrite list_fmap_insert.
Qed.


(** C6.  In every frame of a run, [Update] computes the whole pass block
    anew, from the camera [UpdateCamera] sets in this frame, the projection,
    the window size and the timer of the frame, and copies it into
    element 0 of the pass buffer of the frame resource the frame selects.
    The frame runs in every well-formed state: no dirty count and nothing
    else in the state guards the copy.  It is the only write to a pass
    buffer in the frame: the other elements of that buffer and the pass
    buffers of the other slots stay as they are.  Lights 0 to 2 get their
    direction and strength, lights 3 to 6 their position, strength and
    falloff range; the members of a light the function does not assign, and
    the lights from 7 on, keep their values. *)
Theorem main_pass_always_written :
  forall s inputs gt key1 c,
    WF s ->
    exists out sk w s' v fr' old,
      run inputs s = Some (out, sk) /\
      tick gt key1 c sk = Some (w, s', v) /\
      mCurrFrameResource s' = Some (next_index sk) /\
      curr s' = Some fr' /\
      member PassCB sk !! next_index sk = Some old /\
      PassCB fr' = mkUploadBuffer (Resource old)
                     (<[0%nat := mMainPassCB s']> (mMappedData old)) /\
      ub_read (PassCB fr') 0 = Some (mMainPassCB s') /\
      (forall j, j <> next_index sk -> member PassCB s' !! j = member PassCB sk !! j) /\
      let x := F32.mul (F32.mul (mRadius sk) (sinf (mPhi sk))) (cosf (mTheta sk)) in
      let z := F32.mul (F32.mul (mRadius sk) (sinf (mPhi sk))) (sinf (mTheta sk)) in
      let y := F32.mul (mRadius sk) (cosf (mPhi sk)) in
      let view :=
        XMMatrixLookAtLH (mkF4 x y z f1_0) (mkF4 F32.zero F32.zero F32.zero F32.zero)
          (mkF4 F32.zero f1_0 F32.zero F32.zero) in
      let proj := mProj sk in
      let viewProj := XMMatrixMultiply view proj in
      let cb := mMainPassCB s' in
      let old_lights := Lights (mMainPassCB sk) in
      let d := F32.lit 57735 100000 in
      let nd := F32.lit (-57735) 100000 in
      let tower (dx dz : float) (l : Light) :=
        mkLight (mkF3 (F32.lit 1 10) (F32.lit 1 10) (F32.lit 38 10)) f1_0
          (Direction l) (F32.of_Z 5) (mkF3 dx (F32.lit 55 10) dz) (SpotPower l) in
      let sun (strength : float) (dir : XMFLOAT3) (l : Light) :=
        mkLight (mkF3 strength strength strength) (FalloffStart l) dir (FalloffEnd l)
          (Position l) (SpotPower l) in
      View cb = XMMatrixTranspose view /\
      InvView cb = XMMatrixTranspose (XMMatrixInverse (XMMatrixDeterminant view) view) /\
      Proj cb = XMMatrixTranspose proj /\
      InvProj cb = XMMatrixTranspose (XMMatrixInverse (XMMatrixDeterminant proj) proj) /\
      ViewProj cb = XMMatrixTranspose viewProj /\
      InvViewProj cb
        = XMMatrixTranspose (XMMatrixInverse (XMMatrixDeterminant viewProj) viewProj) /\
      EyePosW cb = mkF3 x y z /\
      RenderTargetSize cb
        = mkF2 (F32.of_Z (mClientWidth sk)) (F32.of_Z (mClientHeight sk)) /\
      InvRenderTargetSize cb
        = mkF2 (F32.div f1_0 (F32.of_Z (mClientWidth sk)))
               (F32.div f1_0 (F32.of_Z (mClientHeight sk))) /\
      NearZ cb = f1_0 /\ FarZ cb = F32.of_Z 1000 /\
      TotalTime cb = gt_TotalTime gt /\ DeltaTime cb = gt_DeltaTime gt /\
      AmbientLight cb = mkF4 (F32.lit 25 100) (F32.lit 25 100) (F32.lit 35 100) f1_0 /\
      length (Lights cb) = length old_lights /\
      (forall l, old_lights !! 0%nat = Some l ->
         Lights cb !! 0%nat = Some (sun (F32.lit 5 10) (mkF3 d nd d) l)) /\
      (forall l, old_lights !! 1%nat = Some l ->
         Lights cb !! 1%nat = Some (sun (F32.lit 3 10) (mkF3 nd nd d) l)) /\
      (forall l, old_lights !! 2%nat = Some l ->
         Lights cb !! 2%nat
         = Some (sun (F32.lit 15 100)
                   (mkF3 F32.zero (F32.lit (-707) 1000) (F32.lit (-707) 1000)) l)) /\
      (forall l, old_lights !! 3%nat = Some l ->
         Lights cb !! 3%nat = Some (tower (F32.of_Z 7) (F32.of_Z 7) l)) /\
      (forall l, old_lights !! 4%nat = Some l ->
         Lights cb !! 4%nat = Some (tower (F32.of_Z 7) (F32.of_Z (-7)) l)) /\
      (forall l, old_lights !! 5%nat = Some l ->
         Lights cb !! 5%nat = Some (tower (F32.of_Z (-7)) (F32.of_Z 7) l)) /\
      (forall l, old_lights !! 6%nat = Some l ->
         Lights cb !! 6%nat = Some (tower (F32.of_Z (-7)) (F32.of_Z (-7)) l)) /\
      (forall k, (7 <= k)%nat -> Lights cb !! k = old_lights !! k).
Proof.
  intros s inputs gt key1 c Hwf.
  destruct (run_total inputs s Hwf) as (out & sk & Hr & Hwfk & _).
  destruct (tick_total gt key1 c sk Hwfk) as (w & s' & v & Ht & Hwf').
  pose proof (tick_ring _ _ _ _ _ _ _ Ht) as (_ & _ & _ & _ & _ & Hcur).
  pose proof (tick_pass _ _ _ _ _ _ _ Ht) as (Hblock & old & Hold & Hlen & Hmem).
  assert (member PassCB s' !! next_index sk
          = Some (mkUploadBuffer (Resource old)
                    (<[0%nat := mMainPassCB s']> (mMappedData old)))) as Hnew.
  { rewrite Hmem. apply list_lookup_insert_eq. by eapply lookup_lt_Some. }
  destruct (curr_member PassCB s' _ _ Hcur Hnew) as (fr' & Hfr' & Hpass).
  exists out, sk, w, s', v, fr', old.
  split; [done|]. split; [done|]. split; [done|]. split; [done|]. split; [done|].
  split; [done|]. split.
  { rewrite Hpass. unfold ub_read. simpl. apply list_lookup_insert_eq. lia. }
  split.
  { intros j Hj. rewrite Hmem. by apply list_lookup_insert_ne. }
  cbv zeta. rewrite Hblock. unfold main_pass. cbn [View InvView Proj InvProj ViewProj
    InvViewProj EyePosW RenderTargetSize InvRenderTargetSize NearZ FarZ TotalTime
    DeltaTime AmbientLight Lights].
  assert (forall k, tower_lights (fixed_lights (Lights (mMainPassCB (UpdateCamera sk)))) !! k
                    = light_of_frame k <$> Lights (mMainPassCB sk) !! k) as Hl.
  { intros k. rewrite lights_lookup. by destruct sk. }
  do 14 (split; [by destruct sk|]).
  split.
  { unfold tower_lights, fixed_lights. rewrite !length_alter. by destruct sk. }
  do 7 (split; [intros l Hk; rewrite Hl, Hk; reflexivity|]).
  intros k Hk. rewrite Hl.
  do 7 (destruct k as [|k]; [lia|]). destruct (Lights (mMainPassCB sk) !! _); reflexivity.
Qed.

Lemma wave_writes_lookup (w : Waves) i :
  0 <= i < Waves_VertexCount w -> (i, wave_vertex w i) ∈ wave_writes w.
Proof.
  intros Hi. unfold wave_writes. apply list_elem_of_fmap. exists i. split; [done|].
  apply elem_of_seqZ. lia.
Qed.

(** C7.  After [UpdateWater], every vertex [i] of the wave field is in the
    dynamic vertex buffer of the current frame resource, at element [i]:
    position and normal as the wave field gives them after its update, and
    texture coordinates [0.5 + x / Width] and [0.5 - z / Depth] in binary32
    arithmetic. *)
Theorem wave_vertices_remapped :
  forall gt s,
    in_frame s ->
    exists s' fr',
      UpdateWater gt s = Some s' /\
      curr s' = Some fr' /\
      mWaves s' = Waves_Update (mWaves s) (gt_DeltaTime gt) /\
      forall i, 0 <= i < Waves_VertexCount (mWaves s') ->
        exists v, ub_read (WavesVB fr') i = Some v /\
          Pos v = Waves_Position (mWaves s') i /\
          Normal v = Waves_Normal (mWaves s') i /\
          f2x (TexC v)
            = F32.add f0_5 (F32.div (f3x (Pos v)) (Waves_Width (mWaves s'))) /\
          f2y (TexC v)
            = F32.sub f0_5 (F32.div (f3z (Pos v)) (Waves_Depth (mWaves s'))).
Proof.
  intros gt s Hin. destruct (UpdateWater_total gt s Hin) as (s' & Hs' & _).
  pose proof Hs' as (waterMat & i & fr & vb & r & item & g & Hw & Hi & Hfr & Hvb & Hr
                     & Hitem & Hg & Hgeo & E)%UpdateWater_Some.
  exists s', (set_WavesVB vb fr). split; [done|].
  assert (mWaves s' = Waves_Update (mWaves s) (gt_DeltaTime gt)) as Hwaves.
  { subst s'. by destruct s. }
  split; [|split; [done|]].
  - apply curr_Some. exists i. subst s'. destruct s; simpl in *. split; [done|].
    apply list_lookup_insert_eq. by eapply lookup_lt_Some.
  - intros j Hj. rewrite Hwaves in *.
    exists (wave_vertex (Waves_Update (mWaves s) (gt_DeltaTime gt)) j).
    split; [|done]. simpl.
    apply (CopyData_all_read_in _ _ _ _ _ Hvb).
    + rewrite wave_writes_indices. apply NoDup_seqZ.
    + by apply wave_writes_lookup.
Qed.

Lemma water_vb_same s s' :
  mWavesRitem s' = mWavesRitem s -> Geo <$> mAllRitems s' = Geo <$> mAllRitems s ->
  mGeometries s' = mGeometries s -> water_vb s' = water_vb s.
Proof.
  intros Hr Hg Hm. unfold water_vb. rewrite Hr, Hm.
  destruct (mWavesRitem s) as [r|]; simpl; [|done].
  assert ((Geo <$> mAllRitems s') !! r = (Geo <$> mAllRitems s) !! r) as E by (by rewrite Hg).
  rewrite !list_lookup_fmap in E.
  destruct (mAllRitems s' !! r), (mAllRitems s !! r); simpl in *; try done.
  by injection E as ->.
Qed.

Lemma water_vb_current_same s s' :
  water_vb s' = water_vb s ->
  mCurrFrameResource s' = mCurrFrameResource s ->
  member (fun fr => Resource (WavesVB fr)) s' = member (fun fr => Resource (WavesVB fr)) s ->
  water_vb_current s -> water_vb_current s'.
Proof.
  intros Hvb Hcur Hmem (fr & Hc & Hw). pose proof Hc as (i & Hi & Hfr)%curr_Some.
  pose proof (member_curr (fun fr => Resource (WavesVB fr)) _ _ _ Hi Hc) as Hl.
  rewrite <- Hmem in Hl. rewrite <- Hcur in Hi.
  destruct (curr_member _ _ _ _ Hi Hl) as (fr' & Hc' & Hres).
  exists fr'. split; [done|]. rewrite Hvb, Hw. by rewrite Hres.
Qed.

Lemma UpdateWater_vb gt s s' : UpdateWater gt s = Some s' -> water_vb_current s'.
Proof.
  intros (waterMat & i & fr & vb & r & item & g & Hw & Hi & Hfr & Hvb & Hr & Hitem
          & Hg & Hgeo & ->)%UpdateWater_Some.
  exists (set_WavesVB vb fr). split.
  - apply curr_Some. exists i. destruct s; simpl in *. split; [done|].
    apply list_lookup_insert_eq. by eapply lookup_lt_Some.
  - unfold water_vb. destruct s; simpl in *. rewrite Hr. simpl. rewrite Hitem. simpl.
    rewrite Hg. simpl. by rewrite lookup_insert_eq.
Qed.

Lemma tick_vb gt key1 c s w s' v :
  tick gt key1 c s = Some (w, s', v) -> water_vb_current s'.
Proof.
  intros (s1 & s2 & H1 & _ & (sa & sb & sc & Ha & Hb & Hc & Hd)%Update_back_Some & H3)
         %tick_Some.
  pose proof (UpdateWater_vb _ _ _ Ha) as Hvb.
  assert (water_vb_current sb) as Hvbb.
  { pose proof (UpdateObjectCBs_scene _ _ Hb) as (_ & Hg & _ & Hr & _).
    pose proof (UpdateObjectCBs_shape _ _ Hb) as Hsh.
    pose proof (UpdateObjectCBs_ring _ _ Hb) as Hrg.
    eapply water_vb_current_same; [|apply Hrg|apply Hsh|done].
    apply water_vb_same; [done|apply Hsh|done]. }
  assert (water_vb_current sc) as Hvbc.
  { pose proof (UpdateMaterialCBs_scene _ _ Hc) as (_ & Hg & _ & Hr & _).
    pose proof (UpdateMaterialCBs_shape _ _ Hc) as Hsh.
    pose proof (UpdateMaterialCBs_ring _ _ Hc) as Hrg.
    eapply water_vb_current_same; [|apply Hrg|apply Hsh|done].
    apply water_vb_same; [done|apply Hsh|done]. }
  assert (water_vb_current s2) as Hvb2.
  { pose proof (UpdateMainPassCB_scene _ _ _ Hd) as (_ & _ & Hg & _ & Hr).
    pose proof (UpdateMainPassCB_shape _ _ _ Hd) as Hsh.
    pose proof (UpdateMainPassCB_ring _ _ _ Hd) as Hrg.
    eapply water_vb_current_same; [|apply Hrg|apply Hsh|done].
    apply water_vb_same; [done|apply Hsh|done]. }
  pose proof (Draw_scene _ _ _ H3) as (_ & _ & Hg & _ & Hr & _).
  pose proof (Draw_shape _ _ _ H3) as Hsh.
  pose proof (Draw_ring _ _ _ H3) as (? & _ & _ & _ & _ & _ & Hcur).
  eapply water_vb_current_same; [|apply Hcur|apply Hsh|done].
  apply water_vb_same; [done|apply Hsh|done].
Qed.

(** C8.  [UpdateWater] leaves the vertex buffer of the wave geometry set to
    the dynamic vertex buffer of the current frame resource, and so does the
    frame as a whole, whose current frame resource is the slot it selected.
    The frame resources holding buffers of their own, this is the buffer of
    no other slot: not the one of the frame before. *)
Theorem water_vb_follows_slot :
  (forall gt s, in_frame s ->
     exists s', UpdateWater gt s = Some s' /\ water_vb_current s') /\
  (forall gt key1 c s, WF s ->
     exists w s' v, tick gt key1 c s = Some (w, s', v) /\
       water_vb_current s' /\ mCurrFrameResource s' = Some (next_index s)) /\
  (forall s, water_vb_current s ->
     NoDup (member (fun fr => Resource (WavesVB fr)) s) ->
     forall j frj, mFrameResources s !! j = Some frj ->
       mCurrFrameResource s <> Some j ->
       water_vb s <> Some (Resource (WavesVB frj))).
Proof.
  split; [|split].
  - intros gt s Hin. destruct (UpdateWater_total gt s Hin) as (s' & Hs' & _).
    exists s'. split; [done|]. by eapply UpdateWater_vb.
  - intros gt key1 c s Hwf.
    destruct (tick_total gt key1 c s Hwf) as (w & s' & v & Ht & _).
    exists w, s', v. split; [done|]. split; [by eapply tick_vb|].
    by apply tick_ring in Ht as (_ & _ & _ & _ & _ & ?).
  - intros s (fr & Hc & Hvb) Hnd j frj Hj Hne Heq.
    apply curr_Some in Hc as (i & Hi & Hfr).
    rewrite Hvb in Heq. injection Heq as Heq.
    assert (i = j) as ->; [|congruence].
    eapply (NoDup_lookup _ _ _ _ Hnd).
    + unfold member. rewrite list_lookup_fmap, Hfr. done.
    + unfold member. rewrite list_lookup_fmap, Hj. simpl. by rewrite Heq.
Qed.

End Feeds.

(** ** The scroll of the water texture *)

Section Scroll.

Context `{DX : DirectXMath} {Waves : Type} `{WA : WavesAPI Waves}.

#[local] Abbreviation App := (CastleApp Waves).
Implicit Types (s : App).

(** C10.  In a frame, with the scroll offsets [tu], [tv] of the water
    material in [[0, 1)] and [0.1f * DeltaTime] in [[0, 1)] (all three as
    the comparisons of the source read them, on values of binary32),
    [UpdateWater] returns, the new offsets are [tu + 0.1f * DeltaTime] and
    [tv + 0.02f * DeltaTime], each less [1.0f] when it has reached [1.0f],
    and both are again values of binary32 in [[0, 1)]. *)
Theorem water_scroll_in_unit gt s tu tv :
  in_frame s ->
  water_offsets s = Some (tu, tv) ->
  F32.valid (gt_DeltaTime gt) = true ->
  F32.valid tu = true -> F32.valid tv = true ->
  in_unit (F32.mul f0_1 (gt_DeltaTime gt)) = true ->
  in_unit tu = true -> in_unit tv = true ->
  exists s' tu' tv',
    UpdateWater gt s = Some s' /\
    water_offsets s' = Some (tu', tv') /\
    tu' = (let t1 := F32.add tu (F32.mul f0_1 (gt_DeltaTime gt)) in
           if F32.geb t1 f1_0 then F32.sub t1 f1_0 else t1) /\
    tv' = (let t1 := F32.add tv (F32.mul f0_02 (gt_DeltaTime gt)) in
           if F32.geb t1 f1_0 then F32.sub t1 f1_0 else t1) /\
    F32.valid tu' = true /\ F32.valid tv' = true /\
    in_unit tu' = true /\ in_unit tv' = true.
Proof.
  intros Hin Hoff Vd Vtu Vtv Hdt Htu Htv.
  destruct (UpdateWater_total gt s Hin) as (s' & Hs' & _).
  destruct (UpdateWater_materials _ _ _ Hs') as (waterMat & Hlook & Hmats).
  unfold water_offsets in Hoff. rewrite Hlook in Hoff. simpl in Hoff.
  injection Hoff as <- <-.
  set (M := MatTransform waterMat) in *.
  exists s', (scroll (mat_get M 3 0) f0_1 (gt_DeltaTime gt)),
    (scroll (mat_get M 3 1) f0_02 (gt_DeltaTime gt)).
  split; [done|]. split.
  { unfold water_offsets. rewrite Hmats, alist_lookup_set by (by rewrite Hlook).
    reflexivity. }
  split; [done|]. split; [done|].
  pose proof (slower_rate_unit _ Vd Hdt) as Hdt'.
  destruct (scroll_unit _ f0_1 _ Vtu ltac:(done) Vd Htu Hdt) as [? ?].
  destruct (scroll_unit _ f0_02 _ Vtv ltac:(done) Vd Htv Hdt') as [? ?].
  done.
Qed.

End Scroll.

(** ** The wave field *)

(** C3.  On the field of [m = n = 8], [dx = 1.0], [dt = 0.03], [c = 4.0]
    and [damping = 0.2], [disturb(4, 4, 1.0)] followed by [update(0.03)]
    does exactly one step and ends; after it [current[4][4]] is not zero,
    [previous[4][4]] is [1.0], the value [disturb] wrote, and every value
    of the three grids is finite. *)
Theorem wave_scenario (fuel : nat) :
  let w1 := WaveField.disturb 4 4 f1_0 WaveField.scenario in
  let dt := F32.lit 3 100 in
  WaveField.cell (WaveField.current w1) 4 4 = f1_0 /\
  WaveField.update (S (S fuel)) dt w1
  = Some (WaveField.set_Elapsed F32.zero
            (WaveField.step (WaveField.set_Elapsed dt w1))) /\
  exists w2, WaveField.update (S (S fuel)) dt w1 = Some w2 /\
    F32.eqb (WaveField.cell (WaveField.current w2) 4 4) F32.zero = false /\
    WaveField.cell (WaveField.previous w2) 4 4 = f1_0 /\
    WaveField.all_finite w2 = true.
Proof.
  intros w1 dt.
  assert (WaveField.update (S (S fuel)) dt w1
          = Some (WaveField.set_Elapsed F32.zero
                    (WaveField.step (WaveField.set_Elapsed dt w1)))) as Hup.
  { unfold WaveField.update.
    replace (WaveField.set_Elapsed (F32.add (WaveField.Elapsed w1) dt) w1)
      with (WaveField.set_Elapsed dt w1) by (by vm_compute).
    cbn [WaveField.advance].
    replace (F32.geb (WaveField.Elapsed (WaveField.set_Elapsed dt w1))
               (WaveField.TimeStep (WaveField.set_Elapsed dt w1)))
      with true by (by vm_compute).
    replace (F32.sub (WaveField.Elapsed (WaveField.set_Elapsed dt w1))
               (WaveField.TimeStep (WaveField.set_Elapsed dt w1)))
      with F32.zero by (by vm_compute).
    replace (F32.geb
               (WaveField.Elapsed
                  (WaveField.set_Elapsed F32.zero
                     (WaveField.step (WaveField.set_Elapsed dt w1))))
               (WaveField.TimeStep
                  (WaveField.set_Elapsed F32.zero
                     (WaveField.step (WaveField.set_Elapsed dt w1)))))
      with false by (by vm_compute).
    done. }
  split; [by vm_compute|]. split; [exact Hup|].
  eexists. split; [exact Hup|].
  split; [by vm_compute|]. split; by vm_compute.
Qed.

(** The scale of [k2] in exact arithmetic, fractions cleared: the quotient
    the spec writes, [(2 dx^2 - 4 c^2 dt^2) / (c^2 dt^2 D)] with
    [D = d dt + 2], times [2 c^2 dt^2 / dx^2] is
    [(4 dx^2 - 8 c^2 dt^2) / (dx^2 D)], and with it
    [k1 + k2 + 4 k3 = 1]. *)
Lemma k2_scale (dx2 c2dt2 ddt : Z) :
  let D := ddt + 2 in
  (2 * dx2 - 4 * c2dt2) * (2 * c2dt2) * (dx2 * D)
  = (4 * dx2 - 8 * c2dt2) * ((c2dt2 * D) * dx2) /\
  (ddt - 2) * dx2 + (4 * dx2 - 8 * c2dt2) + 4 * (2 * c2dt2) = D * dx2.
Proof. intros D. unfold D. split; ring. Qed.

(** The coefficients of the scenario, [c dt / dx = 0.12]: [k1] is about
    [-0.994], [k2] about [1.937] and [k3] about [0.0144]; the field stays
    finite over the next 200 steps. *)
Lemma scenario_stable :
  let w1 := WaveField.disturb 4 4 f1_0 WaveField.scenario in
  WaveField.K1 WaveField.scenario = S754_finite true 16676853 (-24) /\
  WaveField.K2 WaveField.scenario = S754_finite false 16245295 (-23) /\
  WaveField.K3 WaveField.scenario = S754_finite false 15415635 (-30) /\
  WaveField.finite_for 200 w1 = true.
Proof.
  intros w1. split; [vm_compute; reflexivity|]. split; [vm_compute; reflexivity|].
  split; vm_compute; reflexivity.
Qed.

(** ** The small scene *)

Lemma small_scene_WF fence : 0 <= fence <= UINT64_MAX -> WF (small_scene fence).
Proof.
  intros Hf. constructor.
  - reflexivity.
  - cbn. unfold gNumFrameResources. lia.
  - exact Hf.
  - unfold fits. cbn. repeat constructor; vm_compute; done.
  - cbn. eauto.
  - exists 2%nat. eexists. exists "waterGeo". cbn. repeat split. eauto.
Qed.

Lemma small_frame_in_frame fence : 0 <= fence <= UINT64_MAX -> in_frame (small_frame fence).
Proof.
  intros Hf. split.
  - eapply (WF_same_shape (small_scene fence)); [by apply small_scene_WF| | |]; done.
  - cbn. eauto.
Qed.

(** ** Runs as host steps *)

Section RunSteps.

Context `{DX : DirectXMath} {Waves : Type} `{WA : WavesAPI Waves}.

#[local] Abbreviation App := (CastleApp Waves).
#[local] Abbreviation Sys := (@System Waves).

Lemma submissions_cons n (sys sys1 sys2 sys3 : Sys) :
  pc sys = Idle -> step Host sys sys1 -> pc sys1 = Ready -> step Host sys1 sys2 ->
  submissions n sys2 sys3 -> submissions (S n) sys sys3.
Proof.
  intros Hp Hs Hp1 Hs1 Hsub. induction Hsub as [sys2|n sys2 sa sb sc Hsub IH Hpa Hsa Hpb Hsb].
  - eapply submissions_S; [apply submissions_O|done..].
  - eapply submissions_S; [by apply IH|done..].
Qed.

(** A run whose frames never wait is a sequence of submissions with the
    GPU standing still at [c]. *)
Lemma run_submissions inputs : forall (s : App) c q out s',
  Forall (fun i : GameTimer * Z * Z => i.2 = c) inputs ->
  run inputs s = Some (out, s') ->
  Forall (fun o : bool * Z => o.1 = false) out ->
  submissions (length inputs) (mkSystem s c q Idle) (mkSystem s' c (q ++ out.*2) Idle).
Proof.
  induction inputs as [|[[gt key1] c0] inputs IH]; intros s c q out s' Hc Hr Hout.
  - simpl in Hr. injection Hr as <- <-. simpl. rewrite app_nil_r. apply submissions_O.
  - apply Forall_cons in Hc as [Hc0 Hc]. simpl in Hc0. subst c0.
    apply run_Some_cons in Hr as (w & s1 & v & out1 & Ht & Hr & ->).
    apply Forall_cons in Hout as [Hw Hout]. simpl in Hw. subst w.
    apply tick_Some in Ht as (sa & sb & H1 & H2 & H3 & H4).
    assert (exists fr, curr sa = Some fr) as [fr Hfr].
    { unfold must_wait in H2. destruct (curr sa); [eauto|done]. }
    simpl length.
    eapply (submissions_cons _ _ (mkSystem sa c q Ready) (mkSystem s1 c (q ++ [v]) Idle)).
    + done.
    + apply (step_front key1 s c q sa fr false); done.
    + done.
    + by eapply step_back.
    + replace (q ++ ((false, v) :: out1).*2) with ((q ++ [v]) ++ out1.*2)
        by (by rewrite <- app_assoc).
      by apply IH.
Qed.

End RunSteps.

(** ** The theorems on the small scene *)

Lemma first_frames_never_wait_witness :
  WF (small_scene 5) /\
  Forall (fun fr => Fence fr = 0) (mFrameResources (small_scene 5)) /\
  exists out s',
    run [(gt60 1, 0, 5); (gt60 2, 0, 5); (gt60 3, 0, 5)] (small_scene 5) = Some (out, s') /\
    length out = 3%nat /\ Forall (fun o => o.1 = false) out.
Proof.
  split; [apply small_scene_WF; vm_compute; split; intros [=]|].
  split; [repeat constructor|].
  apply (proj2 (@first_frames_never_wait DX_fixed StillWaves StillWaves_API)).
  - apply small_scene_WF. vm_compute. split; intros [=].
  - repeat constructor.
  - vm_compute. intros [=].
Defined.

Lemma retire_markers_increase_witness :
  WF (small_scene 5) /\
  exists out s',
    run [(gt60 1, 0, 5); (gt60 2, 0, 6); (gt60 3, 0, 6); (gt60 4, 0, 7)] (small_scene 5)
      = Some (out, s') /\
    length out = 4%nat /\
    (forall k v, out.*2 !! k = Some v -> v = 5 + Z.of_nat k + 1) /\
    (forall j k vj vk, (j < k)%nat ->
       out.*2 !! j = Some vj -> out.*2 !! k = Some vk -> vj < vk).
Proof.
  split; [apply small_scene_WF; vm_compute; split; intros [=]|].
  apply (proj2 (@retire_markers_increase DX_fixed StillWaves StillWaves_API)).
  - apply small_scene_WF. vm_compute. split; intros [=].
  - vm_compute. intros [=].
Defined.

Lemma ring_advance_blocks_witness :
  let sys := mkSystem (small_scene 5) 5 [] Idle in
  exists sys3 : @System StillWaves,
    submissions 3 sys sys3 /\
    (exists sys4, step Host sys3 sys4) /\
    (forall sys4, step Host sys3 sys4 ->
       pc sys4 = Blocked 6 /\ completed sys4 < 6 /\
       (forall a sys5, step a sys4 sys5 -> a = Gpu) /\
       (exists sys5, step Gpu sys4 sys5)).
Proof.
  intros sys.
  assert (WF (small_scene 5)) as Hwf
    by (apply small_scene_WF; vm_compute; split; intros [=]).
  destruct (run_total (DX := DX_fixed)
              [(gt60 1, 0, 5); (gt60 2, 0, 5); (gt60 3, 0, 5)] (small_scene 5) Hwf)
    as (out & s3 & Hr & _ & _).
  assert (Forall (fun o : bool * Z => o.1 = false) out) as Hout.
  { destruct (proj2 (@first_frames_never_wait DX_fixed StillWaves StillWaves_API)
                (small_scene 5) [(gt60 1, 0, 5); (gt60 2, 0, 5); (gt60 3, 0, 5)] Hwf)
      as (out' & s' & Hr' & _ & Hall).
    - repeat constructor.
    - vm_compute. intros [=].
    - congruence. }
  exists (mkSystem s3 5 ([] ++ out.*2) Idle).
  assert (submissions 3 sys (mkSystem s3 5 ([] ++ out.*2) Idle)) as Hsub.
  { apply (run_submissions (DX := DX_fixed)
             [(gt60 1, 0, 5); (gt60 2, 0, 5); (gt60 3, 0, 5)]); [repeat constructor|done..]. }
  split; [exact Hsub|].
  apply (proj2 (proj2 (proj2
           (@ring_advance_blocks DX_fixed StillWaves StillWaves_API))) sys);
    [exact Hwf|reflexivity|vm_compute; intros [=]|vm_compute; reflexivity|exact Hsub].
Defined.

Lemma dirty_countdown_witness :
  let s := small_scene 5 in
  WF s /\
  NoDup ((fun e => int_of_UINT (ObjCBIndex e)) <$> mAllRitems s) /\
  NoDup ((fun e : string * Material => MatCBIndex e.2) <$> mMaterials s) /\
  (exists wall out s1 w s2 v cb' entry,
     mAllRitems s !! 1%nat = Some wall /\
     ri_NumFramesDirty wall = gNumFrameResources /\
     run [(gt60 1, 0, 5)] s = Some (out, s1) /\
     tick (gt60 2) 0 6 s1 = Some (w, s2, v) /\
     mAllRitems s1 !! 1%nat = Some (ri_set_NumFramesDirty 2 wall) /\
     mAllRitems s2 !! 1%nat = Some (ri_set_NumFramesDirty 1 wall) /\
     member ObjectCB s2 !! slot_after s 2 = Some cb' /\
     ub_read cb' 1 = Some entry /\
     oc_World entry = XMMatrixTranspose (World wallRitem1) /\
     oc_TexTransform entry = Identity4x4) /\
  (exists brick out s1 w s2 v cb' entry,
     alist_lookup "brick2" (mMaterials s) = Some brick /\
     mat_NumFramesDirty brick = gNumFrameResources /\
     run [(gt60 1, 0, 5)] s = Some (out, s1) /\
     tick (gt60 2) 0 6 s1 = Some (w, s2, v) /\
     alist_lookup "brick2" (mMaterials s2) = Some (mat_set_NumFramesDirty 1 brick) /\
     member MaterialCB s2 !! slot_after s 2 = Some cb' /\
     ub_read cb' 2 = Some entry /\
     mc_Roughness entry = F32.lit 225 1000 /\
     mc_MatTransform entry = XMMatrixTranspose Identity4x4) /\
  (exists wall out s3 w s4 v cb cb',
     mAllRitems s !! 1%nat = Some wall /\
     run [(gt60 1, 0, 5); (gt60 2, 0, 6); (gt60 3, 0, 7)] s = Some (out, s3) /\
     tick (gt60 4) 0 8 s3 = Some (w, s4, v) /\
     mAllRitems s3 !! 1%nat = Some (ri_set_NumFramesDirty 0 wall) /\
     mAllRitems s4 !! 1%nat = Some (ri_set_NumFramesDirty 0 wall) /\
     member ObjectCB s3 !! slot_after s 4 = Some cb /\
     member ObjectCB s4 !! slot_after s 4 = Some cb' /\
     ub_read cb' 1 = ub_read cb 1).
Proof.
  intros s.
  assert (WF s) as Hwf by (apply small_scene_WF; vm_compute; split; intros [=]).
  assert (NoDup ((fun e => int_of_UINT (ObjCBIndex e)) <$> mAllRitems s)) as Hndo.
  { compute_done. }
  assert (NoDup ((fun e : string * Material => MatCBIndex e.2) <$> mMaterials s)) as Hndm.
  { compute_done. }
  split; [exact Hwf|]. split; [exact Hndo|]. split; [exact Hndm|].
  split; [|split].
  - destruct (@dirty_countdown DX_fixed StillWaves StillWaves_API
                s [(gt60 1, 0, 5)] (gt60 2) 0 6 Hwf Hndo Hndm) as (_ & Hobj & _).
    destruct (Hobj 1%nat _ eq_refl eq_refl)
      as (out & s1 & w & s2 & v & cb & cb' & Hr & Ht & H1 & H2 & _ & _ & Hcb' & _
          & Hcopy & _).
    destruct Hcopy as (entry & _ & Hread & Hworld & Htex); [vm_compute; reflexivity|].
    eexists _, out, s1, w, s2, v, cb', entry.
    split; [reflexivity|]. split; [reflexivity|]. split; [exact Hr|]. split; [exact Ht|].
    split; [exact H1|]. split; [exact H2|]. split; [exact Hcb'|].
    split; [exact Hread|]. split; [exact Hworld|exact Htex].
  - destruct (@dirty_countdown DX_fixed StillWaves StillWaves_API
                s [(gt60 1, 0, 5)] (gt60 2) 0 6 Hwf Hndo Hndm) as (_ & _ & Hmat).
    destruct (Hmat "brick2" _ ltac:(discriminate) eq_refl eq_refl)
      as (out & s1 & w & s2 & v & waterMat & cb & cb' & Hr & Ht & _ & _ & H2 & _ & _
          & Hcb' & _ & Hcopy & _).
    destruct Hcopy as (entry & _ & Hread & _ & _ & Hrough & Htrans);
      [vm_compute; reflexivity|].
    eexists _, out, s1, w, s2, v, cb', entry.
    split; [reflexivity|]. split; [reflexivity|]. split; [exact Hr|]. split; [exact Ht|].
    split; [exact H2|]. split; [exact Hcb'|]. split; [exact Hread|].
    split; [exact Hrough|exact Htrans].
  - destruct (@dirty_countdown DX_fixed StillWaves StillWaves_API
                s [(gt60 1, 0, 5); (gt60 2, 0, 6); (gt60 3, 0, 7)] (gt60 4) 0 8
                Hwf Hndo Hndm) as (_ & Hobj & _).
    destruct (Hobj 1%nat _ eq_refl eq_refl)
      as (out & s3 & w & s4 & v & cb & cb' & Hr & Ht & H3 & H4 & _ & Hcb & Hcb' & _ & _
          & Hno).
    eexists _, out, s3, w, s4, v, cb, cb'.
    split; [reflexivity|]. split; [exact Hr|]. split; [exact Ht|].
    split; [exact H3|]. split; [exact H4|]. split; [exact Hcb|]. split; [exact Hcb'|].
    apply Hno. vm_compute. intros [=].
Defined.

Lemma main_pass_always_written_witness :
  let s := small_scene 5 in
  WF s /\
  exists out s1 w s2 v fr' cb,
    run [(gt60 1, 0, 5)] s = Some (out, s1) /\
    tick (gt60 2) 0 6 s1 = Some (w, s2, v) /\
    mCurrFrameResource s2 = Some 2%nat /\
    curr s2 = Some fr' /\
    ub_read (PassCB fr') 0 = Some cb /\
    TotalTime cb = F32.lit 2 60 /\ DeltaTime cb = F32.lit 1 60 /\
    FarZ cb = F32.of_Z 1000 /\
    RenderTargetSize cb = mkF2 (F32.of_Z 800) (F32.of_Z 600) /\
    Lights cb !! 3%nat
    = Some (mkLight (mkF3 (F32.lit 1 10) (F32.lit 1 10) (F32.lit 38 10)) f1_0
              (mkF3 F32.zero F32.zero F32.zero) (F32.of_Z 5)
              (mkF3 (F32.of_Z 7) (F32.lit 55 10) (F32.of_Z 7)) F32.zero).
Proof.
  intros s.
  assert (WF s) as Hwf by (apply small_scene_WF; vm_compute; split; intros [=]).
  split; [exact Hwf|].
  destruct (@main_pass_always_written DX_fixed StillWaves StillWaves_API
              s [(gt60 1, 0, 5)] (gt60 2) 0 6 Hwf)
    as (out & s1 & w & s2 & v & fr' & old & Hr & Ht & Hcur & Hfr' & Hold & Hpass & Hread
        & Hother & _ & _ & _ & _ & _ & _ & _ & Hsize & _ & _ & Hfar & Htot & Hdt & _ & _
        & _ & _ & _ & H3 & _).
  exists out, s1, w, s2, v, fr', (mMainPassCB s2).
  split; [exact Hr|]. split; [exact Ht|].
  assert (next_index s1 = 2%nat /\ mClientWidth s1 = 800 /\ mClientHeight s1 = 600 /\
          exists l, Lights (mMainPassCB s1) !! 3%nat = Some l /\
            Direction l = mkF3 F32.zero F32.zero F32.zero /\ SpotPower l = F32.zero)
    as (Hn & Hw & Hh & l & Hl & Hdir & Hspot).
  { vm_compute in Hr. injection Hr as _ <-. vm_compute. eauto 10. }
  rewrite Hn in Hcur. rewrite Hw, Hh in Hsize. rewrite (H3 l Hl), Hdir, Hspot.
  split; [exact Hcur|]. split; [exact Hfr'|]. split; [exact Hread|].
  split; [exact Htot|]. split; [exact Hdt|]. split; [exact Hfar|].
  split; [exact Hsize|]. reflexivity.
Defined.

Lemma wave_vertices_remapped_witness :
  let s := small_frame 5 in
  in_frame s /\
  exists s' fr' v,
    UpdateWater (gt60 1) s = Some s' /\ curr s' = Some fr' /\
    ub_read (WavesVB fr') 1 = Some v /\
    Pos v = mkF3 (F32.lit 1 2) F32.zero (F32.lit 1 2) /\
    TexC v = mkF2 f1_0 F32.zero.
Proof.
  intros s.
  assert (in_frame s) as Hin
    by (apply small_frame_in_frame; vm_compute; split; intros [=]).
  split; [exact Hin|].
  destruct (@wave_vertices_remapped StillWaves StillWaves_API (gt60 1) s Hin)
    as (s' & fr' & Hs' & Hfr' & Hw & Hv).
  destruct (Hv 1) as (v & Hread & Hpos & Hnormal & Hu & Hv1).
  { rewrite Hw. vm_compute. split; [intros [=]|reflexivity]. }
  exists s', fr', v. split; [exact Hs'|]. split; [exact Hfr'|]. split; [exact Hread|].
  rewrite Hw in *. destruct v as [pos nrm [tu tv]]. simpl in *. subst.
  split; vm_compute; reflexivity.
Defined.

Lemma water_vb_follows_slot_witness :
  let s := small_scene 5 in
  WF s /\
  exists w s' v,
    tick (gt60 1) 0 5 s = Some (w, s', v) /\
    water_vb_current s' /\ mCurrFrameResource s' = Some 1%nat.
Proof.
  intros s.
  assert (WF s) as Hwf by (apply small_scene_WF; vm_compute; split; intros [=]).
  split; [exact Hwf|].
  apply (proj1 (proj2 (@water_vb_follows_slot DX_fixed StillWaves StillWaves_API))
           (gt60 1) 0 5 s Hwf).
Defined.

Lemma water_scroll_in_unit_witness :
  let s := small_frame 5 in
  let dt := gt_DeltaTime (gt60 1) in
  in_frame s /\
  water_offsets s = Some (F32.zero, F32.zero) /\
  in_unit (F32.mul f0_1 dt) = true /\
  exists s', UpdateWater (gt60 1) s = Some s' /\
    water_offsets s' = Some (F32.mul f0_1 dt, F32.mul f0_02 dt) /\
    in_unit (F32.mul f0_1 dt) = true /\ in_unit (F32.mul f0_02 dt) = true.
Proof.
  intros s dt.
  assert (in_frame s) as Hin
    by (apply small_frame_in_frame; vm_compute; split; intros [=]).
  split; [exact Hin|]. split; [reflexivity|]. split; [reflexivity|].
  destruct (@water_scroll_in_unit StillWaves StillWaves_API (gt60 1) s
              F32.zero F32.zero Hin eq_refl eq_refl eq_refl eq_refl eq_refl eq_refl eq_refl)
    as (s' & tu' & tv' & Hs' & Hoff & -> & -> & _ & _ & Hu & Hv).
  exists s'. split; [exact Hs'|]. split; [exact Hoff|]. split; [exact Hu|exact Hv].
Defined.

(** ** The slots a frame leaves alone *)

Section Slots.

Context `{DX : DirectXMath} {Waves : Type} `{WA : WavesAPI Waves}.

#[local] Abbreviation App := (CastleApp Waves).
Implicit Types (s : App) (fr : FrameResource).

Lemma UpdateWater_slots gt s s' j :
  UpdateWater gt s = Some s' -> mCurrFrameResource s <> Some j ->
  mFrameResources s' !! j = mFrameResources s !! j.
Proof.
  intros (waterMat & i & fr & vb & r & item & g & _ & Hi & _ & _ & _ & _ & _ & _ & ->)%UpdateWater_Some
    Hne.
  simpl. apply list_lookup_insert_ne. congruence.
Qed.

Lemma UpdateObjectCBs_slots s s' j :
  UpdateObjectCBs s = Some s' -> mCurrFrameResource s <> Some j ->
  mFrameResources s' !! j = mFrameResources s !! j.
Proof.
  intros (i & fr & cb & Hi & _ & _ & ->)%UpdateObjectCBs_Some Hne.
  simpl. apply list_lookup_insert_ne. congruence.
Qed.

Lemma UpdateMaterialCBs_slots s s' j :
  UpdateMaterialCBs s = Some s' -> mCurrFrameResource s <> Some j ->
  mFrameResources s' !! j = mFrameResources s !! j.
Proof.
  intros (i & fr & cb & Hi & _ & _ & ->)%UpdateMaterialCBs_Some Hne.
  simpl. apply list_lookup_insert_ne. congruence.
Qed.

Lemma UpdateMainPassCB_slots gt s s' j :
  UpdateMainPassCB gt s = Some s' -> mCurrFrameResource s <> Some j ->
  mFrameResources s' !! j = mFrameResources s !! j.
Proof.
  intros (i & fr & cb & Hi & _ & _ & ->)%UpdateMainPassCB_Some Hne.
  simpl. apply list_lookup_insert_ne. congruence.
Qed.

Lemma Draw_slots s s' v j :
  Draw s = Some (s', v) -> mCurrFrameResource s <> Some j ->
  mFrameResources s' !! j = mFrameResources s !! j.
Proof.
  intros (i & fr & Hi & _ & _ & ->)%Draw_Some Hne.
  simpl. apply list_lookup_insert_ne. congruence.
Qed.

Lemma Update_back_slots gt s s' j :
  Update_back gt s = Some s' -> mCurrFrameResource s <> Some j ->
  mFrameResources s' !! j = mFrameResources s !! j.
Proof.
  intros (s1 & s2 & s3 & H1 & H2 & H3 & H4)%Update_back_Some Hne.
  pose proof (rg_curr _ _ (UpdateWater_ring _ _ _ H1)) as E1.
  pose proof (rg_curr _ _ (UpdateObjectCBs_ring _ _ H2)) as E2.
  pose proof (rg_curr _ _ (UpdateMaterialCBs_ring _ _ H3)) as E3.
  rewrite (UpdateMainPassCB_slots _ _ _ j H4) by congruence.
  rewrite (UpdateMaterialCBs_slots _ _ j H3) by congruence.
  rewrite (UpdateObjectCBs_slots _ _ j H2) by congruence.
  by apply (UpdateWater_slots _ _ _ j H1).
Qed.

Lemma tick_slots gt key1 c s w s' v j :
  tick gt key1 c s = Some (w, s', v) -> j <> next_index s ->
  mFrameResources s' !! j = mFrameResources s !! j.
Proof.
  intros (s1 & s2 & Hf & _ & Hb & Hd)%tick_Some Hne.
  pose proof (Update_front_ring _ _ _ Hf) as (_ & Hc1 & _ & Hfr).
  pose proof (rg_curr _ _ (Update_back_ring _ _ _ Hb)) as Hc2.
  rewrite (Draw_slots _ _ _ j Hd) by congruence.
  rewrite (Update_back_slots _ _ _ j Hb) by congruence.
  by rewrite Hfr.
Qed.

(** X1.  A frame, [Update] then [Draw], writes into the frame resource it
    selects and into no other: every other slot of the ring, buffers and
    fence, is after the frame what it was before, and the ring keeps its
    length. *)
Theorem tick_keeps_other_slots gt key1 c s w s' v :
  tick gt key1 c s = Some (w, s', v) ->
  length (mFrameResources s') = length (mFrameResources s) /\
  mCurrFrameResource s' = Some (next_index s) /\
  forall j, j <> next_index s -> mFrameResources s' !! j = mFrameResources s !! j.
Proof.
  intros Ht. split; [|split].
  - pose proof (sh_sizes _ _ (tick_shape _ _ _ _ _ _ _ Ht)) as E.
    apply (f_equal length) in E. by rewrite !length_fmap in E.
  - by apply tick_ring in Ht as (_ & _ & _ & _ & _ & ?).
  - intros j Hj. by eapply tick_slots.
Qed.

End Slots.

(** ** Dirty counts *)

Section Counts.

Context `{DX : DirectXMath} {Waves : Type} `{WA : WavesAPI Waves}.

#[local] Abbreviation App := (CastleApp Waves).
Implicit Types (s : App) (fr : FrameResource).
#[local] Abbreviation ri_index := (fun e : RenderItem => int_of_UINT (ObjCBIndex e)).
#[local] Abbreviation ri_elem := (pass_elem ri_NumFramesDirty ri_set_NumFramesDirty).
#[local] Abbreviation ri_write := (pass_write ri_NumFramesDirty ri_index objConstants).
#[local] Abbreviation mat_dirty := (fun e : string * Material => mat_NumFramesDirty e.2).
#[local] Abbreviation mat_index := (fun e : string * Material => MatCBIndex e.2).
#[local] Abbreviation mat_elem := (pass_elem mat_dirty mat_entry_set_dirty).
#[local] Abbreviation mat_write :=
  (pass_write mat_dirty mat_index (fun e : string * Material => matConstants e.2)).
#[local] Abbreviation ri_range :=
  (fun e : RenderItem => 0 <= ri_NumFramesDirty e <= gNumFrameResources).
#[local] Abbreviation mat_range :=
  (fun e : string * Material => 0 <= mat_NumFramesDirty e.2 <= gNumFrameResources).

Lemma ri_elem_range e : ri_range e -> ri_range (ri_elem e).
Proof.
  unfold pass_elem. destruct (Z.ltb_spec 0 (ri_NumFramesDirty e)); simpl; lia.
Qed.

Lemma mat_elem_range e : mat_range e -> mat_range (mat_elem e).
Proof.
  unfold pass_elem. destruct (Z.ltb_spec 0 (mat_dirty e)); simpl in *; lia.
Qed.

Lemma alist_set_Forall {V} (P : string * V -> Prop) k v (l : list (string * V)) :
  P (k, v) -> Forall P l -> Forall P (alist_set k v l).
Proof.
  intros Hv. induction 1 as [|[k' v'] l Hx Hl IH]; simpl; [done|].
  destruct (decide (k = k')) as [->|]; by constructor.
Qed.

Lemma tick_counts gt key1 c s w s' v :
  tick gt key1 c s = Some (w, s', v) ->
  (Forall ri_range (mAllRitems s) -> Forall ri_range (mAllRitems s')) /\
  (Forall mat_range (mMaterials s) -> Forall mat_range (mMaterials s')).
Proof.
  intros Ht. split.
  - intros Hr. apply tick_objects in Ht as [-> _].
    apply Forall_fmap. eapply Forall_impl; [done|]. apply ri_elem_range.
  - intros Hr. apply tick_materials in Ht as (waterMat & cb & cb' & _ & -> & _).
    apply Forall_fmap. eapply Forall_impl; [|apply mat_elem_range].
    apply alist_set_Forall; [|done]. simpl. unfold gNumFrameResources. lia.
Qed.

(** X2.  The dirty counts stay in range: over any run of frames, if every
    render item has [NumFramesDirty] between 0 and [gNumFrameResources]
    before, so it has after, and likewise every material. *)
Theorem dirty_counts_in_range inputs : forall s out s',
  run inputs s = Some (out, s') ->
  (Forall ri_range (mAllRitems s) -> Forall ri_range (mAllRitems s')) /\
  (Forall mat_range (mMaterials s) -> Forall mat_range (mMaterials s')).
Proof.
  induction inputs as [|[[gt key1] c] inputs IH]; intros s out s' Hr.
  - simpl in Hr. by injection Hr as _ <-.
  - apply run_Some_cons in Hr as (w & s1 & v & out1 & Ht & Hr & _).
    destruct (tick_counts _ _ _ _ _ _ _ Ht) as [H1 H2].
    destruct (IH _ _ _ Hr) as [H3 H4]. split; auto.
Qed.

Lemma omap_clean {E T} (dirty : E -> Z) (set : Z -> E -> E) (idx : E -> Z)
    (cst : E -> T) (es : list E) :
  Forall (fun e => dirty e <= 0) es ->
  omap (pass_write dirty idx cst) es = [] /\ pass_elem dirty set <$> es = es.
Proof.
  induction 1 as [|e es He Hes [IH1 IH2]]; [done|].
  assert (pass_write dirty idx cst e = None) as Hw.
  { unfold pass_write. destruct (Z.ltb_spec 0 (dirty e)); [lia|done]. }
  assert (pass_elem dirty set e = e) as He'.
  { unfold pass_elem. destruct (Z.ltb_spec 0 (dirty e)); [lia|done]. }
  split.
  - simpl. rewrite Hw. exact IH1.
  - rewrite fmap_cons, He'. by f_equal.
Qed.

(** X3.  A pass over elements that are all clean does nothing: with a frame
    resource selected and no render item of positive [NumFramesDirty],
    [UpdateObjectCBs] leaves the whole state as it is, counts that are
    zero or negative included, and so does [UpdateMaterialCBs] for the
    materials.  No index is looked at, so none can be out of range. *)
Theorem clean_pass_changes_nothing s :
  is_Some (curr s) ->
  (Forall (fun e => ri_NumFramesDirty e <= 0) (mAllRitems s) ->
   UpdateObjectCBs s = Some s) /\
  (Forall (fun e : string * Material => mat_NumFramesDirty e.2 <= 0) (mMaterials s) ->
   UpdateMaterialCBs s = Some s).
Proof.
  intros [fr Hfr]. pose proof Hfr as (i & Hi & Hl)%curr_Some. split.
  - intros Hc.
    destruct (omap_clean ri_NumFramesDirty ri_set_NumFramesDirty ri_index objConstants
                _ Hc) as [E1 E2].
    apply UpdateObjectCBs_Some. exists i, fr, (ObjectCB fr).
    split; [done|]. split; [done|]. split; [by rewrite E1|].
    rewrite E2. replace (set_ObjectCB (ObjectCB fr) fr) with fr by (by destruct fr).
    rewrite list_insert_id by done. by destruct s.
  - intros Hc.
    destruct (omap_clean mat_dirty mat_entry_set_dirty mat_index
                (fun e : string * Material => matConstants e.2) _ Hc) as [E1 E2].
    apply UpdateMaterialCBs_Some. exists i, fr, (MaterialCB fr).
    split; [done|]. split; [done|]. split; [by rewrite E1|].
    rewrite E2. replace (set_MaterialCB (MaterialCB fr) fr) with fr by (by destruct fr).
    rewrite list_insert_id by done. by destruct s.
Qed.

End Counts.

(** ** When a pass returns *)

Section Domain.

Context `{DX : DirectXMath} {Waves : Type} `{WA : WavesAPI Waves}.

#[local] Abbreviation App := (CastleApp Waves).
Implicit Types (s : App) (fr : FrameResource).
#[local] Abbreviation ri_index := (fun e : RenderItem => int_of_UINT (ObjCBIndex e)).
#[local] Abbreviation ri_elem := (pass_elem ri_NumFramesDirty ri_set_NumFramesDirty).
#[local] Abbreviation ri_write := (pass_write ri_NumFramesDirty ri_index objConstants).
#[local] Abbreviation mat_dirty := (fun e : string * Material => mat_NumFramesDirty e.2).
#[local] Abbreviation mat_index := (fun e : string * Material => MatCBIndex e.2).
#[local] Abbreviation mat_elem := (pass_elem mat_dirty mat_entry_set_dirty).
#[local] Abbreviation mat_write :=
  (pass_write mat_dirty mat_index (fun e : string * Material => matConstants e.2)).

Lemma Forall_pass_writes {E T} (dirty : E -> Z) (idx : E -> Z) (cst : E -> T)
    (P : Z -> Prop) (es : list E) :
  Forall (fun w : Z * T => P w.1) (omap (pass_write dirty idx cst) es) <->
  Forall (fun e => 0 < dirty e -> P (idx e)) es.
Proof.
  induction es as [|e es IH]; simpl; [split; constructor|].
  unfold pass_write at 1. destruct (Z.ltb_spec 0 (dirty e)).
  - rewrite !Forall_cons, IH. simpl. naive_solver.
  - rewrite Forall_cons, IH. split; [|naive_solver]. intros ?. split; [lia|done].
Qed.

(** X4.  [UpdateObjectCBs] returns exactly when a frame resource is
    selected and every render item of positive [NumFramesDirty] has its
    [ObjCBIndex], read as the [int] that [CopyData] takes, inside the
    object buffer of that frame resource; the index of a clean item does
    not matter.  [UpdateMaterialCBs] likewise, with [MatCBIndex] and the
    material buffer. *)
Theorem pass_returns_iff s :
  (is_Some (UpdateObjectCBs s) <->
   exists fr, curr s = Some fr /\
     Forall (fun e => 0 < ri_NumFramesDirty e ->
               0 <= int_of_UINT (ObjCBIndex e)
               < Z.of_nat (length (mMappedData (ObjectCB fr)))) (mAllRitems s)) /\
  (is_Some (UpdateMaterialCBs s) <->
   exists fr, curr s = Some fr /\
     Forall (fun e : string * Material => 0 < mat_NumFramesDirty e.2 ->
               0 <= MatCBIndex e.2
               < Z.of_nat (length (mMappedData (MaterialCB fr)))) (mMaterials s)).
Proof.
  split; split.
  - intros [s' (i & fr & cb & Hi & Hl & Hall & _)%UpdateObjectCBs_Some].
    exists fr. split; [apply curr_Some; eauto|].
    apply CopyData_all_Some_inv in Hall.
    by apply (Forall_pass_writes ri_NumFramesDirty ri_index objConstants
                (fun i => 0 <= i < Z.of_nat (length (mMappedData (ObjectCB fr))))).
  - intros (fr & (i & Hi & Hl)%curr_Some & Hall).
    apply (Forall_pass_writes ri_NumFramesDirty ri_index objConstants
             (fun i => 0 <= i < Z.of_nat (length (mMappedData (ObjectCB fr))))) in Hall.
    apply CopyData_all_is_Some in Hall as [cb Hcb].
    eexists. apply UpdateObjectCBs_Some. by exists i, fr, cb.
  - intros [s' (i & fr & cb & Hi & Hl & Hall & _)%UpdateMaterialCBs_Some].
    exists fr. split; [apply curr_Some; eauto|].
    apply CopyData_all_Some_inv in Hall.
    by apply (Forall_pass_writes mat_dirty mat_index
                (fun e : string * Material => matConstants e.2)
                (fun i => 0 <= i < Z.of_nat (length (mMappedData (MaterialCB fr))))).
  - intros (fr & (i & Hi & Hl)%curr_Some & Hall).
    apply (Forall_pass_writes mat_dirty mat_index
             (fun e : string * Material => matConstants e.2)
             (fun i => 0 <= i < Z.of_nat (length (mMappedData (MaterialCB fr))))) in Hall.
    apply CopyData_all_is_Some in Hall as [cb Hcb].
    eexists. apply UpdateMaterialCBs_Some. by exists i, fr, cb.
Qed.

End Domain.

(** ** The water material, frame by frame *)

Section WaterMaterial.

Context `{DX : DirectXMath} {Waves : Type} `{WA : WavesAPI Waves}.

#[local] Abbreviation App := (CastleApp Waves).
Implicit Types (s : App) (fr : FrameResource).
#[local] Abbreviation mat_dirty := (fun e : string * Material => mat_NumFramesDirty e.2).
#[local] Abbreviation mat_index := (fun e : string * Material => MatCBIndex e.2).
#[local] Abbreviation mat_elem := (pass_elem mat_dirty mat_entry_set_dirty).
#[local] Abbreviation mat_write :=
  (pass_write mat_dirty mat_index (fun e : string * Material => matConstants e.2)).

(** X5.  Whatever its dirty count was, the water material is copied in
    every frame: after [Update] and [Draw] the material buffer of the
    frame resource just used holds, at the [MatCBIndex] of the water, the
    albedo, Fresnel term and roughness of the material and its texture
    transform, transposed, with the two offsets scrolled by this frame;
    the material keeps the scrolled transform and is left with
    [NumFramesDirty = gNumFrameResources - 1]. *)
Theorem water_constants_every_frame gt key1 c s waterMat :
  WF s ->
  NoDup ((fun e : string * Material => MatCBIndex e.2) <$> mMaterials s) ->
  alist_lookup "water" (mMaterials s) = Some waterMat ->
  let dt := gt_DeltaTime gt in
  let M := MatTransform waterMat in
  let tu := (let t1 := F32.add (mat_get M 3 0) (F32.mul f0_1 dt) in
             if F32.geb t1 f1_0 then F32.sub t1 f1_0 else t1) in
  let tv := (let t1 := F32.add (mat_get M 3 1) (F32.mul f0_02 dt) in
             if F32.geb t1 f1_0 then F32.sub t1 f1_0 else t1) in
  let M' := mat_set (mat_set M 3 0 tu) 3 1 tv in
  exists w s' v fr' entry m',
    tick gt key1 c s = Some (w, s', v) /\
    curr s' = Some fr' /\
    ub_read (MaterialCB fr') (MatCBIndex waterMat) = Some entry /\
    mc_DiffuseAlbedo entry = DiffuseAlbedo waterMat /\
    mc_FresnelR0 entry = FresnelR0 waterMat /\
    mc_Roughness entry = Roughness waterMat /\
    mc_MatTransform entry = XMMatrixTranspose M' /\
    alist_lookup "water" (mMaterials s') = Some m' /\
    MatTransform m' = M' /\
    mat_NumFramesDirty m' = gNumFrameResources - 1.
Proof.
  intros Hwf Hnd Hw dt M tu tv M'.
  destruct (tick_total gt key1 c s Hwf) as (w & s' & v & Ht & Hwf').
  pose proof (tick_materials _ _ _ _ _ _ _ Ht)
    as (waterMat' & cb & cb' & Hw' & E & Hcb & Hall & Hmem).
  rewrite Hw in Hw'. injection Hw' as <-. simpl in E, Hall.
  pose proof (tick_ring _ _ _ _ _ _ _ Ht) as (_ & _ & _ & _ & _ & Hcur).
  set (mats := alist_set "water" (scrolled gt waterMat) (mMaterials s)) in *.
  assert (alist_lookup "water" mats = Some (scrolled gt waterMat)) as Hk.
  { unfold mats. apply alist_lookup_set. by rewrite Hw. }
  assert (NoDup (mat_index <$> mats)) as Hndk.
  { unfold mats. rewrite (alist_set_fmap mat_index); [done|].
    intros v' Hv'. rewrite Hw in Hv'. by injection Hv' as <-. }
  assert (("water", scrolled gt waterMat) ∈ mats) as Hin by (by apply alist_lookup_elem).
  assert (member MaterialCB s' !! next_index s = Some cb') as Hcb'.
  { rewrite Hmem. apply list_lookup_insert_eq. by eapply lookup_lt_Some. }
  destruct (curr_member MaterialCB s' _ _ Hcur Hcb') as (fr' & Hfr' & Efr').
  exists w, s', v, fr', (matConstants (scrolled gt waterMat)),
    (mat_set_NumFramesDirty (gNumFrameResources - 1) (scrolled gt waterMat)).
  split; [done|]. split; [done|]. split.
  { rewrite Efr'.
    apply (CopyData_all_read_in _ _ _ _ _ Hall); [by apply pass_writes_NoDup|].
    apply list_elem_of_omap. exists ("water", scrolled gt waterMat). split; [done|].
    apply pass_write_Some. split; [simpl; unfold gNumFrameResources; lia|done]. }
  split; [reflexivity|]. split; [reflexivity|]. split; [reflexivity|].
  split; [reflexivity|]. split; [|split; reflexivity].
  rewrite E, alist_lookup_fmap_keep, Hk.
  - done.
  - intros e. unfold pass_elem. by destruct (0 <? _).
Qed.

End WaterMaterial.

(** ** The fences of the ring *)

Section Fences.

Context `{DX : DirectXMath} {Waves : Type} `{WA : WavesAPI Waves}.

#[local] Abbreviation App := (CastleApp Waves).
Implicit Types (s : App) (fr : FrameResource).

Lemma tick_WF gt key1 c s w s' v :
  WF s -> tick gt key1 c s = Some (w, s', v) -> WF s'.
Proof.
  intros Hwf Ht. destruct (tick_total gt key1 c s Hwf) as (w0 & s0 & v0 & Ht0 & Hwf0).
  rewrite Ht in Ht0. by injection Ht0 as _ <- _.
Qed.

Lemma fences_length s : length (fences s) = length (mFrameResources s).
Proof. unfold fences. by rewrite length_fmap. Qed.

Lemma slot_after_lt s d : WF s -> (slot_after s d < length (fences s))%nat.
Proof.
  intros Hwf. rewrite fences_length. pose proof (wf_frames _ Hwf) as Hl.
  unfold slot_after.
  pose proof (Z.mod_pos_bound (mCurrFrameResourceIndex s + d) gNumFrameResources
                ltac:(done)).
  lia.
Qed.

Lemma run_fences_other inputs : forall s out s' j,
  WF s -> run inputs s = Some (out, s') ->
  (forall d, 1 <= d <= Z.of_nat (length inputs) -> slot_after s d <> j) ->
  fences s' !! j = fences s !! j.
Proof.
  induction inputs as [|[[gt key1] c] inputs IH]; intros s out s' j Hwf Hr Hj.
  - simpl in Hr. by injection Hr as _ <-.
  - apply run_Some_cons in Hr as (w & s1 & v & out1 & Ht & Hr & _).
    pose proof (tick_WF _ _ _ _ _ _ _ Hwf Ht) as Hwf1.
    pose proof (tick_ring _ _ _ _ _ _ _ Ht) as (_ & _ & _ & Hf & _).
    rewrite (IH _ _ _ j Hwf1 Hr).
    + rewrite Hf. apply list_lookup_insert_ne.
      rewrite (next_index_slot_after s (wf_index _ Hwf)). apply Hj.
      simpl length. lia.
    + intros d Hd. rewrite (slot_after_tick _ _ _ _ _ _ _ _ (wf_index _ Hwf) Ht).
      apply Hj. simpl length. lia.
Qed.

(** X6.  The fences of the ring are the markers of the latest frames: after
    [n] frames from a submission counter [F], with no wrap-around of the
    counter, frame [k] of the last [gNumFrameResources] has left its
    marker [F + k] in the slot it used, the slot [k] places after the
    starting cursor. *)
Theorem ring_holds_latest_markers inputs : forall s out s',
  WF s ->
  mCurrentFence s + Z.of_nat (length inputs) <= UINT64_MAX ->
  run inputs s = Some (out, s') ->
  forall k, 1 <= k <= Z.of_nat (length inputs) ->
    Z.of_nat (length inputs) - gNumFrameResources < k ->
    fences s' !! slot_after s k = Some (mCurrentFence s + k).
Proof.
  induction inputs as [|[[gt key1] c] inputs IH]; intros s out s' Hwf Hmax Hr k Hk Hlate.
  - simpl in Hk. lia.
  - apply run_Some_cons in Hr as (w & s1 & v & out1 & Ht & Hr & _).
    pose proof (tick_WF _ _ _ _ _ _ _ Hwf Ht) as Hwf1.
    pose proof (tick_ring _ _ _ _ _ _ _ Ht) as (_ & Hv & Hc1 & Hf & _).
    pose proof (wf_counter _ Hwf) as Hc. pose proof (wf_index _ Hwf) as Hi.
    simpl length in *. unfold UINT64_MAX in *.
    rewrite Z.mod_small in Hv by lia.
    destruct (Z.eq_dec k 1) as [->|Hk1].
    + rewrite (run_fences_other _ _ _ _ _ Hwf1 Hr).
      * rewrite Hf, <- (next_index_slot_after s Hi), Hv.
        apply list_lookup_insert_eq.
        rewrite (next_index_slot_after s Hi). by apply slot_after_lt.
      * intros d Hd. rewrite (slot_after_tick _ _ _ _ _ _ _ _ Hi Ht).
        apply not_eq_sym, slot_after_distinct; [done|lia|].
        unfold gNumFrameResources in *. lia.
    + specialize (IH s1 out1 s' Hwf1 ltac:(lia) Hr (k - 1) ltac:(lia) ltac:(lia)).
      rewrite (slot_after_tick _ _ _ _ _ _ _ _ Hi Ht) in IH.
      replace (k - 1 + 1) with k in IH by lia. rewrite IH. f_equal. lia.
Qed.

End Fences.

(** ** The pass block is a function of camera, window and timer *)

Lemma light_of_frame_idemp k l : light_of_frame k (light_of_frame k l) = light_of_frame k l.
Proof. do 7 (destruct k as [|k]; [by destruct l|]). done. Qed.

Section PassBlock.

Context `{DX : DirectXMath} {Waves : Type} `{WA : WavesAPI Waves}.

#[local] Abbreviation App := (CastleApp Waves).
Implicit Types (s : App) (fr : FrameResource).

Lemma lights_idemp ls :
  tower_lights (fixed_lights (tower_lights (fixed_lights ls)))
  = tower_lights (fixed_lights ls).
Proof.
  apply list_eq. intros k. rewrite !lights_lookup.
  destruct (ls !! k); simpl; [|done]. by rewrite light_of_frame_idemp.
Qed.

Lemma main_pass_again gt s frs :
  main_pass gt (set_mFrameResources frs (set_mMainPassCB (main_pass gt s) s))
  = main_pass gt s.
Proof.
  unfold main_pass at 1. simpl. rewrite lights_idemp. done.
Qed.


End PassBlock.

(** ** A long frame takes the scroll out of the unit interval *)

Lemma is_round_cases b v z :
  is_round b false v z ->
  (F32.is_finite z = true /\ nonneg z = true) \/ z = S754_infinity false.
Proof.
  intros (m & e & e1 & m1 & _ & _ & _ & _ & ->). unfold pack.
  destruct (m1 =? 0); [by left|].
  destruct (m1 =? 2 ^ 24).
  - destruct (e1 + 1 <=? 104); [by left|by right].
  - destruct (e1 <=? 104); [by left|by right].
Qed.

Lemma is_round_at_least b v z mA eA :
  is_round b false v z -> b <= -149 -> -149 <= eA -> 0 <= mA < 2 ^ 24 ->
  scaled b mA eA <= v -> at_least b (scaled b mA eA) z.
Proof.
  intros Hr Hb He Hm Hv. split; [by eapply is_round_valid|].
  destruct (is_round_cases _ _ _ Hr) as [[Hf _]| ->]; [right|by left].
  split; [done|]. by eapply is_round_lower.
Qed.

Lemma at_least_one_not_unit b z :
  b <= -149 -> at_least b (2 ^ (- b)) z -> in_unit z = false.
Proof.
  intros Hb [Hv [->|[Hf Hz]]]; [done|].
  destruct (in_unit z) eqn:E; [|done].
  apply (in_unit_iff b) in E as [_ ?]; [lia|done..].
Qed.

Lemma two_eq : F32.of_Z 2 = S754_finite false 8388608 (-22).
Proof. reflexivity. Qed.

Lemma scaled_one b : b <= -149 -> scaled b 8388608 (-23) = 2 ^ (- b).
Proof. intros. rewrite <- (fval_one b) by done. by rewrite one_eq. Qed.

Lemma scaled_two b : b <= -149 -> scaled b 8388608 (-22) = 2 * 2 ^ (- b).
Proof.
  intros. rewrite <- scaled_one by done. unfold scaled.
  replace (-22 - b) with (1 + (-23 - b)) by lia.
  rewrite pow2_split by lia. change (2 ^ 1) with 2. lia.
Qed.

Lemma leb_two_at_least b a :
  b <= -149 -> F32.valid a = true -> F32.leb (F32.of_Z 2) a = true ->
  at_least b (2 * 2 ^ (- b)) a.
Proof.
  intros Hb Va Hle. split; [done|]. rewrite two_eq in Hle.
  destruct a as [s|[]| |s m e]; try done; [by left|right].
  split; [done|].
  rewrite (leb_fval b) in Hle by done. apply Z.leb_le in Hle.
  cbn [fval] in Hle. rewrite scaled_two in Hle by done. done.
Qed.

(** The sum of an offset of the unit interval and a step of two or more. *)
Lemma add_at_least b t a :
  b <= -149 -> F32.valid t = true -> in_unit t = true ->
  at_least b (2 * 2 ^ (- b)) a -> at_least b (2 * 2 ^ (- b)) (F32.add t a).
Proof.
  intros Hb Vt Ut [Va Ha].
  apply (in_unit_iff b) in Ut as [Ft Ht]; [|done..].
  pose proof (pow2_pos (- b) ltac:(lia)) as HP.
  destruct Ha as [->|[Fa Hva]].
  { split; [by destruct t|]. left. by destruct t. }
  destruct (fval_nonneg_inv b a Hb Va Fa ltac:(lia)) as [[sa ->]|(ma & ea & ->)].
  { cbn [fval] in Hva. lia. }
  destruct (fval_nonneg_inv b t Hb Vt Ft ltac:(lia)) as [[st ->]|(mt & et & ->)].
  { split; [done|]. right. by split. }
  pose proof (valid_finite_inv _ _ _ Vt) as (? & _).
  pose proof (valid_finite_inv _ _ _ Va) as (? & _).
  pose proof (add_is_round b mt et ma ea Hb ltac:(lia) ltac:(lia)) as Hr.
  rewrite <- scaled_two by done.
  eapply is_round_at_least; [done..|lia|done|].
  rewrite scaled_two by done. cbn [fval] in Hva, Ht. lia.
Qed.

(** Taking [1.0f] off a value of two or more leaves one or more. *)
Lemma sub_at_least b z :
  b <= -149 -> at_least b (2 * 2 ^ (- b)) z ->
  F32.geb z f1_0 = true /\ at_least b (2 ^ (- b)) (F32.sub z f1_0).
Proof.
  intros Hb [Vz Hz]. pose proof (pow2_pos (- b) ltac:(lia)) as HP.
  destruct Hz as [->|[Fz Hvz]]; [split; [done|split; [done|by left]]|].
  destruct (fval_nonneg_inv b z Hb Vz Fz ltac:(lia)) as [[sz ->]|(mz & ez & ->)].
  { cbn [fval] in Hvz. lia. }
  cbn [fval] in Hvz. split.
  - unfold F32.geb, f1_0. change SFleb with F32.leb.
    rewrite (leb_fval b), fval_one by done. apply Z.leb_le. cbn [fval]. lia.
  - unfold f1_0. rewrite one_eq.
    pose proof (valid_finite_inv _ _ _ Vz) as (? & _).
    pose proof (sub_is_round b mz ez 8388608 (-23) Hb ltac:(lia) ltac:(lia)) as Hs.
    cbv zeta in Hs. rewrite scaled_one in Hs by done.
    destruct (Hs ltac:(lia)) as [[? _]|[_ Hr]]; [lia|].
    rewrite <- scaled_one by done.
    eapply is_round_at_least; [done..|lia|done|].
    rewrite scaled_one by done. lia.
Qed.

Lemma scroll_leaves_unit t rate dt :
  F32.valid t = true -> F32.valid rate = true -> F32.valid dt = true ->
  in_unit t = true -> F32.leb (F32.of_Z 2) (F32.mul rate dt) = true ->
  in_unit (scroll t rate dt) = false.
Proof.
  intros Vt Vr Vd Ut Hle. unfold scroll. cbv zeta.
  pose proof (mul_valid _ _ Vr Vd) as Va.
  pose proof (leb_two_at_least (-298) _ ltac:(done) Va Hle) as Ha.
  pose proof (add_at_least (-298) _ _ ltac:(done) Vt Ut Ha) as H1.
  destruct (sub_at_least (-298) _ ltac:(done) H1) as [-> H2].
  by apply (at_least_one_not_unit (-298)).
Qed.

Section ScrollEdge.

Context `{DX : DirectXMath} {Waves : Type} `{WA : WavesAPI Waves}.

#[local] Abbreviation App := (CastleApp Waves).
Implicit Types (s : App).

(** X8.  The single subtraction of [UpdateWater] does not bring a large
    step back: when [0.1f * DeltaTime] is [2.0f] or more, as after a frame
    of twenty seconds, an offset [tu] that was in [[0, 1)] is not in
    [[0, 1)] after the call. *)
Theorem long_frame_breaks_scroll gt s tu tv :
  in_frame s ->
  water_offsets s = Some (tu, tv) ->
  F32.valid (gt_DeltaTime gt) = true ->
  F32.valid tu = true ->
  in_unit tu = true ->
  F32.leb (F32.of_Z 2) (F32.mul f0_1 (gt_DeltaTime gt)) = true ->
  exists s' tu' tv',
    UpdateWater gt s = Some s' /\
    water_offsets s' = Some (tu', tv') /\
    in_unit tu' = false.
Proof.
  intros Hin Hoff Vd Vtu Htu Hdt.
  destruct (UpdateWater_total gt s Hin) as (s' & Hs' & _).
  destruct (UpdateWater_materials _ _ _ Hs') as (waterMat & Hlook & Hmats).
  unfold water_offsets in Hoff. rewrite Hlook in Hoff. simpl in Hoff.
  injection Hoff as <- <-.
  set (M := MatTransform waterMat) in *.
  exists s', (scroll (mat_get M 3 0) f0_1 (gt_DeltaTime gt)),
    (scroll (mat_get M 3 1) f0_02 (gt_DeltaTime gt)).
  split; [done|]. split.
  { unfold water_offsets. rewrite Hmats, alist_lookup_set by (by rewrite Hlook).
    reflexivity. }
  by apply scroll_leaves_unit.
Qed.

End ScrollEdge.

(** ** The index loops of the water grid *)

Lemma int_chk_Some z : INT_MIN <= z <= INT_MAX -> int_chk z = Some z.
Proof. intros. unfold int_chk. by rewrite bool_decide_eq_true_2. Qed.

Lemma store16_Some v k x :
  0 <= k < Z.of_nat (length v) -> 0 <= x < 2 ^ 16 ->
  store16 v k x = Some (<[Z.to_nat k := x]> v).
Proof.
  intros Hk Hx. unfold store16. rewrite bool_decide_eq_true_2 by done.
  by rewrite Z.mod_small.
Qed.

(** The rule of a counted loop with an invariant. *)
Lemma for_each_inv {S} (P : Z -> S -> Prop) (body : Z -> S -> option S) len :
  forall lo s,
    P lo s ->
    (forall i s, lo <= i < lo + Z.of_nat len -> P i s ->
       exists s', body i s = Some s' /\ P (i + 1) s') ->
    exists s', for_each body (seqZ lo (Z.of_nat len)) s = Some s' /\
               P (lo + Z.of_nat len) s'.
Proof.
  induction len as [|len IH]; intros lo s HP Hbody.
  - exists s. split; [done|]. by rewrite Z.add_0_r.
  - rewrite Nat2Z.inj_succ, seqZ_cons by lia. simpl.
    destruct (Hbody lo s ltac:(lia) HP) as (s1 & -> & HP1). simpl.
    replace (Z.pred (Z.succ (Z.of_nat len))) with (Z.of_nat len) by lia.
    destruct (IH (Z.succ lo) s1) as (s' & Hs' & HP').
    + by replace (Z.succ lo) with (lo + 1) by lia.
    + intros i s2 Hi. apply Hbody. lia.
    + exists s'. split; [done|].
      by replace (lo + Z.succ (Z.of_nat len)) with (Z.succ lo + Z.of_nat len) by lia.
Qed.

Lemma for_range_inv {S} (P : Z -> S -> Prop) (body : Z -> S -> option S) lo hi s :
  lo <= hi -> P lo s ->
  (forall i s, lo <= i < hi -> P i s -> exists s', body i s = Some s' /\ P (i + 1) s') ->
  exists s', for_range lo hi body s = Some s' /\ P hi s'.
Proof.
  intros Hle HP Hbody. unfold for_range.
  destruct (for_each_inv P body (Z.to_nat (hi - lo)) lo s HP) as (s' & Hs' & HP').
  - intros i s1 Hi. apply Hbody. lia.
  - rewrite Z2Nat.id in * by lia. exists s'. split; [done|].
    by replace (lo + (hi - lo)) with hi in HP' by lia.
Qed.

Lemma for_range_empty {S} (body : Z -> S -> option S) lo hi s :
  hi <= lo -> for_range lo hi body s = Some s.
Proof.
  intros. unfold for_range. replace (seqZ lo (hi - lo)) with (@nil Z); [done|].
  symmetry. apply seqZ_nil. lia.
Qed.

(** *** The index list of the wave grid *)

Lemma set_index_Some k off a v :
  0 <= k + off < Z.of_nat (length v) -> Z.of_nat (length v) <= INT_MAX ->
  0 <= a < 2 ^ 16 ->
  set_index k off (Some a) v = Some (<[Z.to_nat (k + off) := a]> v).
Proof.
  intros Hk Hl Ha. unfold set_index. simpl.
  rewrite int_chk_Some by (unfold INT_MIN; lia). simpl. by apply store16_Some.
Qed.

Lemma quad_number_lt m1 n1 i j : 0 <= i < m1 -> 0 <= j < n1 -> i * n1 + j < m1 * n1.
Proof. nia. Qed.

Lemma quad_number_mono n1 i j i' j' :
  quad_before n1 i j i' j' -> 0 <= j -> i' * n1 + j' < i * n1 + j.
Proof. intros (? & ? & [?|[-> ?]]) ?; nia. Qed.

Lemma quad_vertex_range m n i j t :
  0 <= i < m - 1 -> 0 <= j < n - 1 -> 0 <= t < 6 ->
  0 <= quad_vertex n i j t < m * n.
Proof.
  intros Hi Hj Ht. unfold quad_vertex.
  repeat (destruct (_ =? _)); nia.
Qed.

Lemma water_quad_step L m n i j st :
  0 <= i < m - 1 -> 0 <= j < n - 1 -> m * n <= 65536 ->
  L = 6 * ((m - 1) * (n - 1)) -> L <= INT_MAX ->
  quads_done L n i j st ->
  exists st', water_quad n i j st = Some st' /\ quads_done L n i (j + 1) st'.
Proof.
  intros Hi Hj Hmn HL Hmax (Hk & Hlen & Hv). destruct st as [k v]. simpl in *.
  pose proof (quad_number_lt (m - 1) (n - 1) i j Hi Hj) as Hq.
  assert (0 <= i * n + j /\ (i + 1) * n + j + 1 < m * n) as [Hlo Hhi] by nia.
  assert (0 <= i * (n - 1) + j) as Hq0 by nia.
  assert (quad_near n i j = Some (i * n + j)) as En.
  { unfold quad_near. rewrite int_chk_Some by (unfold INT_MIN, INT_MAX; nia).
    cbn [mbind option_bind]. apply int_chk_Some. unfold INT_MIN, INT_MAX; nia. }
  assert (quad_far n i j = Some ((i + 1) * n + j)) as Ef.
  { unfold quad_far. rewrite int_chk_Some by (unfold INT_MIN, INT_MAX; nia).
    cbn [mbind option_bind].
    rewrite int_chk_Some by (unfold INT_MIN, INT_MAX; nia).
    cbn [mbind option_bind]. apply int_chk_Some. unfold INT_MIN, INT_MAX; nia. }
  assert (plus_one (Some (i * n + j)) = Some (i * n + j + 1)) as En1.
  { unfold plus_one. cbn [mbind option_bind]. apply int_chk_Some.
    unfold INT_MIN, INT_MAX; nia. }
  assert (plus_one (Some ((i + 1) * n + j)) = Some ((i + 1) * n + j + 1)) as Ef1.
  { unfold plus_one. cbn [mbind option_bind]. apply int_chk_Some.
    unfold INT_MIN, INT_MAX; nia. }
  unfold water_quad. cbn [fst snd]. rewrite En, Ef, En1, Ef1.
  unfold INT_MAX in Hmax.
  do 6 (rewrite set_index_Some
          by (unfold INT_MAX; rewrite ?length_insert; lia || nia);
        cbn [mbind option_bind]).
  rewrite int_chk_Some by (unfold INT_MIN, INT_MAX; lia). cbn [mbind option_bind].
  eexists. split; [done|]. split; [simpl; lia|]. split.
  { simpl. rewrite !length_insert. done. }
  simpl. intros i' j' t Hb Ht.
  destruct (decide (i' = i /\ j' = j)) as [[-> ->]|Hne].
  - rewrite <- Hk.
    assert (t = 0 \/ t = 1 \/ t = 2 \/ t = 3 \/ t = 4 \/ t = 5) as Ht' by lia.
    destruct Ht' as [-> | [-> | [-> | [-> | [-> | ->]]]]];
      repeat (rewrite list_lookup_insert_ne by lia);
      (rewrite list_lookup_insert_eq by (rewrite ?length_insert; lia)); done.
  - assert (quad_before (n - 1) i j i' j') as Hb'.
    { destruct Hb as (? & ? & ?). split; [done|]. split; [done|]. lia. }
    pose proof (quad_number_mono _ _ _ _ _ Hb' ltac:(lia)).
    pose proof Hb' as (? & ? & _).
    assert (0 <= i' * (n - 1) + j') by nia.
    repeat (rewrite list_lookup_insert_ne by lia). by apply Hv.
Qed.

Lemma water_row L m n i st :
  0 <= i < m - 1 -> 1 <= n -> m * n <= 65536 ->
  L = 6 * ((m - 1) * (n - 1)) -> L <= INT_MAX ->
  quads_done L n i 0 st ->
  exists st', for_range 0 (n - 1) (fun j st => water_quad n i j st) st = Some st' /\
              quads_done L n (i + 1) 0 st'.
Proof.
  intros Hi Hn Hmn HL Hmax Hst.
  destruct (for_range_inv (fun j st => quads_done L n i j st)
              (fun j st => water_quad n i j st) 0 (n - 1) st ltac:(lia) Hst)
    as (st' & Hst' & Hend).
  - intros j st1 Hj Hst1. by eapply water_quad_step.
  - exists st'. split; [done|]. destruct Hend as (Hk & Hlen & Hv).
    split; [lia|]. split; [done|].
    intros i' j' t (? & ? & ?) Ht. apply Hv; [|done].
    split; [done|]. split; [done|]. lia.
Qed.

(** The two loops run to the end, and leave every quad written. *)
Lemma water_indices_run m n :
  1 <= m -> 1 <= n -> m * n <= 65536 ->
  exists k v, water_indices (2 * ((m - 1) * (n - 1))) m n = Some v /\
    quads_done (6 * ((m - 1) * (n - 1))) n (m - 1) 0 (k, v).
Proof.
  intros Hm Hn Hmn. set (L := 6 * ((m - 1) * (n - 1))).
  assert (0 <= L <= 6 * 65536) as HL by (unfold L; nia).
  unfold water_indices.
  replace (3 * (2 * ((m - 1) * (n - 1)))) with L by (unfold L; lia).
  rewrite !int_chk_Some by (unfold INT_MIN, INT_MAX; nia). cbn [mbind option_bind].
  rewrite bool_decide_eq_true_2 by lia. cbn [mbind option_bind].
  destruct (for_range_inv (fun i st => quads_done L n i 0 st)
              (fun i st => for_range 0 (n - 1) (fun j st => water_quad n i j st) st)
              0 (m - 1) (0, replicate (Z.to_nat L) 0) ltac:(lia))
    as ([k v] & -> & Hdone).
  - split; [simpl; lia|]. split; [simpl; rewrite length_replicate; lia|].
    intros i' j' t (? & ? & ?). lia.
  - intros i st Hi Hst. eapply water_row; [done..|unfold INT_MAX; lia|done].
  - by exists k, v.
Qed.


(** ** Packing the castle meshes *)

Lemma uint_small z : 0 <= z < 2 ^ 32 -> uint z = z.
Proof. intros. unfold uint. by apply Z.mod_small. Qed.

Lemma usize_small {A} (l : list A) : Z.of_nat (length l) < 2 ^ 32 -> usize l = Z.of_nat (length l).
Proof. intros. unfold usize. apply uint_small. lia. Qed.

#[local] Abbreviation conv :=
  (fun gv : GVertex => mkVertex (gv_Position gv) (gv_Normal gv) (gv_TexC gv)).

(** A copy loop fills its stretch of the vector and leaves the rest. *)
Lemma copy_mesh_spec mesh k v :
  0 <= k -> k + Z.of_nat (length (Vertices mesh)) <= Z.of_nat (length v) ->
  k + Z.of_nat (length (Vertices mesh)) < 2 ^ 32 ->
  exists v',
    copy_mesh mesh (k, v) = Some (k + Z.of_nat (length (Vertices mesh)), v') /\
    length v' = length v /\
    (forall p, Z.of_nat p < k \/ k + Z.of_nat (length (Vertices mesh)) <= Z.of_nat p ->
       v' !! p = v !! p) /\
    (forall q gv, Vertices mesh !! q = Some gv ->
       v' !! (Z.to_nat k + q)%nat = Some (conv gv)).
Proof.
  intros Hk Hlen Hmax. set (n := Z.of_nat (length (Vertices mesh))) in *.
  unfold copy_mesh. fold n.
  destruct (for_range_inv
    (fun i st => st.1 = k + i /\ length st.2 = length v /\
       (forall p, Z.of_nat p < k \/ k + i <= Z.of_nat p -> st.2 !! p = v !! p) /\
       (forall q gv, Z.of_nat q < i -> Vertices mesh !! q = Some gv ->
          st.2 !! (Z.to_nat k + q)%nat = Some (conv gv)))
    (fun i st =>
       gv ← Vertices mesh !! Z.to_nat i;
       v ← store_vertex st.2 st.1 (mkVertex (gv_Position gv) (gv_Normal gv) (gv_TexC gv));
       Some (uint (st.1 + 1), v))
    0 n (k, v) ltac:(lia)) as ([k' v'] & Hrun & Hk' & Hl' & Hout & Hin).
  - simpl. split; [lia|]. split; [done|]. split; [done|]. intros; lia.
  - intros i [k1 v1] Hi (Hk1 & Hl1 & Hout & Hin). simpl in *. subst k1.
    destruct (lookup_lt_is_Some_2 (Vertices mesh) (Z.to_nat i) ltac:(lia)) as [gv Hgv].
    rewrite Hgv. cbn [mbind option_bind].
    unfold store_vertex. rewrite bool_decide_eq_true_2 by lia. cbn [mbind option_bind].
    eexists. split; [done|]. simpl. split; [rewrite uint_small; lia|].
    split; [by rewrite length_insert|]. split.
    + intros p Hp. rewrite list_lookup_insert_ne by lia. apply Hout. lia.
    + intros q gv' Hq Hgv'. destruct (decide (Z.of_nat q = i)) as [<-|Hne].
      * rewrite Nat2Z.id in Hgv. rewrite Hgv in Hgv'. injection Hgv' as <-.
        replace (Z.to_nat (k + Z.of_nat q)) with (Z.to_nat k + q)%nat by lia.
        apply list_lookup_insert_eq. lia.
      * rewrite list_lookup_insert_ne by lia. apply Hin; [lia|done].
  - simpl in *. subst k'. exists v'. split; [done|]. split; [done|]. split; [done|].
    intros q gv Hgv. apply Hin; [|done]. apply lookup_lt_Some in Hgv. lia.
Qed.

Lemma GetIndices16_length m : length (GetIndices16 m) = length (Indices32 m).
Proof. unfold GetIndices16. by rewrite length_fmap. Qed.

Lemma int_of_UINT_small x : 0 <= x < 2 ^ 31 -> int_of_UINT x = x.
Proof. intros. unfold int_of_UINT. destruct (Z.ltb_spec x (2 ^ 31)); lia. Qed.

Ltac copy_step v L O I :=
  match goal with
  | |- context [copy_mesh ?m (?k, ?v0)] =>
      destruct (copy_mesh_spec m k v0) as (v & -> & L & O & I); [lia..|];
      cbn [mbind option_bind]
  end.

Ltac castle_index :=
  repeat first
    [ rewrite lookup_app_l by (rewrite ?length_app, ?GetIndices16_length; simpl; lia)
    | rewrite lookup_app_r by (rewrite ?length_app, ?GetIndices16_length; simpl; lia) ];
  match goal with
  | Hp : Indices32 _ !! ?p = Some _ |- GetIndices16 _ !! ?n = _ =>
      replace n with p by (rewrite ?length_app, ?GetIndices16_length; simpl; lia);
      unfold GetIndices16; rewrite list_lookup_fmap, Hp; done
  end.

Ltac castle_vertex :=
  repeat match goal with
  | H : forall p, _ \/ _ -> ?v' !! p = _ |- ?v' !! _ = _ => rewrite H by (left; lia)
  end;
  match goal with
  | H : forall q gv, Vertices ?m !! q = Some gv -> ?v' !! _ = _,
    Hq : Vertices ?m !! ?q0 = Some ?gv0 |- ?v' !! ?n = _ =>
      specialize (H q0 gv0 Hq);
      match type of H with
      | _ !! ?n' = _ => replace n with n' by lia; exact H
      end
  end.

(** The copy loops stay inside the vertex list. *)
Lemma BuildCastleGeometry_Some ms :
  castle_vertex_count ms < 2 ^ 32 ->
  exists g, BuildCastleGeometry ms = Some g /\
    (forall name, is_Some (alist_lookup name (cg_DrawArgs g)) <->
                  name ∈ (castle_parts ms).*1).
Proof.
  unfold castle_vertex_count, castle_parts. simpl.
  intros Hv. unfold BuildCastleGeometry.
  set (v0 := replicate _ Vertex_default).
  assert (Z.of_nat (length v0)
          = Z.of_nat (length (Vertices (box ms))) + Z.of_nat (length (Vertices (grid ms)))
            + Z.of_nat (length (Vertices (sphere ms)))
            + Z.of_nat (length (Vertices (cylinder ms)))
            + Z.of_nat (length (Vertices (cone ms)))
            + Z.of_nat (length (Vertices (pyramid1 ms)))
            + Z.of_nat (length (Vertices (pyramid2 ms)))
            + Z.of_nat (length (Vertices (squarePyramid ms)))
            + Z.of_nat (length (Vertices (triangularPrism ms)))
            + Z.of_nat (length (Vertices (donut ms)))) as L0.
  { unfold v0. rewrite length_replicate. lia. }
  clearbody v0.
  copy_step v1 L1 O1 I1. copy_step v2 L2 O2 I2. copy_step v3 L3 O3 I3.
  copy_step v4 L4 O4 I4. copy_step v5 L5 O5 I5. copy_step v6 L6 O6 I6.
  copy_step v7 L7 O7 I7. copy_step v8 L8 O8 I8. copy_step v9 L9 O9 I9.
  copy_step v10 L10 O10 I10.
  eexists. split; [reflexivity|]. cbn [cg_DrawArgs].
  intros name. rewrite alist_lookup_is_Some. done.
Qed.

(** X10.  [BuildCastleGeometry] packs the ten meshes into one vertex list
    and one index list and records where each begins.  When the totals
    fit the [UINT] and [INT] members of the submesh table, every mesh is
    found again through its entry: its indices, converted to 16 bits
    each, lie in the index list from [StartIndexLocation] on, and its
    vertices (position, normal and texture coordinates) in the vertex
    list from [BaseVertexLocation] on; [IndexCount] is the number of its
    indices. *)
Theorem castle_submeshes_address_their_mesh ms :
  castle_vertex_count ms < 2 ^ 31 ->
  castle_index_count ms < 2 ^ 32 ->
  exists g,
    BuildCastleGeometry ms = Some g /\
    Z.of_nat (length (cg_vertices g)) = castle_vertex_count ms /\
    Z.of_nat (length (cg_indices g)) = castle_index_count ms /\
    forall name mesh, (name, mesh) ∈ castle_parts ms ->
      exists sub,
        alist_lookup name (cg_DrawArgs g) = Some sub /\
        sm_IndexCount sub = Z.of_nat (length (Indices32 mesh)) /\
        0 <= sm_StartIndexLocation sub /\
        sm_StartIndexLocation sub + sm_IndexCount sub <= castle_index_count ms /\
        0 <= sm_BaseVertexLocation sub /\
        (forall p x, Indices32 mesh !! p = Some x ->
           cg_indices g !! (Z.to_nat (sm_StartIndexLocation sub) + p)%nat
           = Some (x mod 2 ^ 16)) /\
        (forall q gv, Vertices mesh !! q = Some gv ->
           cg_vertices g !! (Z.to_nat (sm_BaseVertexLocation sub) + q)%nat
           = Some (mkVertex (gv_Position gv) (gv_Normal gv) (gv_TexC gv))).
Proof.
  unfold castle_vertex_count, castle_index_count, castle_parts. simpl.
  intros Hv Hi. unfold BuildCastleGeometry.
  set (v0 := replicate _ Vertex_default).
  assert (Z.of_nat (length v0)
          = Z.of_nat (length (Vertices (box ms))) + Z.of_nat (length (Vertices (grid ms)))
            + Z.of_nat (length (Vertices (sphere ms)))
            + Z.of_nat (length (Vertices (cylinder ms)))
            + Z.of_nat (length (Vertices (cone ms)))
            + Z.of_nat (length (Vertices (pyramid1 ms)))
            + Z.of_nat (length (Vertices (pyramid2 ms)))
            + Z.of_nat (length (Vertices (squarePyramid ms)))
            + Z.of_nat (length (Vertices (triangularPrism ms)))
            + Z.of_nat (length (Vertices (donut ms)))) as L0.
  { unfold v0. rewrite length_replicate. lia. }
  clearbody v0.
  copy_step v1 L1 O1 I1. copy_step v2 L2 O2 I2. copy_step v3 L3 O3 I3.
  copy_step v4 L4 O4 I4. copy_step v5 L5 O5 I5. copy_step v6 L6 O6 I6.
  copy_step v7 L7 O7 I7. copy_step v8 L8 O8 I8. copy_step v9 L9 O9 I9.
  copy_step v10 L10 O10 I10.
  eexists. split; [reflexivity|]. cbn [cg_vertices cg_indices cg_DrawArgs snd].
  split; [lia|]. split.
  { rewrite !length_app, !GetIndices16_length. simpl. lia. }
  rewrite !usize_small by lia. rewrite !uint_small by lia.
  intros name mesh Hin.
  repeat (apply elem_of_cons in Hin as [[= -> ->]|Hin]; [
    eexists; split; [reflexivity|]; cbn [sm_IndexCount sm_StartIndexLocation sm_BaseVertexLocation];
    rewrite ?int_of_UINT_small by lia;
    split; [done|]; split; [lia|]; split; [lia|]; split; [lia|]; split;
    [intros p x Hp; pose proof (lookup_lt_Some _ _ _ Hp); castle_index
    |intros q gv Hq; pose proof (lookup_lt_Some _ _ _ Hq); castle_vertex] |]).
  by apply elem_of_nil in Hin.
Qed.

(** ** The render items and their layers *)

Section SceneFacts.

Context `{DX : DirectXMath}.
Variable XMMatrixRotationX : float -> XMFLOAT4X4.
Variable XMMatrixRotationY : float -> XMFLOAT4X4.
Variable mats : list (string * Material).
Variable geos : list (string * list (string * SubmeshGeometry)).

#[local] Abbreviation build := (BuildRenderItems XMMatrixRotationX XMMatrixRotationY mats geos).

Lemma material_ptr_sound key k :
  material_ptr mats key = Some k -> k = key /\ is_Some (alist_lookup key mats).
Proof. unfold material_ptr. destruct (decide _); [|done]. by intros [= <-]. Qed.

Lemma BuildRenderItems_eval ca wa ta :
  alist_lookup "Castle" geos = Some ca ->
  alist_lookup "waterGeo" geos = Some wa ->
  alist_lookup "treeSpritesGeo" geos = Some ta ->
  exists b, build = Some b /\
    ObjCBIndex <$> bs_AllRitems b = seqZ 0 39 /\
    bs_Layer b = replicate 36 Opaque ++ [Transparent; AlphaTestedTreeSprites; Opaque] /\
    bs_PrimitiveType b = replicate 37 TRIANGLELIST ++ [POINTLIST; TRIANGLELIST] /\
    bs_WavesRitem b = Some 36%nat /\
    Geo <$> bs_AllRitems b
      = replicate 36 (Some "Castle")
        ++ [Some "waterGeo"; Some "treeSpritesGeo"; Some "Castle"] /\
    ri_NumFramesDirty <$> bs_AllRitems b = replicate 39 gNumFrameResources /\
    Mat <$> bs_AllRitems b
      = material_ptr mats <$>
          ["grass"; "brick1"; "brick3"; "ice"; "brick1"; "brick3"; "ice";
           "brick1"; "brick3"; "ice"; "brick1"; "brick3"; "ice";
           "brick2"; "brick2"; "brick2"; "brick2";
           "brick1"; "brick2"; "brick2"; "brick1"; "brick1"; "brick2"; "brick2"; "brick1";
           "brick1"; "brick2"; "brick2"; "brick1"; "brick1"; "brick2"; "brick2"; "brick1";
           "checkboard"; "ice"; "brick2"; "water"; "treeSprites"; "wood"].
Proof.
  intros Hc Hw Ht. unfold BuildRenderItems, for_range.
  change (seqZ 0 (4 - 0)) with [0; 1; 2; 3].
  cbn [for_each]. unfold add_ritem.
  repeat (rewrite ?Hc, ?Hw, ?Ht;
          cbn [mbind option_bind bs_AllRitems bs_Layer bs_PrimitiveType
               bs_WavesRitem bs_objIndex app]).
  eexists. split; [reflexivity|].
  cbn [bs_AllRitems bs_Layer bs_PrimitiveType bs_WavesRitem bs_objIndex].
  repeat split; reflexivity.
Qed.

(** X11.  With the three geometries registered, [BuildRenderItems] makes 39
    render items: item [i] of [mAllRitems] has [ObjCBIndex = i], is dirty
    for every frame resource, and its material pointer, unless null, names
    a material of the map.  The transparent layer holds item 36 alone, the
    water, which is also [mWavesRitem] and the one item of geometry
    [waterGeo]; the tree-sprite layer holds item 37 alone, the one item
    drawn as a point list; the alpha-tested layer is empty; the opaque
    layer holds the other 37 items in the order of [mAllRitems].  Without
    the castle geometry the first item dereferences a null pointer. *)
Theorem render_items_numbered :
  (forall ca wa ta,
     alist_lookup "Castle" geos = Some ca ->
     alist_lookup "waterGeo" geos = Some wa ->
     alist_lookup "treeSpritesGeo" geos = Some ta ->
     exists b, build = Some b /\
       length (bs_AllRitems b) = 39%nat /\
       (forall i e, bs_AllRitems b !! i = Some e ->
          ObjCBIndex e = Z.of_nat i /\
          ri_NumFramesDirty e = gNumFrameResources /\
          (forall key, Mat e = Some key -> is_Some (alist_lookup key mats)) /\
          (Geo e = Some "waterGeo" <-> i = 36%nat)) /\
       bs_WavesRitem b = Some 36%nat /\
       RitemLayer b Opaque = seq 0 36 ++ [38%nat] /\
       RitemLayer b Transparent = [36%nat] /\
       RitemLayer b AlphaTested = [] /\
       RitemLayer b AlphaTestedTreeSprites = [37%nat] /\
       (forall i, bs_PrimitiveType b !! i = Some POINTLIST <-> i = 37%nat)) /\
  (alist_lookup "Castle" geos = None -> build = None).
Proof.
  split.
  - intros ca wa ta Hc Hw Ht.
    destruct (BuildRenderItems_eval ca wa ta Hc Hw Ht)
      as (b & Hb & Hidx & Hlayer & Htopo & Hwr & Hgeo & Hdirty & Hmat).
    assert (length (bs_AllRitems b) = 39%nat) as Hlen.
    { apply (f_equal length) in Hidx. by rewrite length_fmap in Hidx. }
    exists b. split; [done|]. split; [done|]. split.
    { intros i e He.
      pose proof (lookup_lt_Some _ _ _ He) as Hi. rewrite Hlen in Hi.
      assert ((ObjCBIndex <$> bs_AllRitems b) !! i = Some (ObjCBIndex e)) as H1
        by (by rewrite list_lookup_fmap, He).
      assert ((ri_NumFramesDirty <$> bs_AllRitems b) !! i = Some (ri_NumFramesDirty e))
        as H2 by (by rewrite list_lookup_fmap, He).
      assert ((Mat <$> bs_AllRitems b) !! i = Some (Mat e)) as H3
        by (by rewrite list_lookup_fmap, He).
      assert ((Geo <$> bs_AllRitems b) !! i = Some (Geo e)) as H4
        by (by rewrite list_lookup_fmap, He).
      rewrite Hidx in H1. rewrite Hdirty in H2. rewrite Hmat in H3. rewrite Hgeo in H4.
      apply lookup_seqZ in H1 as [H1 _]. apply lookup_replicate in H2 as [H2 _].
      split; [lia|]. split; [done|]. split.
      - intros key Hkey. rewrite list_lookup_fmap in H3.
        match type of H3 with
        | _ <$> ?l !! i = _ => destruct (l !! i) as [k|] eqn:Hk; [|done]
        end.
        injection H3 as H3.
        rewrite Hkey in H3.
        by apply material_ptr_sound in H3 as [-> ?].
      - destruct (decide (i < 36)%nat) as [Hlt|Hge].
        + rewrite lookup_app_l in H4 by (rewrite length_replicate; lia).
          apply lookup_replicate in H4 as [H4 _]. rewrite H4. split; [done|lia].
        + rewrite lookup_app_r in H4 by (rewrite length_replicate; lia).
          rewrite length_replicate in H4.
          destruct (i - 36)%nat as [|[|[|n]]] eqn:Hd; simpl in H4; [..|done];
            injection H4 as <-; (split; [intros; first [lia|done]|intros; first [done|lia]]). }
    split; [done|]. unfold RitemLayer. rewrite Hlayer.
    split; [reflexivity|]. split; [reflexivity|]. split; [reflexivity|].
    split; [reflexivity|].
    intros i. rewrite Htopo. destruct (decide (i < 37)%nat) as [Hlt|Hge].
    + rewrite lookup_app_l by (rewrite length_replicate; lia).
      rewrite lookup_replicate. split; [by intros [[=] _]|lia].
    + rewrite lookup_app_r by (rewrite length_replicate; lia).
      rewrite length_replicate.
      destruct (i - 37)%nat as [|[|n]] eqn:Hd; simpl; split; try done; lia.
  - intros Hc. unfold BuildRenderItems, add_ritem. by rewrite Hc.
Qed.

End SceneFacts.

(** ** From start-up to the frame loop *)

Section StartFacts.

Context `{DX : DirectXMath} {Waves : Type} `{WA : WavesAPI Waves}.
Variable XMMatrixRotationX : float -> XMFLOAT4X4.
Variable XMMatrixRotationY : float -> XMFLOAT4X4.

#[local] Abbreviation init := (Initialize XMMatrixRotationX XMMatrixRotationY).

Lemma BuildMaterials_ptr :
  material_ptr BuildMaterials <$>
    ["grass"; "brick1"; "brick2"; "brick3"; "ice"; "checkboard"; "water"; "wood";
     "treeSprites"]
  = Some <$> ["grass"; "brick1"; "brick2"; "brick3"; "ice"; "checkboard"; "water"; "wood";
              "treeSprites"].
Proof. reflexivity. Qed.

(** The frame resources [BuildFrameResources] adds fit the scene they are
    built for. *)
Lemma BuildFrameResources_WF (s0 : CastleApp Waves) :
  mFrameResources s0 = [] ->
  0 <= mCurrFrameResourceIndex s0 < gNumFrameResources ->
  0 <= mCurrentFence s0 <= UINT64_MAX ->
  Forall (fun e => 0 <= int_of_UINT (ObjCBIndex e) < Z.of_nat (length (mAllRitems s0)))
         (mAllRitems s0) ->
  Forall (fun e : string * Material => 0 <= MatCBIndex e.2 < Z.of_nat (length (mMaterials s0)))
         (mMaterials s0) ->
  is_Some (alist_lookup "water" (mMaterials s0)) ->
  (exists r item g, mWavesRitem s0 = Some r /\ mAllRitems s0 !! r = Some item /\
                    Geo item = Some g /\ is_Some (mGeometries s0 !! g)) ->
  WF (BuildFrameResources s0).
Proof.
  intros Hnil Hidx Hctr Hobj Hmat Hwater Hritem.
  assert (forall i, fits (BuildFrameResources s0)
            (new_FrameResource (4 * i)%nat 1 (Z.of_nat (length (mAllRitems s0)))
               (Z.of_nat (length (mMaterials s0))) (Waves_VertexCount (mWaves s0))))
    as Hfit.
  { intros i. unfold fits, new_FrameResource, new_UploadBuffer. destruct s0; simpl in *.
    rewrite !length_replicate, !Nat2Z.id. split; [lia|]. split; [done|]. split; [done|].
    lia. }
  constructor.
  - unfold BuildFrameResources. destruct s0; simpl in *. by rewrite Hnil.
  - by destruct s0.
  - by destruct s0.
  - unfold BuildFrameResources at 2. cbn [mFrameResources set_mFrameResources].
    rewrite Hnil. cbn [app].
    apply Forall_cons. split; [apply Hfit|].
    apply Forall_cons. split; [apply Hfit|].
    apply Forall_cons. split; [apply Hfit|]. apply Forall_nil_2.
  - by destruct s0.
  - by destruct s0.
Qed.

Lemma Some_bind {A B} (f : A -> option B) (x : A) : Some x ≫= f = f x.
Proof. reflexivity. Qed.

(** What [Initialize] builds before the frame resources. *)
Lemma Initialize_Some ex :
  castle_vertex_count (ex_meshes ex) < 2 ^ 32 ->
  1 <= ex_RowCount ex -> 1 <= ex_ColumnCount ex ->
  ex_RowCount ex * ex_ColumnCount ex <= 65536 ->
  ex_TriangleCount ex = 2 * ((ex_RowCount ex - 1) * (ex_ColumnCount ex - 1)) ->
  exists s0,
    init ex = Some (BuildFrameResources s0) /\
    mFrameResources s0 = [] /\ mCurrFrameResource s0 = None /\
    mCurrFrameResourceIndex s0 = 0 /\ mCurrentFence s0 = ex_fence ex /\
    mMaterials s0 = BuildMaterials /\ mWavesRitem s0 = Some 36%nat /\
    (forall g, g ∈ ["Castle"; "waterGeo"; "treeSpritesGeo"] ->
               is_Some (mGeometries s0 !! g)) /\
    ObjCBIndex <$> mAllRitems s0 = seqZ 0 39 /\
    Geo <$> mAllRitems s0
    = replicate 36 (Some "Castle") ++ [Some "waterGeo"; Some "treeSpritesGeo"; Some "Castle"] /\
    ri_NumFramesDirty <$> mAllRitems s0 = replicate 39 gNumFrameResources /\
    exists keys, Mat <$> mAllRitems s0 = material_ptr BuildMaterials <$> keys /\
                 Forall (fun k => material_ptr BuildMaterials k = Some k /\
                                  is_Some (alist_lookup k BuildMaterials)) keys.
Proof.
  intros Hcv Hm Hn Hmn Htc.
  destruct (BuildCastleGeometry_Some _ Hcv) as (castle & Hc & _).
  destruct (water_indices_run _ _ Hm Hn Hmn) as (k & widx & Hw & _).
  assert (exists water,
            BuildWaterGeometry (ex_TriangleCount ex) (Waves_VertexCount (ex_waves ex))
              (ex_RowCount ex) (ex_ColumnCount ex) = Some water) as [water Hwg].
  { unfold BuildWaterGeometry. rewrite Htc, Hw. eexists. reflexivity. }
  destruct (BuildRenderItems_eval XMMatrixRotationX XMMatrixRotationY BuildMaterials
              [ ("Castle", cg_DrawArgs castle); ("waterGeo", wg_DrawArgs water);
                ("treeSpritesGeo", tg_DrawArgs (BuildTreeSpritesGeometry (ex_randF ex))) ]
              (cg_DrawArgs castle) (wg_DrawArgs water)
              (tg_DrawArgs (BuildTreeSpritesGeometry (ex_randF ex)))
              eq_refl eq_refl eq_refl)
    as (b & Hb & Hidx & Hlayer & Htopo & Hwr & Hgeo & Hdirty & Hmat).
  unfold Initialize. cbv zeta.
  rewrite Hc, Some_bind. cbv beta. rewrite Hwg, Some_bind. cbv beta.
  rewrite Hb, Some_bind. cbv beta.
  eexists. split; [reflexivity|].
  split; [reflexivity|]. split; [reflexivity|]. split; [reflexivity|].
  split; [reflexivity|]. split; [reflexivity|]. split; [exact Hwr|]. split.
  { intros g Hg. cbn [mGeometries].
    repeat (apply elem_of_cons in Hg as [-> | Hg]);
      [| | |exfalso; by apply elem_of_nil in Hg].
    - rewrite lookup_insert_ne by done. rewrite lookup_insert_ne by done.
      rewrite lookup_insert_eq. eauto.
    - rewrite lookup_insert_ne by done. rewrite lookup_insert_eq. eauto.
    - rewrite lookup_insert_eq. eauto. }
  split; [exact Hidx|]. split; [exact Hgeo|]. split; [exact Hdirty|].
  eexists. split; [exact Hmat|].
  repeat (apply Forall_cons; split;
          [split; [vm_compute; reflexivity|vm_compute; eauto]|]).
  apply Forall_nil_2.
Qed.


End StartFacts.

(** ** The further theorems on small inputs *)

Lemma small_WF : WF (small_scene 5).
Proof. apply small_scene_WF. vm_compute. split; intros [=]. Qed.

Lemma small_in_frame : in_frame (small_frame 5).
Proof. apply small_frame_in_frame. vm_compute. split; intros [=]. Qed.

Lemma tick_keeps_other_slots_witness :
  exists w s' v,
    tick (gt60 1) 0 5 (small_scene 5) = Some (w, s', v) /\
    length (mFrameResources s') = 3%nat /\
    mCurrFrameResource s' = Some 1%nat /\
    mFrameResources s' !! 0%nat = mFrameResources (small_scene 5) !! 0%nat /\
    mFrameResources s' !! 2%nat = mFrameResources (small_scene 5) !! 2%nat.
Proof.
  destruct (tick_total (DX := DX_fixed) (gt60 1) 0 5 (small_scene 5) small_WF)
    as (w & s' & v & Ht & _).
  destruct (@tick_keeps_other_slots DX_fixed StillWaves StillWaves_API _ _ _ _ _ _ _ Ht)
    as (Hl & Hc & Ho).
  exists w, s', v. split; [exact Ht|]. split; [exact Hl|]. split; [exact Hc|].
  split; apply Ho; vm_compute; intros [=].
Defined.

Lemma dirty_counts_in_range_witness :
  exists out s',
    run [(gt60 1, 0, 5); (gt60 2, 0, 6)] (small_scene 5) = Some (out, s') /\
    Forall (fun e => 0 <= ri_NumFramesDirty e <= gNumFrameResources) (mAllRitems s') /\
    Forall (fun e : string * Material => 0 <= mat_NumFramesDirty e.2 <= gNumFrameResources)
           (mMaterials s').
Proof.
  destruct (run_total (DX := DX_fixed) [(gt60 1, 0, 5); (gt60 2, 0, 6)] (small_scene 5)
              small_WF) as (out & s' & Hr & _ & _).
  destruct (@dirty_counts_in_range DX_fixed StillWaves StillWaves_API _ _ _ _ Hr)
    as [Hobj Hmat].
  exists out, s'. split; [exact Hr|]. split.
  - apply Hobj. repeat (apply Forall_cons; split; [vm_compute; split; intros [=]|]).
    apply Forall_nil_2.
  - apply Hmat. repeat (apply Forall_cons; split; [vm_compute; split; intros [=]|]).
    apply Forall_nil_2.
Defined.

Lemma clean_pass_changes_nothing_witness :
  is_Some (curr clean_frame) /\
  UpdateObjectCBs clean_frame = Some clean_frame /\
  UpdateMaterialCBs clean_frame = Some clean_frame.
Proof.
  assert (is_Some (curr clean_frame)) as Hc by (vm_compute; eauto).
  split; [exact Hc|].
  destruct (@clean_pass_changes_nothing StillWaves clean_frame Hc) as [Hobj Hmat].
  split.
  - apply Hobj. repeat (apply Forall_cons; split; [vm_compute; intros [=]|]).
    apply Forall_nil_2.
  - apply Hmat. repeat (apply Forall_cons; split; [vm_compute; intros [=]|]).
    apply Forall_nil_2.
Defined.

Lemma water_constants_every_frame_witness :
  exists w s' v fr' entry,
    tick (gt60 1) 0 5 (small_scene 5) = Some (w, s', v) /\
    curr s' = Some fr' /\
    ub_read (MaterialCB fr') 6 = Some entry /\
    mc_Roughness entry = F32.zero /\
    mat_get (mc_MatTransform entry) 0 3 = F32.mul f0_1 (F32.lit 1 60) /\
    mat_get (mc_MatTransform entry) 1 3 = F32.mul f0_02 (F32.lit 1 60).
Proof.
  assert (NoDup ((fun e : string * Material => MatCBIndex e.2)
                   <$> mMaterials (small_scene 5))) as Hnd by compute_done.
  destruct (@water_constants_every_frame DX_fixed StillWaves StillWaves_API
              (gt60 1) 0 5 (small_scene 5) _ small_WF Hnd eq_refl)
    as (w & s' & v & fr' & entry & m' & Ht & Hc & Hread & _ & _ & Hrough & Htrans & _).
  exists w, s', v, fr', entry.
  split; [exact Ht|]. split; [exact Hc|]. split; [exact Hread|].
  split; [exact Hrough|]. rewrite Htrans. split; vm_compute; reflexivity.
Defined.

Lemma ring_holds_latest_markers_witness :
  exists out s',
    run [(gt60 1, 0, 5); (gt60 2, 0, 6); (gt60 3, 0, 7); (gt60 4, 0, 8)] (small_scene 5)
      = Some (out, s') /\
    fences s' = [8; 9; 7].
Proof.
  destruct (run_total (DX := DX_fixed)
              [(gt60 1, 0, 5); (gt60 2, 0, 6); (gt60 3, 0, 7); (gt60 4, 0, 8)]
              (small_scene 5) small_WF) as (out & s' & Hr & Hwf & _).
  assert (mCurrentFence (small_scene 5) + Z.of_nat 4 <= UINT64_MAX) as Hmax
    by (vm_compute; intros [=]).
  pose proof (@ring_holds_latest_markers DX_fixed StillWaves StillWaves_API
                [(gt60 1, 0, 5); (gt60 2, 0, 6); (gt60 3, 0, 7); (gt60 4, 0, 8)]
                _ _ _ small_WF Hmax Hr) as Hk.
  pose proof (Hk 2 ltac:(simpl; lia) ltac:(simpl; unfold gNumFrameResources; lia)) as H2.
  pose proof (Hk 3 ltac:(simpl; lia) ltac:(simpl; unfold gNumFrameResources; lia)) as H3.
  pose proof (Hk 4 ltac:(simpl; lia) ltac:(simpl; unfold gNumFrameResources; lia)) as H4.
  exists out, s'. split; [exact Hr|].
  assert (length (fences s') = 3%nat) as Hlen.
  { unfold fences. rewrite length_fmap. pose proof (wf_frames _ Hwf) as Hl.
    unfold gNumFrameResources in Hl. lia. }
  change (slot_after (small_scene 5) 2) with 2%nat in H2.
  change (slot_after (small_scene 5) 3) with 0%nat in H3.
  change (slot_after (small_scene 5) 4) with 1%nat in H4.
  destruct (fences s') as [|a [|b [|c [|d l]]]]; try discriminate Hlen.
  simpl in H2, H3, H4. injection H2 as ->. injection H3 as ->. injection H4 as ->.
  reflexivity.
Defined.


Lemma long_frame_breaks_scroll_witness :
  let gt := mkGameTimer (F32.of_Z 25) (F32.of_Z 25) in
  water_offsets (small_frame 5) = Some (F32.zero, F32.zero) /\
  in_unit F32.zero = true /\
  F32.leb (F32.of_Z 2) (F32.mul f0_1 (gt_DeltaTime gt)) = true /\
  exists s' tu' tv',
    UpdateWater gt (small_frame 5) = Some s' /\
    water_offsets s' = Some (tu', tv') /\ in_unit tu' = false.
Proof.
  intros gt. split; [reflexivity|]. split; [reflexivity|]. split; [reflexivity|].
  apply (@long_frame_breaks_scroll StillWaves StillWaves_API gt (small_frame 5)
           F32.zero F32.zero small_in_frame); reflexivity.
Defined.


Lemma castle_submeshes_address_their_mesh_witness :
  exists g sub,
    BuildCastleGeometry small_meshes = Some g /\
    Z.of_nat (length (cg_vertices g)) = 30 /\
    Z.of_nat (length (cg_indices g)) = 30 /\
    alist_lookup "donut" (cg_DrawArgs g) = Some sub /\
    sm_IndexCount sub = 3 /\
    cg_indices g !! (Z.to_nat (sm_StartIndexLocation sub) + 2)%nat = Some 2.
Proof.
  destruct (castle_submeshes_address_their_mesh small_meshes)
    as (g & Hg & Hv & Hi & Hparts); [vm_compute; reflexivity..|].
  destruct (Hparts "donut" one_triangle) as (sub & Hsub & Hcount & _ & _ & _ & Hidx & _).
  { apply (list_elem_of_lookup_2 _ 9%nat). reflexivity. }
  exists g, sub. split; [exact Hg|]. split; [exact Hv|]. split; [exact Hi|].
  split; [exact Hsub|]. split; [exact Hcount|].
  exact (Hidx 2%nat 2 eq_refl).
Defined.

Lemma render_items_numbered_witness :
  let geos := [ ("Castle", []); ("waterGeo", []); ("treeSpritesGeo", []) ] in
  exists b,
    BuildRenderItems (fun _ => Identity4x4) (fun _ => Identity4x4) BuildMaterials geos
      = Some b /\
    length (bs_AllRitems b) = 39%nat /\
    RitemLayer b Transparent = [36%nat] /\
    bs_WavesRitem b = Some 36%nat.
Proof.
  intros geos.
  destruct (proj1 (@render_items_numbered DX_fixed (fun _ => Identity4x4)
                     (fun _ => Identity4x4) BuildMaterials geos) [] [] []
              eq_refl eq_refl eq_refl)
    as (b & Hb & Hlen & _ & Hwr & _ & Htr & _).
  exists b. split; [exact Hb|]. split; [exact Hlen|]. split; [exact Htr|exact Hwr].
Defined.

